(** * parseSVG.ts: the SVG document to scene-graph converter

    A shallow embedding of [src/tool/parseSVG.ts] and the properties its
    specification states about it.

    - JavaScript numbers are IEEE binary64 values: Rocq's primitive [float].
    - JavaScript strings are [string]s of code units below 256.
    - The style dictionaries are [gmap string string]: they are read under
      the fixed names of [attributesMap] only, none of which is a name of
      [Object.prototype]. The defs registry and the two tables of parsers
      are read under names taken from the document: they are modelled with
      what a plain object inherits from [Object.prototype].
    - The parser instance, the console and the module-level [styleRegex]
      are threaded explicitly through an exception-and-state monad. *)

From Stdlib Require Import ZArith String Ascii List Bool Lia.
From Stdlib Require Import PrimFloat SpecFloat FloatOps FloatAxioms.
From stdpp Require Import gmap strings.
Import ListNotations.

Local Open Scope string_scope.
Local Open Scope bool_scope.
Set Warnings "-register-all".

(** ** JavaScript primitives *)

Module JS.

(** *** Characters and strings *)

Definition code (c : ascii) : N := N_of_ascii c.

(** The white-space and line-terminator code units matched by [\s], skipped
    by [trim] and by the numeric conversions: the control characters 9 to
    13, the space and the no-break space. *)
Definition isSpace (c : ascii) : bool :=
  let n := code c in ((9 <=? n) && (n <=? 13))%N || (n =? 32)%N || (n =? 160)%N.

(** The code units [.] refuses in a regular expression. *)
Definition isLineTerminator (c : ascii) : bool :=
  let n := code c in (n =? 10)%N || (n =? 13)%N.

Definition isDigit (c : ascii) : bool :=
  let n := code c in ((48 <=? n) && (n <=? 57))%N.

Definition digitVal (c : ascii) : Z := Z.of_N (code c) - 48.

(** The upper-case letters are A to Z and the code units 192 to 222 but
    215, the multiplication sign. *)
Definition toLowerChar (c : ascii) : ascii :=
  let n := code c in
  if ((65 <=? n) && (n <=? 90))%N || ((192 <=? n) && (n <=? 222) && negb (n =? 215))%N
  then ascii_of_N (n + 32) else c.

Fixpoint toLowerCase (s : string) : string :=
  match s with
  | EmptyString => EmptyString
  | String c r => String (toLowerChar c) (toLowerCase r)
  end.

Fixpoint trimStart (s : string) : string :=
  match s with
  | String c r => if isSpace c then trimStart r else s
  | EmptyString => EmptyString
  end.

Fixpoint trimEnd (s : string) : string :=
  match s with
  | EmptyString => EmptyString
  | String c r =>
      match trimEnd r with
      | EmptyString => if isSpace c then EmptyString else String c EmptyString
      | r' => String c r'
      end
  end.

(** [util.trim], which defers to [String.prototype.trim]. *)
Definition trim (s : string) : string := trimEnd (trimStart s).

(** [s.replace(/,/g, ' ')]. *)
Fixpoint replaceCommas (s : string) : string :=
  match s with
  | EmptyString => EmptyString
  | String c r => String (if Ascii.eqb c "," then " "%char else c) (replaceCommas r)
  end.

(** [s.indexOf(c)], [None] standing for [-1]. *)
Fixpoint indexOf (c : ascii) (s : string) : option nat :=
  match s with
  | EmptyString => None
  | String d r => if Ascii.eqb c d then Some 0 else option_map S (indexOf c r)
  end.

(** [s[i]]: the one-character string at index [i], [None] for [undefined]. *)
Definition charAt (s : string) (i : nat) : option string :=
  option_map (fun c => String c EmptyString) (String.get i s).

(** Truthiness of a string: it is not empty. *)
Definition nonEmpty (s : string) : bool :=
  match s with EmptyString => false | _ => true end.

(** [a || b] on a nullable string. *)
Definition orElse (a : option string) (b : string) : string :=
  match a with
  | Some s => if nonEmpty s then s else b
  | None => b
  end.

(** The longest prefix of decimal digits, and what follows it. *)
Fixpoint spanDigits (s : string) : string * string :=
  match s with
  | String c r =>
      if isDigit c then let '(d, t) := spanDigits r in (String c d, t) else (EmptyString, s)
  | EmptyString => (EmptyString, EmptyString)
  end.

Fixpoint digitsValue (acc : Z) (s : string) : Z :=
  match s with
  | EmptyString => acc
  | String c r => digitsValue (10 * acc + digitVal c) r
  end.

Definition takeSign (s : string) : bool * string :=
  match s with
  | String c r =>
      if Ascii.eqb c "-" then (true, r) else if Ascii.eqb c "+" then (false, r) else (false, s)
  | EmptyString => (false, s)
  end.

(** *** Numbers *)

Definition number := float.
Bind Scope float_scope with number.

(** The binary64 value nearest to [(-1)^neg * m * 10^e] (ties to even), for
    a natural number [m]: the value a decimal literal denotes. *)
Definition decimalValue (neg : bool) (m e : Z) : number :=
  match m with
  | Zpos p =>
      if (0 <=? e)%Z
      then SF2Prim (binary_normalize prec emax
                      (if neg then - (Zpos p * 10 ^ e) else Zpos p * 10 ^ e) 0 false)
      else match (10 ^ (- e))%Z with
           | Zpos d => SF2Prim (SFdiv prec emax (S754_finite neg p 0) (S754_finite false d 0))
           | _ => nan
           end
  | _ => if neg then neg_zero else zero
  end.

(** The unsigned part of a [StrDecimalLiteral] at the head of [s]: its value
    and the rest of the string, or [None] when [s] starts with none. *)
Definition decimalLiteral (neg : bool) (s : string) : option (number * string) :=
  if String.prefix "Infinity" s
  then Some (if neg then neg_infinity else infinity, String.substring 8 (String.length s - 8) s)
  else
    let '(ip, s1) := spanDigits s in
    let '(dot, fp, s2) :=
      match s1 with
      | String c r => if Ascii.eqb c "." then let '(d, t) := spanDigits r in (true, d, t)
                      else (false, EmptyString, s1)
      | EmptyString => (false, EmptyString, s1)
      end in
    if negb (nonEmpty ip) && negb (nonEmpty fp) then None
    else
      let '(ex, s3) :=
        match s2 with
        | String c r =>
            if Ascii.eqb c "e" || Ascii.eqb c "E" then
              let '(eneg, r1) := takeSign r in
              let '(ed, r2) := spanDigits r1 in
              if nonEmpty ed then ((if eneg then - digitsValue 0 ed else digitsValue 0 ed)%Z, r2)
              else (0%Z, s2)
            else (0%Z, s2)
        | EmptyString => (0%Z, s2)
        end in
      Some (decimalValue neg (digitsValue 0 (ip ++ fp)) (ex - Z.of_nat (String.length fp)), s3).

(** [parseFloat(s)]: leading white space is skipped, the longest decimal
    literal is read, anything after it is ignored. *)
Definition parseFloat (s : string) : number :=
  let '(neg, r) := takeSign (trimStart s) in
  match decimalLiteral neg r with
  | Some (x, _) => x
  | None => nan
  end.

(** [parseFloat(undefined)] reads the string ["undefined"]. *)
Definition parseFloatOpt (s : option string) : number :=
  match s with
  | Some s => parseFloat s
  | None => nan
  end.

(** [parseFloat(x)] on a number: [x] is printed and read back, which keeps
    every value but the sign of a negative zero. *)
Definition parseFloatNum (x : number) : number :=
  if is_zero x then zero else x.

(** [parseInt(s, 10)]. *)
Definition parseInt (s : string) : number :=
  let '(neg, r) := takeSign (trimStart s) in
  let '(ds, _) := spanDigits r in
  if nonEmpty ds then decimalValue neg (digitsValue 0 ds) 0 else nan.

Definition isHexDigit (c : ascii) : bool :=
  let n := code (toLowerChar c) in isDigit c || ((97 <=? n) && (n <=? 102))%N.

Definition hexVal (c : ascii) : Z :=
  if isDigit c then digitVal c else Z.of_N (code (toLowerChar c)) - 87.

(** The digits of a [0x], [0o] or [0b] literal, all of them below [radix]. *)
Fixpoint radixValue (radix : Z) (acc : Z) (s : string) : option Z :=
  match s with
  | EmptyString => Some acc
  | String c r =>
      if isHexDigit c && (hexVal c <? radix)%Z
      then radixValue radix (radix * acc + hexVal c) r
      else None
  end.

(** [+s], the conversion [ToNumber] of a string: the whole trimmed string
    must be one numeric literal; the empty string is [0]. *)
Definition toNumber (s : string) : number :=
  let t := trim s in
  let radixLit (radix : Z) (r : string) :=
    match r with
    | EmptyString => nan
    | _ => match radixValue radix 0 r with
           | Some v => decimalValue false v 0
           | None => nan
           end
    end in
  match t with
  | EmptyString => zero
  | String c0 (String c1 r) =>
      if Ascii.eqb c0 "0" && Ascii.eqb (toLowerChar c1) "x" then radixLit 16%Z r
      else if Ascii.eqb c0 "0" && Ascii.eqb (toLowerChar c1) "o" then radixLit 8%Z r
      else if Ascii.eqb c0 "0" && Ascii.eqb (toLowerChar c1) "b" then radixLit 2%Z r
      else let '(neg, u) := takeSign t in
           match decimalLiteral neg u with
           | Some (x, EmptyString) => x
           | _ => nan
           end
  | _ => let '(neg, u) := takeSign t in
         match decimalLiteral neg u with
         | Some (x, EmptyString) => x
         | _ => nan
         end
  end.

(** [+a] on a nullable attribute value: [+null] is [0]. *)
Definition toNumberOpt (a : option string) : number :=
  match a with
  | Some s => toNumber s
  | None => zero
  end.

(** Truthiness of a number: neither zero nor [NaN]. *)
Definition truthy (x : number) : bool := negb (is_zero x) && negb (is_nan x).

(** [Math.min] on two arguments. *)
Definition Math_min (a b : number) : number :=
  if is_nan a || is_nan b then nan
  else if (a <? b)%float then a
  else if (b <? a)%float then b
  else if get_sign a then a else b.


(** *** Values that are a number, a string or [undefined]

    A string built by [+] keeps the operands that were concatenated:
    [PNum x] stands for the decimal image of the number [x], which nothing
    in this file inspects. *)

Inductive piece :=
| PLit (s : string)
| PNum (x : number).

Inductive value :=
| VUndefined
| VNum (x : number)
| VStr (ps : list piece).

Definition pieces (v : value) : list piece :=
  match v with
  | VUndefined => [PLit "undefined"]
  | VNum x => [PNum x]
  | VStr ps => ps
  end.

(** [a + b]: concatenation as soon as one side is a string, the sum of the
    operands as numbers otherwise ([undefined] is [NaN]). *)
Definition add (a b : value) : value :=
  match a, b with
  | VStr _, _ | _, VStr _ => VStr (pieces a ++ pieces b)
  | VNum x, VNum y => VNum (x + y)%float
  | _, _ => VNum nan
  end.

Definition pieceNonEmpty (p : piece) : bool :=
  match p with
  | PLit s => nonEmpty s
  | PNum _ => true
  end.

(** [v || 0]. *)
Definition orZero (v : value) : value :=
  match v with
  | VUndefined => VNum zero
  | VNum x => if truthy x then v else VNum zero
  | VStr ps => if existsb pieceNonEmpty ps then v else VNum zero
  end.

(** [s.split(/[\s,]+/)]: the pieces of [s] between maximal runs of white
    space and commas. [cur] is the piece being read and [inDelim] tells that
    the previous character was a delimiter. *)
Definition isDelimiter (c : ascii) : bool := isSpace c || Ascii.eqb c ",".

Fixpoint splitFrom (cur : string) (inDelim : bool) (s : string) : list string :=
  match s with
  | EmptyString => [cur]
  | String c r =>
      if isDelimiter c
      then (if inDelim then splitFrom EmptyString true r
            else cur :: splitFrom EmptyString true r)
      else splitFrom (cur ++ String c EmptyString) false r
  end.

(** [const DILIMITER_REG = /[\s,]+/], through [split]. *)
Definition splitDelimiters (s : string) : list string := splitFrom EmptyString false s.

End JS.

(** ** The document: the part of the DOM that parseSVG.ts reads *)

Module DOM.

(** A node of the parsed markup: [nodeType] is 1 for an element, 3 for
    text, 8 for a comment, 9 for the document and 10 for a doctype. Only
    elements carry attributes; [nodeValue] is the data of a text node. *)
Inductive Node := mkNode {
  nodeType : N;
  nodeName : string;
  attributes : gmap string string;
  nodeValue : string;
  childNodes : list Node
}.

Definition element (name : string) (attrs : list (string * string)) (cs : list Node) : Node :=
  mkNode 1 name (list_to_map attrs) "" cs.
Definition text (data : string) : Node := mkNode 3 "#text" ∅ data [].
Definition comment (data : string) : Node := mkNode 8 "#comment" ∅ data [].
Definition doctype (name : string) : Node := mkNode 10 name ∅ "" [].
Definition document (cs : list Node) : Node := mkNode 9 "#document" ∅ "" cs.

(** [xmlNode.getAttribute(name)], [None] for [null]. *)
Definition getAttribute (n : Node) (name : string) : option string :=
  attributes n !! name.

(** [xmlNode.textContent]: the data of a text node, the text below an
    element (comments and processing instructions left out). *)
Fixpoint textContent (n : Node) : string :=
  match n with
  | mkNode ty _ _ v cs =>
      if (ty =? 1)%N then
        (fix below (l : list Node) : string :=
           match l with
           | [] => ""
           | c :: r =>
               (if (nodeType c =? 7)%N || (nodeType c =? 8)%N then "" else textContent c)
               ++ below r
           end) cs
      else v
  end.

(** What [parseXML] is given: a node together with the siblings that
    follow it ([nextSibling], repeatedly). A document has none. *)
Record Input := mkInput {
  inputNode : Node;
  inputSiblings : list Node
}.

End DOM.

(** ** The scene graph: what parseSVG.ts sets on the external node classes *)

Module Scene.
Import JS DOM.

(** A 2x3 affine matrix of [core/matrix], kept as the primitive calls that
    built it, innermost first. [MAssign] is the six assignments
    [m[0] = a; ...; m[5] = f]. *)
Inductive Matrix :=
| MCreate
| MTranslate (m : Matrix) (vx vy : number)
| MScale (m : Matrix) (vx vy : number)
| MRotate (m : Matrix) (rad : number)
| MAssign (a b c d e f : number).

(** A [LinearGradient] with the colour stops pushed on it. *)
Record LinearGradient := mkLinearGradient {
  gx1 : number; gy1 : number; gx2 : number; gy2 : number;
  colorStops : list (number * string)
}.

(** What a call of an entry of [defineParsers] returns and the registry
    holds: a gradient, or a DOM node itself, which is what the function
    [Object] returns when it is called as a parser. *)
Inductive Def :=
| DefGradient (g : LinearGradient)
| DefNode (n : Node).

Coercion DefGradient : LinearGradient >-> Def.

(** The defs registry, a plain object that starts as [{}]: its own
    properties and its prototype, [None] standing for [Object.prototype]
    and [Some def] for a definition that was assigned to [__proto__]. *)
Record DefsMap := mkDefs {
  defsOwn : gmap string Def;
  defsProto : option Def
}.

#[global] Instance DefsMap_empty : Empty DefsMap := mkDefs ∅ None.

(** [defs[id] = def]. An own property is replaced. Otherwise the name
    [__proto__] is the accessor that [Object.prototype] hands down:
    assigning an object to it replaces the prototype and adds no property;
    under any other name the assignment adds an own property (an object
    stored as the prototype is taken to hold, like [Object.prototype],
    nothing that refuses an assignment). *)
Definition assign (id : string) (def : Def) (defs : DefsMap) : DefsMap :=
  match defsOwn defs !! id with
  | None =>
      if String.eqb id "__proto__" then mkDefs (defsOwn defs) (Some def)
      else mkDefs (<[id := def]> (defsOwn defs)) (defsProto defs)
  | Some _ => mkDefs (<[id := def]> (defsOwn defs)) (defsProto defs)
  end.

#[global] Instance DefsMap_insert : Insert string Def DefsMap := assign.
#[global] Instance DefsMap_insert_gradient : Insert string LinearGradient DefsMap :=
  fun id g => assign id (DefGradient g).

(** The names of the properties of [Object.prototype]. *)
Definition objectPrototypeNames : list string :=
  ["constructor"; "__defineGetter__"; "__defineSetter__"; "hasOwnProperty";
   "__lookupGetter__"; "__lookupSetter__"; "isPrototypeOf"; "propertyIsEnumerable";
   "toString"; "valueOf"; "__proto__"; "toLocaleString"].

Definition isObjectPrototypeName (key : string) : bool :=
  existsb (String.eqb key) objectPrototypeNames.

(** What [getPaint] returns: the string itself, a definition held by the
    registry, a member of [Object.prototype] (a function, or under
    [__proto__] the object [Object.prototype] itself), the property that a
    definition stored as the prototype of the registry has under a name
    (which nothing in this file tells), or [undefined]. *)
Inductive Paint :=
| PaintStr (s : string)
| PaintDef (d : Def)
| PaintObjectMember (key : string)
| PaintMember (d : Def) (key : string)
| PaintUndefined.

(** [defs[url]]: an own property, else what the prototype chain gives. The
    accessor [__proto__] reads as the prototype itself. *)
Definition readDef (defs : DefsMap) (url : string) : Paint :=
  match defsOwn defs !! url with
  | Some def => PaintDef def
  | None =>
      match defsProto defs with
      | None => if isObjectPrototypeName url then PaintObjectMember url else PaintUndefined
      | Some proto =>
          if String.eqb url "__proto__" then PaintDef proto else PaintMember proto url
      end
  end.

(** A value stored in a [Style] object. *)
Inductive StyleValue :=
| SPaint (p : Paint)
| SNum (x : number)
| SStr (s : string)
| SNull
| STrue
| SNumList (l : list number).

Inductive ElType :=
| TGroup | TRect | TCircle | TLine | TEllipse | TPolygon | TPolyline | TImage | TText | TPath
| TDomNode.

Inductive Shape :=
| NoShape
| RectShape (x y width height : number)
| CircleShape (cx cy r : number)
| LineShape (x1 y1 x2 y2 : number)
| EllipseShape (cx cy rx ry : number)
| PointsShape (points : list (number * number))
| PathShape (d : string)
| DomShape (n : Node).

(** The position or the scale of a node: as the constructor left it, as
    [setLocalTransform] derived it from a matrix, as parseSVG.ts assigned
    it, or one of these multiplied by a pair of factors. *)
Inductive Placed (A : Type) :=
| Initial
| FromMatrix (m : Matrix)
| Given (a : A)
| Times (p : Placed A) (f : number * number).
Arguments Initial {A}.
Arguments FromMatrix {A} m.
Arguments Given {A} a.
Arguments Times {A} p f.

(** An ad-hoc property set to [true] on a node: always, or when the
    property of a definition that was read through the prototype of the
    registry is truthy and not ['none']. *)
Inductive Mark :=
| Marked
| MarkedIf (d : Def) (key : string).

(** A scene node. [style] holds the properties set on the node's [Style]
    (a property never set reads as the default of the class);
    [transform] is the argument of the last [setLocalTransform] ([Some None]
    when that was [null]); [flags] lists the ad-hoc properties set to
    [true] on the node itself. A DOM node that was added to a group in the
    place of a scene node is the node [nodeAsEl n], on which nothing is
    set. *)
Inductive El := mkEl {
  type : ElType;
  shape : Shape;
  style : gmap string StyleValue;
  __inheritedStyle : option (gmap string string);
  transform : option (option Matrix);
  position : Placed (value * value);
  scale : Placed (number * number);
  flags : list (string * Mark);
  clipPath : option El;
  children : list El
}.

Definition newEl (t : ElType) (sh : Shape) : El :=
  mkEl t sh ∅ None None Initial Initial [] None [].

Definition nodeAsEl (n : Node) : El := newEl TDomNode (DomShape n).

Definition setStyle (e : El) (st : gmap string StyleValue) : El :=
  mkEl (type e) (shape e) st (__inheritedStyle e) (transform e) (position e) (scale e)
       (flags e) (clipPath e) (children e).
Definition setInherited (e : El) (z : option (gmap string string)) : El :=
  mkEl (type e) (shape e) (style e) z (transform e) (position e) (scale e)
       (flags e) (clipPath e) (children e).

(** [setLocalTransform] belongs to the node classes, which are not under
    src/: it replaces the position, the scale and the rotation of the node
    by those of the matrix, and returns at once when it is given [null].
    The rotation, which parseSVG.ts neither reads nor assigns, is not kept
    apart from [transform]. *)
Definition setLocalTransform (e : El) (m : option Matrix) : El :=
  match m with
  | Some m =>
      mkEl (type e) (shape e) (style e) (__inheritedStyle e) (Some (Some m))
           (FromMatrix m) (FromMatrix m) (flags e) (clipPath e) (children e)
  | None =>
      mkEl (type e) (shape e) (style e) (__inheritedStyle e) (Some None)
           (position e) (scale e) (flags e) (clipPath e) (children e)
  end.
Definition setShape (e : El) (sh : Shape) : El :=
  mkEl (type e) sh (style e) (__inheritedStyle e) (transform e) (position e) (scale e)
       (flags e) (clipPath e) (children e).
Definition setPosition (e : El) (p : value * value) : El :=
  mkEl (type e) (shape e) (style e) (__inheritedStyle e) (transform e) (Given p) (scale e)
       (flags e) (clipPath e) (children e).
Definition setScale (e : El) (sc : number * number) : El :=
  mkEl (type e) (shape e) (style e) (__inheritedStyle e) (transform e) (position e) (Given sc)
       (flags e) (clipPath e) (children e).
Definition setFlag (e : El) (name : string) (m : Mark) : El :=
  mkEl (type e) (shape e) (style e) (__inheritedStyle e) (transform e) (position e) (scale e)
       ((name, m) :: flags e) (clipPath e) (children e).
Definition setClipPath (e : El) (c : El) : El :=
  mkEl (type e) (shape e) (style e) (__inheritedStyle e) (transform e) (position e) (scale e)
       (flags e) (Some c) (children e).
Definition pushChild (e : El) (c : El) : El :=
  mkEl (type e) (shape e) (style e) (__inheritedStyle e) (transform e) (position e) (scale e)
       (flags e) (clipPath e) (children e ++ [c]).

Definition isGroup (e : El) : bool :=
  match type e with TGroup => true | _ => false end.
Definition isTextEl (e : El) : bool :=
  match type e with TText => true | _ => false end.

(** The stroke a node reads from its style before one is set. The node
    classes are not under src/: a [Line] and a [Polyline] are created with
    a style of their own whose stroke is ['#000']; the style of any other
    node reads the [null] of [Style.prototype]. *)
Definition classStroke (t : ElType) : StyleValue :=
  match t with
  | TLine | TPolyline => SStr "#000"
  | _ => SNull
  end.

(** [v && v !== 'none'] on a style value, as the mark it decides. *)
Definition valueMark (v : StyleValue) : option Mark :=
  match v with
  | SPaint (PaintStr s) | SStr s =>
      if nonEmpty s && negb (String.eqb s "none") then Some Marked else None
  | SPaint (PaintDef _) | SPaint (PaintObjectMember _) | STrue | SNumList _ => Some Marked
  | SPaint (PaintMember d key) => Some (MarkedIf d key)
  | SPaint PaintUndefined | SNull => None
  | SNum x => if truthy x then Some Marked else None
  end.

(** [scale[0] *= f; scale[1] *= f] on a scale that reads as [1, 1] until it
    is set. *)
Definition stretch (sc : Placed (number * number)) (f : number) : Placed (number * number) :=
  match sc with
  | Initial => Given (1 * f, 1 * f)%float
  | Given (x, y) => Given (x * f, y * f)%float
  | _ => Times sc (f, f)
  end.

Definition stretchScale (e : El) (f : number) : El :=
  mkEl (type e) (shape e) (style e) (__inheritedStyle e) (transform e) (position e)
       (stretch (scale e) f) (flags e) (clipPath e) (children e).

End Scene.

(** ** The three regular expressions of parseSVG.ts

    Each is embedded as the matcher it denotes. In all three a greedy run is
    followed by a character outside the run's class, so backtracking never
    finds a match that the first attempt missed; the one exception, the
    white space before a style value, is written out in [matchStyleAt]. *)

Module Regex.
Import JS.

(** The longest prefix of [s] whose characters satisfy [p], and the rest. *)
Fixpoint span (p : ascii -> bool) (s : string) : string * string :=
  match s with
  | String c r => if p c then let '(a, b) := span p r in (String c a, b) else (EmptyString, s)
  | EmptyString => (EmptyString, EmptyString)
  end.

Fixpoint dropChars (n : nat) (s : string) : string :=
  match n, s with
  | S k, String _ r => dropChars k r
  | _, _ => s
  end.

Fixpoint lastChar (s : string) : string :=
  match s with
  | EmptyString => EmptyString
  | String c EmptyString => s
  | String _ r => lastChar r
  end.

(** [s] after the literal [lit], when [s] starts with it. *)
Fixpoint afterLiteral (lit s : string) : option string :=
  match lit, s with
  | EmptyString, _ => Some s
  | String a l, String b r => if Ascii.eqb a b then afterLiteral l r else None
  | String _ _, EmptyString => None
  end.

(** All the matches of a global regular expression, left to right and
    without overlap: [matchAt] gives the match that starts at the head of
    the string with its length; [skip] counts the characters of the last
    match still to be passed over. *)
Section Scan.
Context {A : Type} (matchAt : string -> option (A * nat)).

Fixpoint scan (skip : nat) (s : string) : list A :=
  match s with
  | EmptyString => []
  | String _ r =>
      match skip with
      | S k => scan k r
      | O =>
          match matchAt s with
          | Some (a, len) => a :: scan (len - 1) r
          | None => scan 0 r
          end
      end
  end.
End Scan.

(** *** transformRegex (global): one of six function names, an opening
    parenthesis, a greedy run of characters among minus, white space,
    digits, dot, e and comma, and a closing parenthesis *)

Definition transformNames : list string :=
  ["translate"; "scale"; "rotate"; "skewX"; "skewY"; "matrix"].

Definition isTransformArg (c : ascii) : bool :=
  Ascii.eqb c "-" || isSpace c || isDigit c || Ascii.eqb c "." || Ascii.eqb c "e"
  || Ascii.eqb c ",".

(** The match of one alternative at the head of [s]. *)
Definition matchTransformName (name s : string) : option ((string * string) * nat) :=
  match afterLiteral name s with
  | Some r =>
      match r with
      | String c r1 =>
          if Ascii.eqb c "(" then
            let '(v, r2) := span isTransformArg r1 in
            match r2 with
            | String d _ =>
                if Ascii.eqb d ")"
                then Some ((name, v), String.length name + 1 + String.length v + 1)
                else None
            | EmptyString => None
            end
          else None
      | EmptyString => None
      end
  | None => None
  end.

Fixpoint firstMatch (names : list string) (s : string) : option ((string * string) * nat) :=
  match names with
  | [] => None
  | n :: ns =>
      match matchTransformName n s with
      | Some m => Some m
      | None => firstMatch ns s
      end
  end.

Definition matchTransformAt (s : string) : option ((string * string) * nat) :=
  firstMatch transformNames s.

(** The [(type, value)] pairs the callback of [transform.replace] is given,
    in source order. *)
Definition transformMatches (s : string) : list (string * string) :=
  scan matchTransformAt 0 s.

(** *** styleRegex (global): a key of one or more characters other than
    white space, colon and semicolon; white space; a colon; white space; a
    value of one or more characters other than colon and semicolon *)

Definition isStyleKey (c : ascii) : bool :=
  negb (isSpace c || Ascii.eqb c ":" || Ascii.eqb c ";").

Definition isStyleValue (c : ascii) : bool :=
  negb (Ascii.eqb c ":" || Ascii.eqb c ";").

(** After the colon the greedy white-space run takes all the white space; when no
    value character is left it gives its last character back to the value
    group, which cannot be empty. *)
Definition matchStyleAt (s : string) : option ((string * string) * nat) :=
  let '(key, r1) := span isStyleKey s in
  if nonEmpty key then
    let '(ws1, r2) := span isSpace r1 in
    match r2 with
    | String c r3 =>
        if Ascii.eqb c ":" then
          let '(run, _) := span isStyleValue r3 in
          let '(ws2, v) := span isSpace run in
          let len := String.length key + String.length ws1 + 1 + String.length run in
          if nonEmpty v then Some ((key, v), len)
          else if nonEmpty ws2 then Some ((key, lastChar ws2), len)
          else None
        else None
    | EmptyString => None
    end
  else None.

(** The successive results of [styleRegex.exec(style)] from [lastIndex]
    until it returns [null]. *)
Definition styleMatches (lastIndex : nat) (style : string) : list (string * string) :=
  if (String.length style <? lastIndex)%nat then []
  else scan matchStyleAt 0 (dropChars lastIndex style).

(** *** urlRegex: the literal url and an opening parenthesis, white
    space, a hash sign, a lazy group of any characters but line terminators,
    and a closing parenthesis *)

(** The lazy group and the parenthesis after it: what stands before the first [")"], provided no
    line terminator comes first. *)
Fixpoint untilParen (s : string) : option string :=
  match s with
  | EmptyString => None
  | String c r =>
      if Ascii.eqb c ")" then Some EmptyString
      else if isLineTerminator c then None
      else option_map (String c) (untilParen r)
  end.

Definition matchUrlAt (s : string) : option string :=
  match afterLiteral "url(" s with
  | Some r =>
      match snd (span isSpace r) with
      | String c r1 => if Ascii.eqb c "#" then untilParen r1 else None
      | EmptyString => None
      end
  | None => None
  end.

(** [str.match(urlRegex)]: the first group of the leftmost match. *)
Fixpoint urlMatch (s : string) : option string :=
  match matchUrlAt s with
  | Some cap => Some cap
  | None =>
      match s with
      | EmptyString => None
      | String _ r => urlMatch r
      end
  end.

End Regex.

(** ** parseSVG.ts *)

Module ParseSVG.
Import JS DOM Scene Regex.

(** *** State and exceptions *)

(** What the code throws: the [TypeError] of a property read on [null] or
    [undefined] or of a call of something that is no function, and
    [new Error(message)]. *)
Inductive Exn :=
| TypeError
| Error (message : string).

(** The fields of a parser instance. ([_root] is written once and never
    read.) *)
Record SVGParser := mkParser {
  _defs : DefsMap;
  _isDefine : bool;
  _isText : bool;
  _textX : value;
  _textY : value
}.

(** [new SVGParser()]: the field initialisers of the class; the text cursor
    has none. *)
Definition newSVGParser : SVGParser := mkParser ∅ false false VUndefined VUndefined.

(** What outlives a call: the console, and the [lastIndex] of the
    module-level [styleRegex]. *)
Record Globals := mkGlobals {
  console : list string;
  styleRegex_lastIndex : nat
}.

Record State := mkState {
  this : SVGParser;
  globals : Globals
}.

Inductive Res (A : Type) :=
| Ok (a : A) (s : State)
| Throw (e : Exn) (s : State).
Arguments Ok {A} a s.
Arguments Throw {A} e s.

Definition M (A : Type) : Type := State -> Res A.

Definition ret {A} (a : A) : M A := fun s => Ok a s.
Definition bind {A B} (m : M A) (f : A -> M B) : M B :=
  fun s => match m s with
           | Ok a s' => f a s'
           | Throw e s' => Throw e s'
           end.
Definition throw {A} (e : Exn) : M A := fun s => Throw e s.

Notation "x <- m ;; k" := (bind m (fun x => k))
  (at level 100, m at next level, right associativity).
Notation "m ;; k" := (bind m (fun _ => k))
  (at level 100, right associativity).

Definition getThis : M SVGParser := fun s => Ok (this s) s.
Definition setThis (f : SVGParser -> SVGParser) : M unit :=
  fun s => Ok tt (mkState (f (this s)) (globals s)).

Definition with_defs (d : DefsMap) (p : SVGParser) : SVGParser :=
  mkParser d (_isDefine p) (_isText p) (_textX p) (_textY p).
Definition with_isDefine (b : bool) (p : SVGParser) : SVGParser :=
  mkParser (_defs p) b (_isText p) (_textX p) (_textY p).
Definition with_isText (b : bool) (p : SVGParser) : SVGParser :=
  mkParser (_defs p) (_isDefine p) b (_textX p) (_textY p).
Definition with_textX (v : value) (p : SVGParser) : SVGParser :=
  mkParser (_defs p) (_isDefine p) (_isText p) v (_textY p).
Definition with_textY (v : value) (p : SVGParser) : SVGParser :=
  mkParser (_defs p) (_isDefine p) (_isText p) (_textX p) v.

(** [console.warn(msg)]. *)
Definition warn (msg : string) : M unit :=
  fun s => Ok tt (mkState (this s)
                    (mkGlobals (console (globals s) ++ [msg]) (styleRegex_lastIndex (globals s)))).

Definition getLastIndex : M nat := fun s => Ok (styleRegex_lastIndex (globals s)) s.
Definition setLastIndex (n : nat) : M unit :=
  fun s => Ok tt (mkState (this s) (mkGlobals (console (globals s)) n)).

(** A call of [xmlNode.getAttribute]: only elements have that method. *)
Definition requireElement (n : Node) : M unit :=
  if (nodeType n =? 1)%N then ret tt else throw TypeError.

(** *** [util.extend] and [util.defaults] on dictionaries of strings *)

Definition extend (target source : gmap string string) : gmap string string :=
  source ∪ target.
Definition defaults (target source : gmap string string) : gmap string string :=
  target ∪ source.

(** *** [parsePoints] *)

(** The loop [for (i = 0; i < list.length; i += 2)]: [list[i + 1]] is
    [undefined] past the end. *)
Fixpoint pointsOf (tokens : list string) : list (number * number) :=
  match tokens with
  | [] => []
  | [x] => [(parseFloat x, parseFloatOpt None)]
  | x :: y :: r => (parseFloat x, parseFloat y) :: pointsOf r
  end.

Definition parsePoints (pointsString : string) : list (number * number) :=
  pointsOf (splitDelimiters (trim pointsString)).

(** *** [attributesMap], in the order [for ... in] visits it *)

Definition attributesMap : list (string * string) :=
  [ ("fill", "fill");
    ("stroke", "stroke");
    ("stroke-width", "lineWidth");
    ("opacity", "opacity");
    ("fill-opacity", "fillOpacity");
    ("stroke-opacity", "strokeOpacity");
    ("stroke-dasharray", "lineDash");
    ("stroke-dashoffset", "lineDashOffset");
    ("stroke-linecap", "lineCap");
    ("stroke-linejoin", "lineJoin");
    ("stroke-miterlimit", "miterLimit");
    ("font-family", "fontFamily");
    ("font-size", "fontSize");
    ("font-style", "fontStyle");
    ("font-weight", "fontWeight");
    ("text-align", "textAlign");
    ("alignment-baseline", "textBaseline") ].

(** *** [getPaint] *)

Definition getPaint (str : string) (defs : option DefsMap) : Paint :=
  match defs with
  | Some defs =>
      if nonEmpty str then
        match urlMatch str with
        | Some group1 =>
            let url := trim group1 in
            readDef defs url
        | None => PaintStr str
        end
      else PaintStr str
  | None => PaintStr str
  end.

(** *** [parseTransformAttribute] *)

(** One turn of the replay loop on the matrix [m]: the [switch] on [type].
    [value[k]] is a character of the string [value] ([valueArr] is computed
    in every case and used in none). *)
Definition transformStep (type value : string) (m : Matrix) : M Matrix :=
  let at_ (k : nat) := parseFloatOpt (charAt value k) in
  if String.eqb type "translate" then
    ret (MTranslate m (at_ 0) (parseFloat (orElse (charAt value 1) "0")))
  else if String.eqb type "scale" then
    ret (MScale m (at_ 0)
           (parseFloatOpt (match charAt value 1 with Some c => Some c | None => charAt value 0 end)))
  else if String.eqb type "rotate" then
    ret (MRotate m (at_ 0))
  else if String.eqb type "skew" then
    warn "Skew transform is not supported yet" ;; ret m
  else if String.eqb type "matrix" then
    ret (MAssign (at_ 0) (at_ 1) (at_ 2) (at_ 3) (at_ 4) (at_ 5))
  else ret m.

(** The loop [for (i = transformOps.length - 1; i > 0; i -= 2)], given the
    [(type, value)] pairs last first. [m = m || matrix.create()] opens every
    turn. *)
Fixpoint replay (ops : list (string * string)) (m : option Matrix) : M (option Matrix) :=
  match ops with
  | [] => ret m
  | (type, value) :: r =>
      m' <- transformStep type value (match m with Some m => m | None => MCreate end) ;;
      replay r (Some m')
  end.

Definition parseTransformAttribute (xmlNode : Node) (node : El) : M El :=
  match getAttribute xmlNode "transform" with
  | Some transform =>
      if nonEmpty transform then
        let transform := replaceCommas transform in
        let transformOps := transformMatches transform in
        m <- replay (rev transformOps) None ;;
        ret (setLocalTransform node m)
      else ret node
  | None => ret node
  end.

(** *** [parseStyleAttribute] *)

(** [styleList]: every declaration found, a later one replacing an earlier
    one of the same name. *)
Definition styleListOf (decls : list (string * string)) : gmap string string :=
  fold_left (fun (m : gmap string string) kv => <[kv.1 := kv.2]> m) decls ∅.

(** The loop over [attributesMap] that keeps the known properties, under
    their scene names. *)
Definition knownStyles (styleList : gmap string string) : gmap string string :=
  fold_left (fun (result : gmap string string) kv =>
               match styleList !! kv.1 with
               | Some v => <[kv.2 := v]> result
               | None => result
               end) attributesMap ∅.

Definition parseStyleAttribute (xmlNode : Node) : M (gmap string string) :=
  match getAttribute xmlNode "style" with
  | Some style =>
      if nonEmpty style then
        setLastIndex 0 ;;
        lastIndex <- getLastIndex ;;
        let styleList := styleListOf (styleMatches lastIndex style) in
        (* the [exec] that returns [null] leaves [lastIndex] at 0 *)
        setLastIndex 0 ;;
        ret (knownStyles styleList)
      else ret ∅
  | None => ret ∅
  end.

(** *** [inheritStyle] *)

Definition inheritStyle (parent : option El) (child : El) : El :=
  match parent with
  | Some parent =>
      match __inheritedStyle parent with
      | Some parentStyle =>
          setInherited child
            (Some (defaults (default ∅ (__inheritedStyle child)) parentStyle))
      | None => child
      end
  | None => child
  end.

(** *** [parseAttributes] *)

(** The loop over [attributesMap] that copies the presentation attributes
    of the element into [zrStyle]. *)
Definition readAttributes (xmlNode : Node) (zrStyle : gmap string string)
  : gmap string string :=
  fold_left (fun (z : gmap string string) kv =>
               match getAttribute xmlNode kv.1 with
               | Some attrValue => <[kv.2 := attrValue]> z
               | None => z
               end) attributesMap zrStyle.

(** [zrStyle[key] != null && elStyle.set(elKey, f(zrStyle[key]))]. *)
Definition setFrom (zrStyle : gmap string string) (key elKey : string)
    (f : string -> StyleValue) (elStyle : gmap string StyleValue) : gmap string StyleValue :=
  match zrStyle !! key with
  | Some v => <[elKey := f v]> elStyle
  | None => elStyle
  end.

Definition elFillProp (isTextEl : bool) : string := if isTextEl then "textFill" else "fill".
Definition elStrokeProp (isTextEl : bool) : string := if isTextEl then "textStroke" else "stroke".

Definition setPaints (isTextEl : bool) (defs : option DefsMap) (zrStyle : gmap string string)
    (elStyle : gmap string StyleValue) : gmap string StyleValue :=
  setFrom zrStyle "stroke" (elStrokeProp isTextEl) (fun v => SPaint (getPaint v defs))
    (setFrom zrStyle "fill" (elFillProp isTextEl) (fun v => SPaint (getPaint v defs)) elStyle).

Definition numberProps : list string :=
  ["lineWidth"; "opacity"; "fillOpacity"; "strokeOpacity"; "miterLimit"; "fontSize"].

Definition setNumbers (isTextEl : bool) (zrStyle : gmap string string)
    (elStyle : gmap string StyleValue) : gmap string StyleValue :=
  fold_left (fun st propName =>
               let elPropName :=
                 if String.eqb propName "lineWidth" && isTextEl then "textStrokeWidth"
                 else propName in
               setFrom zrStyle propName elPropName (fun v => SNum (parseFloat v)) st)
            numberProps elStyle.

(** The four [if]s that rewrite [textBaseline] and [textAlign] in
    [zrStyle] itself. *)
Definition normalizeText (zrStyle : gmap string string) : gmap string string :=
  let z1 :=
    match zrStyle !! "textBaseline" with
    | Some v =>
        if negb (nonEmpty v) || String.eqb v "auto"
        then <["textBaseline" := "alphabetic"]> zrStyle else zrStyle
    | None => <["textBaseline" := "alphabetic"]> zrStyle
    end in
  let z2 :=
    match z1 !! "textBaseline" with
    | Some v => if String.eqb v "alphabetic" then <["textBaseline" := "bottom"]> z1 else z1
    | None => z1
    end in
  let z3 :=
    match z2 !! "textAlign" with
    | Some v => if String.eqb v "start" then <["textAlign" := "left"]> z2 else z2
    | None => z2
    end in
  match z3 !! "textAlign" with
  | Some v => if String.eqb v "end" then <["textAlign" := "right"]> z3 else z3
  | None => z3
  end.

Definition stringProps : list string :=
  ["lineDashOffset"; "lineCap"; "lineJoin"; "fontWeight"; "fontFamily"; "fontStyle";
   "textAlign"; "textBaseline"].

Definition setStrings (zrStyle : gmap string string) (elStyle : gmap string StyleValue)
  : gmap string StyleValue :=
  fold_left (fun st propName => setFrom zrStyle propName propName SStr st) stringProps elStyle.

Definition setLineDash (zrStyle : gmap string string) (elStyle : gmap string StyleValue)
  : gmap string StyleValue :=
  match zrStyle !! "lineDash" with
  | Some v =>
      if nonEmpty v
      then <["lineDash" := SNumList (map parseFloat (splitDelimiters (trim v)))]> elStyle
      else elStyle
  | None => elStyle
  end.

(** [elStyle[elStrokeProp] && elStyle[elStrokeProp] !== 'none']; a stroke
    never set reads as the default of the class, a text stroke never set as
    the [null] of [Style.prototype]. *)
Definition hasStroke (isTextEl : bool) (t : ElType) (elStyle : gmap string StyleValue)
  : option Mark :=
  match elStyle !! elStrokeProp isTextEl with
  | Some v => valueMark v
  | None => valueMark (if isTextEl then SNull else classStroke t)
  end.

(** The second half of [parseAttributes], from [elFillProp] on: [zrStyle]
    is written to the style of the node and stored as its inherited style. *)
Definition applyStyle (isTextEl : bool) (defs : option DefsMap) (el : El)
    (zrStyle : gmap string string) : El :=
  let elStyle := setNumbers isTextEl zrStyle (setPaints isTextEl defs zrStyle (style el)) in
  let zrStyle := normalizeText zrStyle in
  let elStyle := setLineDash zrStyle (setStrings zrStyle elStyle) in
  let el := setStyle el elStyle in
  let el := match hasStroke isTextEl (type el) elStyle with
            | Some m => setFlag el (elStrokeProp isTextEl) m
            | None => el
            end in
  setInherited el (Some zrStyle).

Definition parseAttributes (xmlNode : Node) (el : El) (defs : option DefsMap)
    (onlyInlineStyle : bool) : M El :=
  let zrStyle := default ∅ (__inheritedStyle el) in
  let isTextEl := isTextEl el in
  r <- (if (nodeType xmlNode =? 1)%N then
          el <- parseTransformAttribute xmlNode el ;;
          inlineStyle <- parseStyleAttribute xmlNode ;;
          let zrStyle := extend zrStyle inlineStyle in
          ret (el, if onlyInlineStyle then zrStyle else readAttributes xmlNode zrStyle)
        else ret (el, zrStyle)) ;;
  ret (applyStyle isTextEl defs r.1 r.2).

(** *** [defineParsers] and [_parseGradientColorStops] *)

(** The [while (stop)] loop over the children of the gradient. Reading
    [offsetStr.indexOf] when the attribute is absent is a read on [null]. *)
Fixpoint colorStopsFrom (stops : list Node) (colorStops : list (number * string))
  : M (list (number * string)) :=
  match stops with
  | [] => ret colorStops
  | stop :: r =>
      if (nodeType stop =? 1)%N then
        match getAttribute stop "offset" with
        | None => throw TypeError
        | Some offsetStr =>
            let offset :=
              match indexOf "%" offsetStr with
              | Some (S _) => (parseInt offsetStr / 100)%float
              | _ => if nonEmpty offsetStr then parseFloat offsetStr else zero
              end in
            let stopColor := orElse (getAttribute stop "stop-color") "#000000" in
            colorStopsFrom r (colorStops ++ [(offset, stopColor)])
        end
      else colorStopsFrom r colorStops
  end.

Definition _parseGradientColorStops (xmlNode : Node) (gradient : LinearGradient)
  : M LinearGradient :=
  stops <- colorStopsFrom (childNodes xmlNode) (colorStops gradient) ;;
  ret (mkLinearGradient (gx1 gradient) (gy1 gradient) (gx2 gradient) (gy2 gradient) stops).

Definition parse_lineargradient (xmlNode : Node) : M LinearGradient :=
  requireElement xmlNode ;;
  let x1 := parseInt (orElse (getAttribute xmlNode "x1") "0") in
  let y1 := parseInt (orElse (getAttribute xmlNode "y1") "0") in
  let x2 := parseInt (orElse (getAttribute xmlNode "x2") "10") in
  let y2 := parseInt (orElse (getAttribute xmlNode "y2") "0") in
  _parseGradientColorStops xmlNode (mkLinearGradient x1 y1 x2 y2 []).

Definition defineParsers (nodeName : string) : option (Node -> M LinearGradient) :=
  if String.eqb nodeName "lineargradient" then Some parse_lineargradient else None.

(** *** [nodeParsers] *)

(** [parentGroup.add]: only a group has that method. *)
Definition requireGroup (parentGroup : option El) : M El :=
  match parentGroup with
  | Some g => if isGroup g then ret g else throw TypeError
  | None => throw TypeError
  end.

(** The two lines every builder runs on its new node:
    [inheritStyle(parentGroup, el); parseAttributes(xmlNode, el, this._defs)]. *)
Definition inheritAndParse (xmlNode : Node) (parentGroup : option El) (el : El) : M El :=
  p <- getThis ;;
  parseAttributes xmlNode (inheritStyle parentGroup el) (Some (_defs p)) false.

(** [parseFloat(xmlNode.getAttribute(name) || dflt)]. *)
Definition floatAttr (xmlNode : Node) (name dflt : string) : number :=
  parseFloat (orElse (getAttribute xmlNode name) dflt).

Definition parse_g (xmlNode : Node) (parentGroup : option El) : M El :=
  inheritAndParse xmlNode parentGroup (newEl TGroup NoShape).

Definition parse_rect (xmlNode : Node) (parentGroup : option El) : M El :=
  rect <- inheritAndParse xmlNode parentGroup (newEl TRect (RectShape zero zero zero zero)) ;;
  requireElement xmlNode ;;
  ret (setShape rect (RectShape (floatAttr xmlNode "x" "0") (floatAttr xmlNode "y" "0")
                        (floatAttr xmlNode "width" "0") (floatAttr xmlNode "height" "0"))).

Definition parse_circle (xmlNode : Node) (parentGroup : option El) : M El :=
  circle <- inheritAndParse xmlNode parentGroup (newEl TCircle (CircleShape zero zero zero)) ;;
  requireElement xmlNode ;;
  ret (setShape circle (CircleShape (floatAttr xmlNode "cx" "0") (floatAttr xmlNode "cy" "0")
                          (floatAttr xmlNode "r" "0"))).

Definition parse_line (xmlNode : Node) (parentGroup : option El) : M El :=
  line <- inheritAndParse xmlNode parentGroup (newEl TLine (LineShape zero zero zero zero)) ;;
  requireElement xmlNode ;;
  ret (setShape line (LineShape (floatAttr xmlNode "x1" "0") (floatAttr xmlNode "y1" "0")
                        (floatAttr xmlNode "x2" "0") (floatAttr xmlNode "y2" "0"))).

Definition parse_ellipse (xmlNode : Node) (parentGroup : option El) : M El :=
  ellipse <- inheritAndParse xmlNode parentGroup (newEl TEllipse (EllipseShape zero zero zero zero)) ;;
  requireElement xmlNode ;;
  ret (setShape ellipse (EllipseShape (floatAttr xmlNode "cx" "0") (floatAttr xmlNode "cy" "0")
                           (floatAttr xmlNode "rx" "0") (floatAttr xmlNode "ry" "0"))).

(** [pointsStr ? parsePoints(pointsStr) : undefined], then [pointsArr || []]. *)
Definition pointsAttr (xmlNode : Node) : list (number * number) :=
  match getAttribute xmlNode "points" with
  | Some pointsStr => if nonEmpty pointsStr then parsePoints pointsStr else []
  | None => []
  end.

Definition parse_polygon (xmlNode : Node) (parentGroup : option El) : M El :=
  requireElement xmlNode ;;
  inheritAndParse xmlNode parentGroup (newEl TPolygon (PointsShape (pointsAttr xmlNode))).

(** The style is resolved on a [Path] that is dropped; the [Polyline] that
    is returned is a second, plain node. *)
Definition parse_polyline (xmlNode : Node) (parentGroup : option El) : M El :=
  inheritAndParse xmlNode parentGroup (newEl TPath (PathShape "")) ;;
  requireElement xmlNode ;;
  ret (newEl TPolyline (PointsShape (pointsAttr xmlNode))).

Definition parse_image (xmlNode : Node) (parentGroup : option El) : M El :=
  img <- inheritAndParse xmlNode parentGroup (newEl TImage NoShape) ;;
  requireElement xmlNode ;;
  let image := match getAttribute xmlNode "xlink:href" with
               | Some href => SStr href
               | None => SNull
               end in
  ret (setStyle img
         (<["height" := SNum (toNumberOpt (getAttribute xmlNode "height"))]>
          (<["width" := SNum (toNumberOpt (getAttribute xmlNode "width"))]>
           (<["y" := SNum (toNumberOpt (getAttribute xmlNode "y"))]>
            (<["x" := SNum (toNumberOpt (getAttribute xmlNode "x"))]>
             (<["image" := image]> (style img))))))).

Definition parse_text (xmlNode : Node) (parentGroup : option El) : M El :=
  requireElement xmlNode ;;
  let x := floatAttr xmlNode "x" "0" in
  let y := floatAttr xmlNode "y" "0" in
  let dx := floatAttr xmlNode "dx" "0" in
  let dy := floatAttr xmlNode "dy" "0" in
  setThis (with_textX (VNum (x + dx)%float)) ;;
  setThis (with_textY (VNum (y + dy)%float)) ;;
  inheritAndParse xmlNode parentGroup (newEl TGroup NoShape).

(** [xmlNode.getAttribute(name) || 0], as the operand of [+=]. *)
Definition offsetAttr (xmlNode : Node) (name : string) : value :=
  match getAttribute xmlNode name with
  | Some s => if nonEmpty s then VStr [PLit s] else VNum zero
  | None => VNum zero
  end.

Definition parse_tspan (xmlNode : Node) (parentGroup : option El) : M El :=
  requireElement xmlNode ;;
  match getAttribute xmlNode "x" with
  | Some x => setThis (with_textX (VNum (parseFloat x)))
  | None => ret tt
  end ;;
  match getAttribute xmlNode "y" with
  | Some y => setThis (with_textY (VNum (parseFloat y)))
  | None => ret tt
  end ;;
  let dx := offsetAttr xmlNode "dx" in
  let dy := offsetAttr xmlNode "dy" in
  g <- inheritAndParse xmlNode parentGroup (newEl TGroup NoShape) ;;
  setThis (fun p => with_textX (add (_textX p) dx) p) ;;
  setThis (fun p => with_textY (add (_textY p) dy) p) ;;
  ret g.

(** [createFromString(d)] hands the path data to the external path parser;
    the node keeps the string. *)
Definition parse_path (xmlNode : Node) (parentGroup : option El) : M El :=
  requireElement xmlNode ;;
  let d := orElse (getAttribute xmlNode "d") "" in
  inheritAndParse xmlNode parentGroup (newEl TPath (PathShape d)).

Definition nodeParsers (nodeName : string) : option (Node -> option El -> M El) :=
  if String.eqb nodeName "g" then Some parse_g
  else if String.eqb nodeName "rect" then Some parse_rect
  else if String.eqb nodeName "circle" then Some parse_circle
  else if String.eqb nodeName "line" then Some parse_line
  else if String.eqb nodeName "ellipse" then Some parse_ellipse
  else if String.eqb nodeName "polygon" then Some parse_polygon
  else if String.eqb nodeName "polyline" then Some parse_polyline
  else if String.eqb nodeName "image" then Some parse_image
  else if String.eqb nodeName "text" then Some parse_text
  else if String.eqb nodeName "tspan" then Some parse_tspan
  else if String.eqb nodeName "path" then Some parse_path
  else None.

(** *** Reading the two tables of parsers

    [nodeParsers] and [defineParsers] above give the own properties of the
    two object literals. [_parseNode] reads them as [table[nodeName]] with a
    name in lower case: besides the own properties, such a read finds the
    two members of [Object.prototype] whose names have no upper-case
    letter, [constructor], which is the function [Object], and
    [__proto__], which is the object [Object.prototype]. Both are
    truthy. *)

Inductive Entry (A : Type) :=
| Own (parser : A)
| ObjectFunction
| ObjectPrototype
| NoEntry.
Arguments Own {A} parser.
Arguments ObjectFunction {A}.
Arguments ObjectPrototype {A}.
Arguments NoEntry {A}.

Definition entryOf {A : Type} (table : string -> option A) (nodeName : string) : Entry A :=
  match table nodeName with
  | Some parser => Own parser
  | None =>
      if String.eqb nodeName "constructor" then ObjectFunction
      else if String.eqb nodeName "__proto__" then ObjectPrototype
      else NoEntry
  end.

(** [if (parser)]. *)
Definition isEntry {A : Type} (parser : Entry A) : bool :=
  match parser with
  | NoEntry => false
  | _ => true
  end.

(** [parser.call(this, xmlNode)] on an entry of [defineParsers]: [Object]
    returns the object it is given, the DOM node; [Object.prototype] has no
    [call]. *)
Definition callDefineParser (parser : Entry (Node -> M LinearGradient)) (xmlNode : Node)
  : M Def :=
  match parser with
  | Own parser => gradient <- parser xmlNode ;; ret (DefGradient gradient)
  | ObjectFunction => ret (DefNode xmlNode)
  | ObjectPrototype | NoEntry => throw TypeError
  end.

(** [parser.call(this, xmlNode, parentGroup)] on an entry of
    [nodeParsers]. *)
Definition callNodeParser (parser : Entry (Node -> option El -> M El)) (xmlNode : Node)
    (parentGroup : option El) : M El :=
  match parser with
  | Own parser => parser xmlNode parentGroup
  | ObjectFunction => ret (nodeAsEl xmlNode)
  | ObjectPrototype | NoEntry => throw TypeError
  end.

(** *** [makeViewBoxTransform] *)

Module RectLike.
Record t := mk { x : number; y : number; width : number; height : number }.
End RectLike.

Module ViewBoxTransform.
Record t := mk { scale : number * number; position : number * number }.
End ViewBoxTransform.

Definition makeViewBoxTransform (viewBoxRect : RectLike.t) (width height : number)
  : ViewBoxTransform.t :=
  let scaleX := (width / RectLike.width viewBoxRect)%float in
  let scaleY := (height / RectLike.height viewBoxRect)%float in
  let scale := Math_min scaleX scaleY in
  let viewBoxScale := (scale, scale) in
  let viewBoxPosition :=
    (((- (RectLike.x viewBoxRect + RectLike.width viewBoxRect / 2)) * scale + width / 2)%float,
     ((- (RectLike.y viewBoxRect + RectLike.height viewBoxRect / 2)) * scale + height / 2)%float) in
  ViewBoxTransform.mk viewBoxScale viewBoxPosition.

(** *** The parser: [parseXML], [SVGParser.parse], [_parseNode], [_parseText] *)

Record SVGParserOption := mkOption {
  opt_width : option number;
  opt_height : option number;
  ignoreViewBox : bool;
  ignoreRootClip : bool
}.

(** [opt || {}]. *)
Definition noOption : SVGParserOption := mkOption None None false false.

Record SVGParserResult := mkResult {
  root : El;
  width : option number;
  height : option number;
  viewBoxRect : option RectLike.t;
  viewBoxTransform : option ViewBoxTransform.t
}.

(** The argument of [parseXML]: markup, or a node with its next siblings. *)
Inductive Source :=
| Markup (svg : string)
| Parsed (svgNode : Node) (nextSiblings : list Node).

(** The [while] loop of [parseXML] along the sibling chain; past the last
    sibling [svgNode] is [null] and [svgNode.nodeName] is a read on
    [null]. *)
Fixpoint firstSvg (chain : list Node) : M (option Node) :=
  match chain with
  | [] => throw TypeError
  | svgNode :: r =>
      if negb (String.eqb (toLowerCase (nodeName svgNode)) "svg")
         || negb (nodeType svgNode =? 1)%N
      then firstSvg r
      else ret (Some svgNode)
  end.

(** [parseFloat((svg.getAttribute(name) || opt[name]) as string)], then
    [isNaN(v) && (v = null)]. *)
Definition viewportSize (attr : option string) (fallback : option number) : option number :=
  let v := match attr with
           | Some s => if nonEmpty s then parseFloat s
                       else match fallback with Some x => parseFloatNum x | None => nan end
           | None => match fallback with Some x => parseFloatNum x | None => nan end
           end in
  if is_nan v then None else Some v.

(** [parseFloat((viewBoxArr[i] || 0) as string)]. *)
Definition floatOrZero (s : string) : number :=
  if nonEmpty s then parseFloat s else parseFloatNum zero.

Definition parseViewBox (viewBox : string) : option RectLike.t :=
  if nonEmpty viewBox then
    match splitDelimiters (trim viewBox) with
    | a :: b :: c :: d :: _ =>
        Some (RectLike.mk (floatOrZero a) (floatOrZero b) (parseFloat c) (parseFloat d))
    | _ => None
    end
  else None.

Definition pushChildren (e : El) (cs : list El) : El :=
  fold_left pushChild cs e.

Section Parser.

(** The external collaborators: [new DOMParser().parseFromString(svg,
    'text/xml')] and the width of [text.getBoundingRect()]. *)
Variable parseFromString : string -> Node.
Variable getBoundingRectWidth : El -> number.

Definition parseXML (svg : Source) : M (option Node) :=
  let '(svgNode, siblings) :=
    match svg with
    | Markup svg => (parseFromString svg, [])
    | Parsed n siblings => (n, siblings)
    end in
  firstSvg (if (nodeType svgNode =? 9)%N then childNodes svgNode else svgNode :: siblings).

(** [_parseText] adds one [Text] to [parentGroup]; the result is the list
    of the nodes added. *)
Definition _parseText (xmlNode : Node) (parentGroup : option El) : M (list El) :=
  (if (nodeType xmlNode =? 1)%N then
     let dx := match getAttribute xmlNode "dx" with
               | Some s => if nonEmpty s then parseFloat s else parseFloatNum zero
               | None => parseFloatNum zero
               end in
     let dy := match getAttribute xmlNode "dy" with
               | Some s => if nonEmpty s then parseFloat s else parseFloatNum zero
               | None => parseFloatNum zero
               end in
     setThis (fun p => with_textX (add (_textX p) (VNum dx)) p) ;;
     setThis (fun p => with_textY (add (_textY p) (VNum dy)) p)
   else ret tt) ;;
  p <- getThis ;;
  let text :=
    setPosition
      (setStyle (newEl TText NoShape)
         (<["transformText" := STrue]> (<["text" := SStr (textContent xmlNode)]> ∅)))
      (orZero (_textX p), orZero (_textY p)) in
  text <- parseAttributes xmlNode (inheritStyle parentGroup text) (Some (_defs p)) false ;;
  let text :=
    match style text !! "fontSize" with
    | Some (SNum fontSize) =>
        if truthy fontSize && (fontSize <? 9)%float then
          stretchScale (setStyle text (<["fontSize" := SNum 9%float]> (style text)))
            (fontSize / 9)%float
        else text
    | _ => text
    end in
  setThis (fun p => with_textX (add (_textX p) (VNum (getBoundingRectWidth text))) p) ;;
  requireGroup parentGroup ;;
  ret [text].

(** [_parseNode] adds at most one node to [parentGroup], which it only
    reads; the result is the list of the nodes added, each with
    everything that was added below it. *)
Fixpoint _parseNode (xmlNode : Node) (parentGroup : option El) {struct xmlNode}
  : M (list El) :=
  match xmlNode with
  | mkNode _ name _ _ cs =>
      let nodeName := toLowerCase name in
      (if String.eqb nodeName "defs" then setThis (with_isDefine true)
       else if String.eqb nodeName "text" then setThis (with_isText true)
       else ret tt) ;;
      p <- getThis ;;
      el <- (if _isDefine p then
               let parser := entryOf defineParsers nodeName in
               if isEntry parser then
                 def <- callDefineParser parser xmlNode ;;
                 requireElement xmlNode ;;
                 match getAttribute xmlNode "id" with
                 | Some id =>
                     if nonEmpty id
                     then setThis (fun p => with_defs (<[id := def]> (_defs p)) p)
                     else ret tt
                 | None => ret tt
                 end ;;
                 ret None
               else ret None
             else
               let parser := entryOf nodeParsers nodeName in
               if isEntry parser then
                 el <- callNodeParser parser xmlNode parentGroup ;;
                 requireGroup parentGroup ;;
                 ret (Some el)
               else ret None) ;;
      added <- (fix visit (cs : list Node) : M (list El) :=
                  match cs with
                  | [] => ret []
                  | child :: r =>
                      a1 <- (if (nodeType child =? 1)%N then _parseNode child el
                             else ret []) ;;
                      p <- getThis ;;
                      a2 <- (if (nodeType child =? 3)%N && _isText p
                             then _parseText child el else ret []) ;;
                      rest <- visit r ;;
                      ret (a1 ++ a2 ++ rest)%list
                  end) cs ;;
      (if String.eqb nodeName "defs" then setThis (with_isDefine false)
       else if String.eqb nodeName "text" then setThis (with_isText false)
       else ret tt) ;;
      ret (match el with
           | Some el => [pushChildren el added]
           | None => []
           end)
  end.

(** The loop of [parse] over the children of the [svg] element. *)
Fixpoint parseChildren (cs : list Node) (root : El) : M (list El) :=
  match cs with
  | [] => ret []
  | child :: r =>
      a <- _parseNode child (Some root) ;;
      rest <- parseChildren r root ;;
      ret (a ++ rest)%list
  end.

Definition parse (xml : Source) (opt : option SVGParserOption) : M SVGParserResult :=
  let opt := default noOption opt in
  svg <- parseXML xml ;;
  match svg with
  | None => throw (Error "Illegal svg")
  | Some svg =>
      let root := newEl TGroup NoShape in
      let viewBox := orElse (getAttribute svg "viewBox") "" in
      let width := viewportSize (getAttribute svg "width") (opt_width opt) in
      let height := viewportSize (getAttribute svg "height") (opt_height opt) in
      root <- parseAttributes svg root None true ;;
      added <- parseChildren (childNodes svg) root ;;
      let root := pushChildren root added in
      let viewBoxRect := parseViewBox viewBox in
      let viewBoxTransform :=
        match viewBoxRect, width, height with
        | Some r, Some w, Some h => Some (makeViewBoxTransform r w h)
        | _, _, _ => None
        end in
      let root :=
        match viewBoxTransform with
        | Some t =>
            if negb (ignoreViewBox opt) then
              let elRoot :=
                setPosition (setScale root (ViewBoxTransform.scale t))
                  (VNum (ViewBoxTransform.position t).1, VNum (ViewBoxTransform.position t).2) in
              pushChild (newEl TGroup NoShape) elRoot
            else root
        | None => root
        end in
      let root :=
        match width, height with
        | Some w, Some h =>
            if negb (ignoreRootClip opt)
            then setClipPath root (newEl TRect (RectShape zero zero w h))
            else root
        | _, _ => root
        end in
      ret (mkResult root width height viewBoxRect viewBoxTransform)
  end.

(** What a call gives back to its caller. *)
Inductive Outcome :=
| Returned (r : SVGParserResult)
| Thrown (e : Exn).

(** [parseSVG]: a new parser on every call, run over the globals as the
    previous calls left them. *)
Definition parseSVG (xml : Source) (opt : option SVGParserOption) (g : Globals)
  : Outcome * Globals :=
  let parser := newSVGParser in
  match parse xml opt (mkState parser g) with
  | Ok r s => (Returned r, globals s)
  | Throw e s => (Thrown e, globals s)
  end.

End Parser.

End ParseSVG.

(** ** Vocabulary of the properties *)

Import JS DOM Scene Regex ParseSVG.

(** Modelled from the spec: the affine primitives of [core/matrix], which is
    not under src/. The spec (sections 4.6 and 8) fixes that a primitive
    applies its function after the matrix it is given, so that replaying
    [scale] and then [translate] is scale-then-translate. A matrix
    [(a, b, c, d, e, f)] maps [(x, y)] to [(a x + c y + e, b x + d y + f)];
    the sine and cosine of [rotate] are parameters. *)
Module matrix.
Definition t : Type := number * number * number * number * number * number.

Definition create : t := (1, 0, 0, 1, 0, 0)%float.

Definition translate (a : t) (vx vy : number) : t :=
  let '(a0, a1, a2, a3, a4, a5) := a in
  (a0, a1, a2, a3, a4 + vx, a5 + vy)%float.

Definition scale (a : t) (vx vy : number) : t :=
  let '(a0, a1, a2, a3, a4, a5) := a in
  (a0 * vx, a1 * vy, a2 * vx, a3 * vy, a4 * vx, a5 * vy)%float.

Section Rotate.
Variables sin cos : number -> number.

Definition rotate (a : t) (rad : number) : t :=
  let '(aa, ab, ac, ad, atx, aty) := a in
  let st := sin rad in
  let ct := cos rad in
  (aa * ct + ab * st, - aa * st + ab * ct,
   ac * ct + ad * st, - ac * st + ct * ad,
   ct * atx + st * aty, ct * aty - st * atx)%float.

(** The matrix a sequence of primitive calls builds. *)
Fixpoint eval (m : Matrix) : t :=
  match m with
  | MCreate => create
  | MTranslate m vx vy => translate (eval m) vx vy
  | MScale m vx vy => scale (eval m) vx vy
  | MRotate m rad => rotate (eval m) rad
  | MAssign a b c d e f => (a, b, c, d, e, f)
  end.
End Rotate.
End matrix.

(** The [Text] nodes of a scene tree, in drawing order. *)
Fixpoint textRuns (e : El) : list El :=
  match e with
  | mkEl t _ _ _ _ _ _ _ _ cs =>
      match t with
      | TText => [e]
      | _ => (fix below (l : list El) : list El :=
                match l with
                | [] => []
                | c :: r => (textRuns c ++ below r)%list
                end) cs
      end
  end.

(** The start [x] of a text run: the first component of the position it
    was created with. *)
Definition startX (e : El) : option value :=
  match position e with
  | Given p => Some p.1
  | _ => None
  end.

(** A sibling chain holds an element named [svg], in any letter case. *)
Definition isSvgElement (n : Node) : bool :=
  String.eqb (toLowerCase (nodeName n)) "svg" && (nodeType n =? 1)%N.

(** The sibling chain [parseXML] scans: the children of a document, or the
    node it is given and the siblings that follow. *)
Definition siblingChain (parseFromString : string -> Node) (xml : Source) : list Node :=
  let '(svgNode, siblings) :=
    match xml with
    | Markup svg => (parseFromString svg, [])
    | Parsed n siblings => (n, siblings)
    end in
  if (nodeType svgNode =? 9)%N then childNodes svgNode else svgNode :: siblings.

(** The colour stop the specification reads off a [stop] element whose
    [offset] attribute is [offsetStr]. *)
Definition stopOf (offsetStr : string) (stop : Node) : number * string :=
  ((match indexOf "%" offsetStr with
    | Some (S _) => (parseInt offsetStr / 100)%float
    | _ => if nonEmpty offsetStr then parseFloat offsetStr else zero
    end),
   orElse (getAttribute stop "stop-color") "#000000").

(** The amended precedence of one style property: the presentation
    attribute, else the inline declaration, else the inherited value; in the
    inline-only mode the attribute is not read. *)
Definition precedence (onlyInlineStyle : bool) (attr inline inherited : option string)
  : option string :=
  match (if onlyInlineStyle then None else attr) with
  | Some v => Some v
  | None => match inline with
            | Some v => Some v
            | None => inherited
            end
  end.

(** The inline declarations of an element, as [parseStyleAttribute] returns
    them. *)
Definition inlineStyleOf (xmlNode : Node) : gmap string string :=
  match getAttribute xmlNode "style" with
  | Some style => if nonEmpty style then knownStyles (styleListOf (styleMatches 0 style)) else ∅
  | None => ∅
  end.

(** What [parseStyleAttribute] leaves of the globals: [lastIndex] is reset
    when there is a style text to scan. *)
Definition afterStyleScan (xmlNode : Node) (g : Globals) : Globals :=
  match getAttribute xmlNode "style" with
  | Some style => if nonEmpty style then mkGlobals (console g) 0 else g
  | None => g
  end.

(** What [parseAttributes] leaves of the globals. *)
Definition afterAttributes (xmlNode : Node) (g : Globals) : Globals :=
  if (nodeType xmlNode =? 1)%N then afterStyleScan xmlNode g else g.

(** The style record [parseAttributes] merges for a node, before it is
    normalised: the inherited style, the inline declarations laid over it
    and, unless the call is inline-only, the presentation attributes laid
    over both. *)
Definition mergedStyle (xmlNode : Node) (el : El) (onlyInlineStyle : bool)
  : gmap string string :=
  let zrStyle := default ∅ (__inheritedStyle el) in
  if (nodeType xmlNode =? 1)%N then
    let zrStyle := extend zrStyle (inlineStyleOf xmlNode) in
    if onlyInlineStyle then zrStyle else readAttributes xmlNode zrStyle
  else zrStyle.

(** One turn of a loop over [attributesMap] that copies the value [get]
    finds under the first name to the second name. *)
Definition copyStep (get : string -> option string) (z : gmap string string)
    (kv : string * string) : gmap string string :=
  match get kv.1 with
  | Some v => <[kv.2 := v]> z
  | None => z
  end.

(** The node after [parseTransformAttribute]. *)
Definition withTransform (m : option (option Matrix)) (node : El) : El :=
  match m with
  | Some m => setLocalTransform node m
  | None => node
  end.

(** A string holds the opening of a [url(] reference somewhere. *)
Fixpoint hasUrlOpen (s : string) : bool :=
  match afterLiteral "url(" s with
  | Some _ => true
  | None => match s with
            | EmptyString => false
            | String _ r => hasUrlOpen r
            end
  end.

(** No character of an identifier stops or breaks the lazy group. *)
Fixpoint plainId (s : string) : bool :=
  match s with
  | EmptyString => true
  | String c r => negb (Ascii.eqb c ")") && negb (isLineTerminator c) && plainId r
  end.

(** What the claim has a paint lookup by identifier give: the definition
    registered under it, [undefined] when there is none. *)
Definition registered (defs : DefsMap) (id : string) : Paint :=
  match defsOwn defs !! id with
  | Some def => PaintDef def
  | None => PaintUndefined
  end.

(** The loop of [_parseNode] over the children of a node whose scene node
    is [el], as a function of its own. *)
Definition visitChildren (getBoundingRectWidth : El -> number) (el : option El)
  : list Node -> M (list El) :=
  fix visit (cs : list Node) : M (list El) :=
    match cs with
    | [] => ret []
    | child :: r =>
        a1 <- (if (nodeType child =? 1)%N then _parseNode getBoundingRectWidth child el
               else ret []) ;;
        p <- getThis ;;
        a2 <- (if (nodeType child =? 3)%N && _isText p
               then _parseText getBoundingRectWidth child el else ret []) ;;
        rest <- visit r ;;
        ret (a1 ++ a2 ++ rest)%list
    end.

(** Two results agree: the same value and the same parser fields, or a
    [TypeError] on both sides. The globals are left out. *)
Definition agree {A : Type} (r1 r2 : Res A) : Prop :=
  match r1, r2 with
  | Ok a1 s1, Ok a2 s2 => a1 = a2 /\ this s1 = this s2
  | Throw e1 _, Throw e2 _ => e1 = TypeError /\ e2 = TypeError
  | _, _ => False
  end.

(** A computation whose result depends on the parser fields of the state
    only, not on the console or on [lastIndex], and that throws nothing but
    a [TypeError]. *)
Definition respects {A : Type} (m : M A) : Prop :=
  forall s1 s2 : State, this s1 = this s2 -> agree (m s1) (m s2).

(** The position or the scale of a node after [parseTransformAttribute]. *)
Definition placedBy {A : Type} (tr : option (option Matrix)) (before : Placed A) : Placed A :=
  match tr with
  | Some (Some m) => FromMatrix m
  | _ => before
  end.

(** Two scene nodes that differ in style and transform only, the second
    being placed by the transform [tr] when that holds a matrix. *)
Definition sameFrame (tr : option (option Matrix)) (e e' : El) : Prop :=
  type e' = type e /\ position e' = placedBy tr (position e)
  /\ scale e' = placedBy tr (scale e) /\ children e' = children e.

(** A constant measure, for the examples: every run is seven units wide. *)
Definition sevenWide (_ : El) : number := 7%float.

(** A markup parser for the examples: every markup is an empty document. *)
Definition emptyDocument (_ : string) : Node := document [].

(** *** Vocabulary of the further properties *)

(** The group that holds what was parsed: the returned root, or its one
    child when the root is the wrapper made for the viewBox. *)
Definition contentOf (opt : option SVGParserOption) (r : SVGParserResult) : option El :=
  match viewBoxTransform r with
  | Some _ => if ignoreViewBox (default noOption opt) then Some (root r)
              else head (children (root r))
  | None => Some (root r)
  end.

(** The clip rectangle of a viewport. *)
Definition viewportClip (w h : number) : El := newEl TRect (RectShape zero zero w h).

(** The class of the node each builder of [nodeParsers] makes with [new]. *)
Definition builtType (nodeName : string) : option ElType :=
  if String.eqb nodeName "g" then Some TGroup
  else if String.eqb nodeName "rect" then Some TRect
  else if String.eqb nodeName "circle" then Some TCircle
  else if String.eqb nodeName "line" then Some TLine
  else if String.eqb nodeName "ellipse" then Some TEllipse
  else if String.eqb nodeName "polygon" then Some TPolygon
  else if String.eqb nodeName "polyline" then Some TPolyline
  else if String.eqb nodeName "image" then Some TImage
  else if String.eqb nodeName "text" then Some TGroup
  else if String.eqb nodeName "tspan" then Some TGroup
  else if String.eqb nodeName "path" then Some TPath
  else None.

(** The state a computation ends in, returned or thrown. *)
Definition stateOf {A : Type} (r : Res A) : State :=
  match r with
  | Ok _ s => s
  | Throw _ s => s
  end.

(** A computation that leaves a component of the state as it found it,
    whether it returns or throws. *)
Definition keeps {B A : Type} (proj : State -> B) (m : M A) : Prop :=
  forall s, proj (stateOf (m s)) = proj s.

(** What only [_parseNode] writes: the defs registry and the two mode
    flags; and the console. *)
Definition modeOf (s : State) : DefsMap * bool * bool * list string :=
  (_defs (this s), _isDefine (this s), _isText (this s), console (globals s)).

Definition consoleOf (s : State) : list string := console (globals s).

Definition defineOf (s : State) : bool := _isDefine (this s).

(** [parentGroup.add] can be called: the parent is a group. *)
Definition canHoldChildren (el : option El) : bool :=
  match el with
  | Some e => isGroup e
  | None => false
  end.

(** The class of the node a name in lower case adds to the scene: that of
    its builder, or the DOM node itself under the name [constructor], which
    [nodeParsers] inherits from [Object.prototype]. *)
Definition addedType (nodeName : string) : option ElType :=
  match builtType nodeName with
  | Some t => Some t
  | None => if String.eqb nodeName "constructor" then Some TDomNode else None
  end.

(** The classes of the nodes the children of an element add to the scene,
    in document order. *)
Definition addedTypes (cs : list Node) : list ElType :=
  omap (fun c => addedType (toLowerCase (nodeName c))) cs.

(** A name in lower case under which [nodeParsers] reads as nothing. *)
Definition hasNoEntry (nodeName : string) : bool :=
  match builtType nodeName with
  | Some _ => false
  | None => negb (String.eqb nodeName "constructor" || String.eqb nodeName "__proto__")
  end.

(** A child of a gradient that is a [stop] element with an [offset] and
    nothing below it, or no element at all. *)
Definition isStopOrNoElement (c : Node) : Prop :=
  nodeType c <> 1%N
  \/ (toLowerCase (nodeName c) = "stop" /\ childNodes c = []
      /\ is_Some (getAttribute c "offset")).

(** The gradient [defineParsers.lineargradient] builds from an element. *)
Definition gradientOf (xmlNode : Node) : LinearGradient :=
  mkLinearGradient
    (parseInt (orElse (getAttribute xmlNode "x1") "0"))
    (parseInt (orElse (getAttribute xmlNode "y1") "0"))
    (parseInt (orElse (getAttribute xmlNode "x2") "10"))
    (parseInt (orElse (getAttribute xmlNode "y2") "0"))
    (omap (fun stop =>
             if (nodeType stop =? 1)%N
             then option_map (fun o => stopOf o stop) (getAttribute stop "offset")
             else None) (childNodes xmlNode)).

(** The names of the builders that return a shape, not a group, and call
    nothing outside this file but constructors. *)
Definition shapeNames : list string :=
  ["rect"; "circle"; "line"; "ellipse"; "polygon"; "polyline"; "image"].

Definition isShapeName (nodeName : string) : bool :=
  existsb (String.eqb nodeName) shapeNames.

(** A document tree of groups and shapes: an element is a [g] over such
    trees or a shape without element children; any other node has a name
    under which [nodeParsers] reads as nothing, is not named [defs] and has
    no children, as are the text and comment nodes of a document. *)
Fixpoint groupsAndShapes (n : Node) : bool :=
  match n with
  | mkNode ty name _ _ cs =>
      let nodeName := toLowerCase name in
      if (ty =? 1)%N then
        if String.eqb nodeName "g" then
          (fix all (l : list Node) : bool :=
             match l with
             | [] => true
             | c :: r => groupsAndShapes c && all r
             end) cs
        else isShapeName nodeName && forallb (fun c => negb (nodeType c =? 1)%N) cs
      else
        match cs with
        | [] => hasNoEntry nodeName && negb (String.eqb nodeName "defs")
        | _ => false
        end
  end.

(** The parser is in neither of its two modes. *)
Definition modesOff (s : State) : Prop :=
  _isDefine (this s) = false /\ _isText (this s) = false.



(** The record that a node inherits from, empty when it has none. *)
Definition inheritedOf (el : El) : gmap string string := default ∅ (__inheritedStyle el).

(** A string of white space and commas only. *)
Fixpoint onlyDelimiters (s : string) : bool :=
  match s with
  | EmptyString => true
  | String c r => isDelimiter c && onlyDelimiters r
  end.

(** The number of characters of its argument string that a case of the
    [switch] of [parseTransformAttribute] reads. *)
Definition charactersRead (type : string) : nat :=
  if String.eqb type "translate" then 2
  else if String.eqb type "scale" then 2
  else if String.eqb type "rotate" then 1
  else if String.eqb type "matrix" then 6
  else 0.




(** The font size [_parseText] reads on the run it builds for a node under
    a parent: the merged [fontSize], parsed as a number; none when the
    merged record has none. *)
Definition runFontSize (xmlNode : Node) (parentGroup : option El) : option number :=
  option_map parseFloat
    (mergedStyle xmlNode (inheritStyle parentGroup (newEl TText NoShape)) false !! "fontSize").


(** The tokens of the [viewBox] attribute of the root element. *)
Definition viewBoxTokens (svg : Node) : list string :=
  splitDelimiters (trim (orElse (getAttribute svg "viewBox") "")).

(** ** Properties *)

(** *** The monad *)

Lemma bind_returned {A B} (m : M A) (k : A -> M B) (s s' : State) (b : B) :
  bind m k s = Ok b s' -> exists a s1, m s = Ok a s1 /\ k a s1 = Ok b s'.
Proof.
  unfold bind. destruct (m s) as [a s1|e s1]; [|discriminate]. eauto.
Qed.

Lemma bind_throws {A B} (m : M A) (k : A -> M B) (s s' : State) (e : Exn) :
  m s = Throw e s' -> bind m k s = Throw e s'.
Proof. intros H. unfold bind. rewrite H. reflexivity. Qed.

Lemma bind_continues {A B} (m : M A) (k : A -> M B) (s s1 : State) (a : A) :
  m s = Ok a s1 -> bind m k s = k a s1.
Proof. intros H. unfold bind. rewrite H. reflexivity. Qed.

Lemma bind_bind {A B C} (m : M A) (k1 : A -> M B) (k2 : B -> M C) (s : State) :
  bind (bind m k1) k2 s = bind m (fun a => bind (k1 a) k2) s.
Proof. unfold bind. destruct (m s); reflexivity. Qed.


Lemma setThis_run (f : SVGParser -> SVGParser) (s : State) :
  setThis f s = Ok tt (mkState (f (this s)) (globals s)).
Proof. reflexivity. Qed.

(** A run that returned is taken apart, one bind after the other. *)
Ltac binds H :=
  repeat match type of H with
         | bind _ _ _ = Ok _ _ =>
             let a := fresh "a" in let s := fresh "s" in let Ha := fresh "Ha" in
             apply bind_returned in H as (a & s & Ha & H)
         end.

(** One step of a run: the first computation of the chain is known to
    return. *)
Ltac proceed H := rewrite ?bind_bind; rewrite (bind_continues _ _ _ _ _ H); cbv beta.


(** *** Numbers *)

Lemma SFcompare_antisym (x y : spec_float) :
  SFcompare y x = option_map CompOpp (SFcompare x y).
Proof.
  destruct x as [sx|sx| |sx mx ex], y as [sy|sy| |sy my ey]; simpl; try reflexivity;
    try (destruct sx; reflexivity); try (destruct sy; reflexivity);
    try (destruct sx, sy; reflexivity).
  destruct sx, sy; simpl; try reflexivity.
  - rewrite (Z.compare_antisym ex ey). destruct (ex ?= ey)%Z; simpl; try reflexivity.
    rewrite CompOpp_involutive. f_equal. exact (Pos.compare_cont_antisym my mx Eq).
  - rewrite (Z.compare_antisym ex ey). destruct (ex ?= ey)%Z; simpl; try reflexivity.
    f_equal. symmetry. exact (Pos.compare_cont_antisym mx my Eq).
Qed.

Lemma not_nan_compare (x y : float) :
  is_nan x = false -> is_nan y = false ->
  exists c, SFcompare (Prim2SF x) (Prim2SF y) = Some c.
Proof.
  unfold is_nan. intros Hx Hy.
  apply negb_false_iff in Hx, Hy. rewrite FloatAxioms.eqb_spec in Hx, Hy. unfold SFeqb in *.
  destruct (Prim2SF x) as [sx|sx| |sx mx ex], (Prim2SF y) as [sy|sy| |sy my ey]; simpl in *;
    try discriminate; eauto.
Qed.

(** [Math.min] of two numbers is one of them and is below both. *)
Lemma Math_min_le (a b : float) :
  is_nan a = false -> is_nan b = false ->
  (Math_min a b <=? a)%float = true /\ (Math_min a b <=? b)%float = true
  /\ (Math_min a b = a \/ Math_min a b = b).
Proof.
  intros Ha Hb. unfold Math_min. rewrite Ha, Hb. simpl.
  destruct (not_nan_compare a b Ha Hb) as [c Hc].
  destruct (not_nan_compare a a Ha Ha) as [ca Hca].
  destruct (not_nan_compare b b Hb Hb) as [cb Hcb].
  pose proof (SFcompare_antisym (Prim2SF a) (Prim2SF b)) as Hanti.
  rewrite Hc in Hanti. simpl in Hanti.
  pose proof (SFcompare_antisym (Prim2SF a) (Prim2SF a)) as Haa.
  rewrite Hca in Haa. simpl in Haa.
  pose proof (SFcompare_antisym (Prim2SF b) (Prim2SF b)) as Hbb.
  rewrite Hcb in Hbb. simpl in Hbb.
  assert (ca = Eq) by (destruct ca; simpl in *; congruence).
  assert (cb = Eq) by (destruct cb; simpl in *; congruence).
  subst ca cb.
  rewrite !FloatAxioms.ltb_spec. unfold SFltb. rewrite Hc, Hanti.
  destruct c; simpl.
  - destruct (get_sign a); rewrite !FloatAxioms.leb_spec; unfold SFleb;
      rewrite ?Hc, ?Hanti, ?Hca, ?Hcb; simpl; auto.
  - rewrite !FloatAxioms.leb_spec; unfold SFleb; rewrite ?Hc, ?Hanti, ?Hca, ?Hcb; simpl; auto.
  - rewrite !FloatAxioms.leb_spec; unfold SFleb; rewrite ?Hc, ?Hanti, ?Hca, ?Hcb; simpl; auto.
Qed.

(** *** The viewBox mapping *)

(** C4. The viewBox (0, 0, 100, 50) in a 200 by 200 viewport gets the
    uniform scale 2 and the translation (0, 50). In general both axes get
    the scale [Math.min(width / viewBox.width, height / viewBox.height)],
    which is one of the two ratios and below both when they are numbers,
    and the translation is the centre of the viewport minus the scaled
    centre of the viewBox. *)
Theorem C4_viewBox_meet_scale_and_centering :
  (makeViewBoxTransform (RectLike.mk 0 0 100 50) 200 200)%float
  = ViewBoxTransform.mk (2, 2)%float (0, 50)%float
  /\ forall (r : RectLike.t) (width height : number),
       let scaleX := (width / RectLike.width r)%float in
       let scaleY := (height / RectLike.height r)%float in
       let scale := Math_min scaleX scaleY in
       let t := makeViewBoxTransform r width height in
       ViewBoxTransform.scale t = (scale, scale)
       /\ ViewBoxTransform.position t
          = ((- (RectLike.x r + RectLike.width r / 2) * scale + width / 2)%float,
             (- (RectLike.y r + RectLike.height r / 2) * scale + height / 2)%float)
       /\ (is_nan scaleX = false -> is_nan scaleY = false ->
           (scale = scaleX \/ scale = scaleY)
           /\ (scale <=? scaleX)%float = true /\ (scale <=? scaleY)%float = true).
Proof.
  split; [reflexivity|].
  intros r width height scaleX scaleY scale t.
  split; [reflexivity|]. split; [reflexivity|].
  intros Hx Hy. destruct (Math_min_le scaleX scaleY Hx Hy) as (H1 & H2 & H3).
  auto.
Qed.

Lemma C4_viewBox_witness :
  let scale := (Math_min (200 / 100) (200 / 50))%float in
  (scale = (200 / 100)%float \/ scale = (200 / 50)%float)
  /\ (scale <=? 200 / 100)%float = true /\ (scale <=? 200 / 50)%float = true.
Proof.
  exact (proj2 (proj2 (proj2 C4_viewBox_meet_scale_and_centering
                         (RectLike.mk 0 0 100 50) 200 200)%float)
           eq_refl eq_refl).
Defined.

(** *** The coordinate-list parser *)

Lemma list_pair_ind {A} (P : list A -> Prop) :
  P [] -> (forall a, P [a]) -> (forall a b l, P l -> P (a :: b :: l)) -> forall l, P l.
Proof.
  intros H0 H1 H2.
  assert (H : forall l, P l /\ forall a, P (a :: l)).
  { induction l as [|b l [IH1 IH2]]; split; auto. }
  intros l. apply H.
Qed.

Lemma pointsOf_length (tokens : list string) :
  length (pointsOf tokens) = Nat.div2 (S (length tokens)).
Proof.
  induction tokens as [| a | a b l IH] using list_pair_ind; simpl; auto.
Qed.

Lemma pointsOf_lookup (tokens : list string) (k : nat) :
  pointsOf tokens !! k =
  match tokens !! (2 * k)%nat, tokens !! (2 * k + 1)%nat with
  | Some x, Some y => Some (parseFloat x, parseFloat y)
  | Some x, None => Some (parseFloat x, nan)
  | None, _ => None
  end.
Proof.
  revert k. induction tokens as [| a | a b l IH] using list_pair_ind; intros k.
  - reflexivity.
  - destruct k as [|k]; [reflexivity|].
    replace (2 * S k)%nat with (S (S (2 * k))) by lia. reflexivity.
  - destruct k as [|k]; [reflexivity|].
    replace (2 * S k)%nat with (S (S (2 * k))) by lia.
    replace (S (S (2 * k)) + 1)%nat with (S (S (2 * k + 1))) by lia.
    simpl pointsOf. simpl lookup. apply IH.
Qed.

(** C8, counterexample. The three tokens of ["1,2,3"] give two points, the
    odd trailing value being kept as the [x] of a point whose [y] is
    [NaN]; dropping it would leave one point. *)
Lemma C8_odd_trailing_value_is_kept :
  length (splitDelimiters (trim "1,2,3")) = 3%nat
  /\ parsePoints "1,2,3" = [(1, 2); (3, nan)]%float
  /\ length (parsePoints "1,2,3") <> (3 / 2)%nat.
Proof. repeat split; vm_compute; congruence. Qed.

(** C8, amended. For every points string the tokens are consumed in pairs:
    [n] tokens give [ceil (n / 2)] points, point [k] is built from the
    adjacent tokens [2 k] and [2 k + 1], and a token with no partner gives a
    point whose [y] is [NaN]. *)
Theorem C8_points_are_adjacent_token_pairs (pointsString : string) :
  let tokens := splitDelimiters (trim pointsString) in
  length (parsePoints pointsString) = Nat.div2 (S (length tokens))
  /\ forall k : nat,
       parsePoints pointsString !! k =
       match tokens !! (2 * k)%nat, tokens !! (2 * k + 1)%nat with
       | Some x, Some y => Some (parseFloat x, parseFloat y)
       | Some x, None => Some (parseFloat x, nan)
       | None, _ => None
       end.
Proof.
  intros tokens. split.
  - apply pointsOf_length.
  - intros k. apply pointsOf_lookup.
Qed.

(** *** The transform attribute *)

(** C2. On [transform="translate(10,0) scale(2)"] the replay runs
    [scale] and then [translate], but [translate] is given the first
    characters of its argument string, 1 and 0: the matrix is
    [(2, 0, 0, 2, 1, 0)] and not scale-by-2 followed by the translation by
    (10, 0), which is [(2, 0, 0, 2, 10, 0)]. *)
Theorem C2_translate_reads_single_characters (node : El) (s : State)
    (sin cos : number -> number) :
  let xmlNode := element "g" [("transform", "translate(10,0) scale(2)")] [] in
  let m := MTranslate (MScale MCreate 2 2) 1 0 in
  parseTransformAttribute xmlNode node s = Ok (setLocalTransform node (Some m)) s
  /\ matrix.eval sin cos m = (2, 0, 0, 2, 1, 0)%float
  /\ matrix.translate (matrix.scale matrix.create 2 2) 10 0 = (2, 0, 0, 2, 10, 0)%float
  /\ matrix.eval sin cos m <> matrix.translate (matrix.scale matrix.create 2 2) 10 0.
Proof.
  repeat split; try reflexivity. vm_compute. intros H. inversion H.
Qed.

Lemma matchTransformName_name name s n v len :
  matchTransformName name s = Some ((n, v), len) -> n = name.
Proof.
  unfold matchTransformName.
  destruct (afterLiteral name s) as [[|c r1]|]; try discriminate.
  destruct (Ascii.eqb c "("); try discriminate.
  destruct (span isTransformArg r1) as [v0 [|d r2]]; try discriminate.
  destruct (Ascii.eqb d ")"); try discriminate.
  intros H. inversion H. reflexivity.
Qed.

Lemma firstMatch_name names s n v len :
  firstMatch names s = Some ((n, v), len) -> In n names.
Proof.
  induction names as [|a names IH]; simpl; [discriminate|].
  destruct (matchTransformName a s) as [[[n0 v0] l0]|] eqn:E.
  - intros H. inversion H. subst. left. symmetry. eapply matchTransformName_name. exact E.
  - intros H. right. auto.
Qed.

Lemma transformMatches_names (skip : nat) (s : string) :
  Forall (fun op => In (fst op) transformNames) (scan matchTransformAt skip s).
Proof.
  revert skip. induction s as [|c r IH]; intros skip; simpl; [constructor|].
  destruct skip as [|k]; [|apply IH].
  destruct (matchTransformAt (String c r)) as [[[n v] len]|] eqn:E; [|apply IH].
  constructor; [|apply IH]. exact (firstMatch_name transformNames _ _ _ _ E).
Qed.

Lemma transformStep_quiet (type value : string) (m : Matrix) :
  In type transformNames -> exists m', forall s, transformStep type value m s = Ok m' s.
Proof.
  simpl. intros [H|[H|[H|[H|[H|[H|[]]]]]]]; subst type; eexists; intros s; reflexivity.
Qed.

Lemma replay_quiet (ops : list (string * string)) (m : option Matrix) :
  Forall (fun op => In (fst op) transformNames) ops ->
  exists m', forall s, replay ops m s = Ok m' s.
Proof.
  revert m. induction ops as [|[type value] ops IH]; intros m H; simpl.
  - eexists. reflexivity.
  - inversion H as [|? ? Hop Hops]. subst.
    destruct (transformStep_quiet type value (match m with Some m0 => m0 | None => MCreate end) Hop)
      as [m' Hm'].
    destruct (IH (Some m') Hops) as [m'' Hm''].
    exists m''. intros s. unfold bind. rewrite Hm'. apply Hm''.
Qed.

(** [parseTransformAttribute] always returns, leaves the state as it was,
    and sets on the node a transform that depends on the element only. *)
Lemma parseTransformAttribute_run (xmlNode : Node) :
  exists tr, forall (node : El) (s : State),
    parseTransformAttribute xmlNode node s = Ok (withTransform tr node) s.
Proof.
  unfold parseTransformAttribute.
  destruct (getAttribute xmlNode "transform") as [transform|];
    [|exists None; reflexivity].
  destruct (nonEmpty transform); [|exists None; reflexivity].
  destruct (replay_quiet (rev (transformMatches (replaceCommas transform))) None) as [m' Hm'].
  { apply Forall_rev. apply transformMatches_names. }
  exists (Some m'). intros node s. unfold bind. rewrite Hm'. reflexivity.
Qed.

(** C7. No transform attribute makes [parseTransformAttribute] abort or
    write to the console: the [switch] tests for the name [skew], which the
    regular expression never yields, so [skewX] and [skewY] fall through it
    with the matrix untouched and without the diagnostic. On
    [transform="skewX(30)"] the node gets the identity and the console
    stays as it was. *)
Theorem C7_skew_is_identity_without_diagnostic :
  (forall (xmlNode : Node) (node : El) (s : State),
     exists node', parseTransformAttribute xmlNode node s = Ok node' s)
  /\ (forall (value : string) (m : Matrix) (s : State),
        transformStep "skewX" value m s = Ok m s
        /\ transformStep "skewY" value m s = Ok m s)
  /\ (forall (node : El) (s : State),
        parseTransformAttribute (element "g" [("transform", "skewX(30)")] []) node s
        = Ok (setLocalTransform node (Some MCreate)) s).
Proof.
  split; [|split].
  - intros xmlNode node s. destruct (parseTransformAttribute_run xmlNode) as [tr Htr].
    eexists. apply Htr.
  - intros value m s. split; reflexivity.
  - intros node s. reflexivity.
Qed.

(** *** Gradient colour stops *)

Lemma colorStopsFrom_missing_offset (stops : list Node) (acc : list (number * string))
    (s : State) :
  (exists stop, In stop stops /\ nodeType stop = 1%N /\ getAttribute stop "offset" = None) ->
  colorStopsFrom stops acc s = Throw TypeError s.
Proof.
  revert acc. induction stops as [|a stops IH]; intros acc [stop (Hin & Ht & Ho)].
  - destruct Hin.
  - simpl. destruct Hin as [<-|Hin].
    + rewrite Ht. simpl. rewrite Ho. reflexivity.
    + destruct (nodeType a =? 1)%N.
      * destruct (getAttribute a "offset"); [apply IH; eauto | reflexivity].
      * apply IH; eauto.
Qed.

(** The stops of the element children that carry an [offset], in document
    order. *)
Lemma colorStopsFrom_with_offsets (stops : list Node) (acc : list (number * string))
    (s : State) :
  (forall stop, In stop stops -> nodeType stop = 1%N ->
                exists offsetStr, getAttribute stop "offset" = Some offsetStr) ->
  colorStopsFrom stops acc s =
  Ok (acc ++ omap (fun stop =>
                     if (nodeType stop =? 1)%N
                     then option_map (fun o => stopOf o stop) (getAttribute stop "offset")
                     else None) stops)%list s.
Proof.
  revert acc. induction stops as [|a stops IH]; intros acc H; simpl.
  - rewrite app_nil_r. reflexivity.
  - destruct (nodeType a =? 1)%N eqn:Ht.
    + destruct (H a (or_introl eq_refl)) as [o Ho]; [apply N.eqb_eq; exact Ht|].
      rewrite Ho. simpl. rewrite IH by (intros; apply H; auto; right; auto).
      rewrite <- app_assoc. reflexivity.
    + apply IH. intros; apply H; auto. right; auto.
Qed.

(** The test [indexOf('%') > 0] misses a percent sign at the head of the
    string only, and there both readings of the offset are [NaN]: the stop
    is the one read with the test "contains a percent sign". *)
Lemma stopOf_percent_anywhere (offsetStr : string) (stop : Node) :
  stopOf offsetStr stop
  = ((match indexOf "%" offsetStr with
      | Some _ => (parseInt offsetStr / 100)%float
      | None => if nonEmpty offsetStr then parseFloat offsetStr else zero
      end),
     orElse (getAttribute stop "stop-color") "#000000").
Proof.
  unfold stopOf. f_equal.
  destruct offsetStr as [|c r]; [reflexivity|].
  cbn [indexOf]. destruct (Ascii.eqb "%" c) eqn:E.
  - apply Ascii.eqb_eq in E. subst c. reflexivity.
  - destruct (indexOf "%" r); reflexivity.
Qed.

(** A document with such a gradient under [defs] is not parsed at all. *)
Lemma stop_without_offset_aborts_parseSVG :
  parseSVG emptyDocument sevenWide
    (Parsed (document
               [element "svg" []
                  [element "defs" []
                     [element "linearGradient" [("id", "g1")]
                        [element "stop" [("stop-color", "red")] []]]]]) [])
    None (mkGlobals [] 0)
  = (Thrown TypeError, mkGlobals [] 0).
Proof. vm_compute. reflexivity. Qed.

(** C9. A gradient with a [stop] element that has no [offset] attribute is
    not given the offset 0 for it: reading [indexOf] on the absent value
    throws, and no colour stop list is produced. *)
Theorem C9_stop_without_offset_throws (xmlNode : Node) (gradient : LinearGradient)
    (s : State) :
  (exists stop, In stop (childNodes xmlNode) /\ nodeType stop = 1%N
                /\ getAttribute stop "offset" = None) ->
  _parseGradientColorStops xmlNode gradient s = Throw TypeError s.
Proof.
  intros H. unfold _parseGradientColorStops, bind.
  rewrite (colorStopsFrom_missing_offset _ _ _ H). reflexivity.
Qed.

Lemma C9_stop_without_offset_witness :
  _parseGradientColorStops
    (element "linearGradient" [("id", "g1")] [element "stop" [("stop-color", "red")] []])
    (mkLinearGradient 0 0 10 0 []) (mkState newSVGParser (mkGlobals [] 0))
  = Throw TypeError (mkState newSVGParser (mkGlobals [] 0)).
Proof.
  apply C9_stop_without_offset_throws.
  exists (element "stop" [("stop-color", "red")] []).
  split; [left; reflexivity|]. split; reflexivity.
Defined.

(** *** Locating the root element *)

Lemma firstSvg_none (chain : list Node) (s : State) :
  forallb (fun n => negb (isSvgElement n)) chain = true ->
  firstSvg chain s = Throw TypeError s.
Proof.
  induction chain as [|n chain IH]; simpl; [reflexivity|].
  intros H. apply andb_true_iff in H as [Hn Hc].
  unfold isSvgElement in Hn. rewrite negb_andb in Hn. rewrite Hn. auto.
Qed.

(** [parseXML] never returns [null]: when it returns, it returns an element
    named [svg]. *)
Lemma firstSvg_some (chain : list Node) (s s' : State) (r : option Node) :
  firstSvg chain s = Ok r s' ->
  exists svg, r = Some svg /\ isSvgElement svg = true /\ In svg chain /\ s' = s.
Proof.
  induction chain as [|n chain IH]; simpl; [discriminate|].
  destruct (negb (String.eqb (toLowerCase (nodeName n)) "svg") || negb (nodeType n =? 1)%N)
    eqn:E.
  - intros H. destruct (IH H) as (svg & ? & ? & ? & ?). exists svg. auto.
  - intros H. inversion H. subst. exists n. repeat split; auto.
    unfold isSvgElement. apply orb_false_iff in E as [E1 E2].
    apply negb_false_iff in E1, E2. rewrite E1, E2. reflexivity.
Qed.

Lemma parseXML_chain (parseFromString : string -> Node) (xml : Source) :
  parseXML parseFromString xml = firstSvg (siblingChain parseFromString xml).
Proof. destruct xml; reflexivity. Qed.

(** C3. When the sibling chain holds no element named [svg], the scan of
    [parseXML] runs past the last sibling and the call ends in the
    [TypeError] of reading [nodeName] on [null]: nothing is returned, and
    the error is not the [Error('Illegal svg')] that [parse] keeps for a
    missing root. *)
Theorem C3_no_svg_element_throws_TypeError (parseFromString : string -> Node)
    (getBoundingRectWidth : El -> number) (xml : Source) (opt : option SVGParserOption) :
  forallb (fun n => negb (isSvgElement n)) (siblingChain parseFromString xml) = true ->
  (forall s : State,
     parse parseFromString getBoundingRectWidth xml opt s = Throw TypeError s)
  /\ (forall g : Globals,
        parseSVG parseFromString getBoundingRectWidth xml opt g = (Thrown TypeError, g))
  /\ TypeError <> Error "Illegal svg".
Proof.
  intros H.
  assert (Hp : forall s, parse parseFromString getBoundingRectWidth xml opt s = Throw TypeError s).
  { intros s. unfold parse, bind. rewrite parseXML_chain, (firstSvg_none _ _ H). reflexivity. }
  split; [exact Hp|]. split; [|discriminate].
  intros g. unfold parseSVG. rewrite Hp. reflexivity.
Qed.

Lemma C3_no_svg_element_witness :
  (forall s : State,
     parse emptyDocument sevenWide
       (Parsed (document [doctype "svg"; element "html" [] []]) []) None s
     = Throw TypeError s)
  /\ (forall g : Globals,
        parseSVG emptyDocument sevenWide
          (Parsed (document [doctype "svg"; element "html" [] []]) []) None g
        = (Thrown TypeError, g))
  /\ TypeError <> Error "Illegal svg".
Proof.
  apply C3_no_svg_element_throws_TypeError. reflexivity.
Defined.

(** *** Paint resolution *)

Lemma afterLiteral_append (lit r : string) : afterLiteral lit (lit ++ r) = Some r.
Proof.
  induction lit as [|c lit IH]; simpl; [destruct r; reflexivity|].
  rewrite Ascii.eqb_refl. exact IH.
Qed.

Lemma untilParen_plain (id rest : string) :
  plainId id = true -> untilParen (id ++ String ")" rest) = Some id.
Proof.
  induction id as [|c id IH]; simpl; [reflexivity|].
  intros H. apply andb_true_iff in H as [H Hid]. apply andb_true_iff in H as [Hp Hl].
  apply negb_true_iff in Hp, Hl. rewrite Hp, Hl, (IH Hid). reflexivity.
Qed.

Lemma urlMatch_unfold (s : string) :
  urlMatch s = match matchUrlAt s with
               | Some cap => Some cap
               | None => match s with
                         | EmptyString => None
                         | String _ r => urlMatch r
                         end
               end.
Proof. destruct s; reflexivity. Qed.

Lemma matchUrlAt_reference (r : string) : matchUrlAt ("url(#" ++ r) = untilParen r.
Proof. reflexivity. Qed.

Lemma urlMatch_reference (id : string) :
  plainId id = true -> urlMatch ("url(#" ++ id ++ ")") = Some id.
Proof.
  intros H. rewrite urlMatch_unfold, matchUrlAt_reference, (untilParen_plain id "" H).
  reflexivity.
Qed.

Lemma urlMatch_without_url (s : string) : hasUrlOpen s = false -> urlMatch s = None.
Proof.
  induction s as [|c r IH].
  - reflexivity.
  - intros H. cbn [hasUrlOpen] in H. cbn [urlMatch]. unfold matchUrlAt.
    destruct (afterLiteral "url(" (String c r)); [discriminate|]. auto.
Qed.

(** With a defs registry at hand, a value in which [urlRegex] finds a
    reference resolves to what the registry reads as under the trimmed
    identifier, without an error; a value in which it finds nothing, in
    particular one without [url(], is passed through unchanged. *)
Lemma getPaint_resolves (defs : DefsMap) (str : string) :
  (forall group1, urlMatch str = Some group1 ->
                  getPaint str (Some defs) = readDef defs (trim group1))
  /\ (urlMatch str = None -> getPaint str (Some defs) = PaintStr str)
  /\ (hasUrlOpen str = false -> getPaint str (Some defs) = PaintStr str).
Proof.
  assert (H3 : urlMatch str = None -> getPaint str (Some defs) = PaintStr str).
  { intros H. unfold getPaint. rewrite H. destruct (nonEmpty str); reflexivity. }
  split; [|split; [exact H3|]].
  - intros group1 H. unfold getPaint.
    destruct str; [discriminate H|]. simpl nonEmpty. cbv iota. rewrite H. reflexivity.
  - intros H. apply H3. apply urlMatch_without_url. exact H.
Qed.

Lemma getPaint_reference (defs : DefsMap) (id : string) :
  plainId id = true -> getPaint ("url(#" ++ id ++ ")") (Some defs) = readDef defs (trim id).
Proof.
  intros H. apply (proj1 (getPaint_resolves defs _)). apply urlMatch_reference. exact H.
Qed.

(** A registered identifier resolves to its definition, whatever the
    prototype of the registry is. *)
Lemma readDef_own (defs : DefsMap) (id : string) (def : Def) :
  defsOwn defs !! id = Some def -> readDef defs id = PaintDef def.
Proof. intros H. unfold readDef. rewrite H. reflexivity. Qed.

(** An identifier that is neither registered nor a name of
    [Object.prototype] resolves to [undefined] on a registry whose prototype
    was not replaced. *)
Lemma readDef_undefined (defs : DefsMap) (id : string) :
  defsOwn defs !! id = None -> defsProto defs = None -> isObjectPrototypeName id = false ->
  readDef defs id = PaintUndefined.
Proof. intros H1 H2 H3. unfold readDef. rewrite H1, H2, H3. reflexivity. Qed.


(** Off the names of [Object.prototype], and on a registry whose prototype
    was not replaced, a reference resolves as registered. *)
Lemma getPaint_off_the_prototype_names (defs : DefsMap) (str group1 : string) :
  urlMatch str = Some group1 -> defsProto defs = None ->
  isObjectPrototypeName (trim group1) = false ->
  getPaint str (Some defs) = registered defs (trim group1).
Proof.
  intros Hm Hp Hn. rewrite (proj1 (getPaint_resolves defs str) group1 Hm).
  unfold readDef, registered. destruct (defsOwn defs !! trim group1); [reflexivity|].
  rewrite Hp, Hn. reflexivity.
Qed.

Lemma isObjectPrototypeName_In (id : string) :
  In id objectPrototypeNames -> isObjectPrototypeName id = true.
Proof.
  intros H. unfold isObjectPrototypeName. apply existsb_exists. exists id.
  split; [exact H|apply String.eqb_refl].
Qed.

(** C6. On [url(#constructor)] and an empty registry [getPaint] returns the
    member of [Object.prototype] of that name, not [undefined]: the lookup
    [defs[url]] is not guarded by [hasOwnProperty]. The same holds of every
    identifier that names a property of [Object.prototype] and is not
    registered, on every registry whose prototype was not replaced. *)
Theorem C6_getPaint_reads_inherited_members (defs : DefsMap) (id : string) :
  plainId id = true -> In (trim id) objectPrototypeNames ->
  defsOwn defs !! trim id = None -> defsProto defs = None ->
  getPaint "url(#constructor)" (Some ∅) = PaintObjectMember "constructor"
  /\ getPaint ("url(#" ++ id ++ ")") (Some defs) = PaintObjectMember (trim id)
  /\ registered defs (trim id) = PaintUndefined
  /\ getPaint ("url(#" ++ id ++ ")") (Some defs) <> registered defs (trim id).
Proof.
  intros Hplain Hname Hown Hproto.
  assert (Hget : getPaint ("url(#" ++ id ++ ")") (Some defs) = PaintObjectMember (trim id)).
  { rewrite (getPaint_reference defs id Hplain). unfold readDef.
    rewrite Hown, Hproto, (isObjectPrototypeName_In _ Hname). reflexivity. }
  assert (Hreg : registered defs (trim id) = PaintUndefined).
  { unfold registered. rewrite Hown. reflexivity. }
  split; [reflexivity|]. split; [exact Hget|]. split; [exact Hreg|].
  rewrite Hget, Hreg. discriminate.
Qed.

Lemma C6_getPaint_witness :
  let g1 := mkLinearGradient 0 0 10 0 [(0.5, "red")]%float in
  let defs : DefsMap := <["g1" := g1]> ∅ in
  getPaint "url(#constructor)" (Some ∅) = PaintObjectMember "constructor"
  /\ getPaint "url(# toString )" (Some defs) = PaintObjectMember "toString"
  /\ registered defs "toString" = PaintUndefined
  /\ getPaint "url(# toString )" (Some defs) <> registered defs "toString".
Proof.
  intros g1 defs.
  apply (C6_getPaint_reads_inherited_members defs " toString ").
  - reflexivity.
  - vm_compute. tauto.
  - reflexivity.
  - reflexivity.
Defined.

(** The same in a document: the [rect] of
    [<svg><rect fill="url(#constructor)"/></svg>], where nothing is defined,
    is filled with the function [Object]. *)
Lemma rect_is_filled_with_an_inherited_member :
  exists r g' rect,
    parseSVG emptyDocument sevenWide
      (Parsed (element "svg" [] [element "rect" [("fill", "url(#constructor)")] []]) [])
      None (mkGlobals [] 0)
    = (Returned r, g')
    /\ children (root r) = [rect]
    /\ style rect !! "fill" = Some (SPaint (PaintObjectMember "constructor")).
Proof. eexists _, _, _. split; [vm_compute; reflexivity|]. split; reflexivity. Qed.

(** What the claim says does hold of the identifiers that are no names of
    [Object.prototype]: a registered one resolves to its definition, one
    that is not registered to [undefined], and a value without a reference
    is passed through. *)
Lemma getPaint_on_other_names :
  let g1 := mkLinearGradient 0 0 10 0 [(0.5, "red")]%float in
  let defs : DefsMap := <["g1" := g1]> ∅ in
  getPaint "url(#g1)" (Some defs) = PaintDef g1
  /\ getPaint "url(#g2)" (Some defs) = PaintUndefined
  /\ getPaint "none" (Some defs) = PaintStr "none"
  /\ getPaint "#ff0000" (Some defs) = PaintStr "#ff0000".
Proof. repeat split. Qed.

(** *** The style cascade *)

Lemma parseStyleAttribute_run (xmlNode : Node) (s : State) :
  parseStyleAttribute xmlNode s
  = Ok (inlineStyleOf xmlNode) (mkState (this s) (afterStyleScan xmlNode (globals s))).
Proof.
  destruct s as [p g]. unfold parseStyleAttribute, inlineStyleOf, afterStyleScan.
  destruct (getAttribute xmlNode "style") as [style|]; [|reflexivity].
  destruct (nonEmpty style); reflexivity.
Qed.

(** [parseAttributes] always returns; its result is [applyStyle] on the
    merged style record, and the state changes in [lastIndex] at most. *)
Lemma parseAttributes_run (xmlNode : Node) :
  exists tr, forall (el : El) (defs : option DefsMap) (onlyInlineStyle : bool) (s : State),
    parseAttributes xmlNode el defs onlyInlineStyle s
    = Ok (applyStyle (isTextEl el) defs (withTransform tr el)
            (mergedStyle xmlNode el onlyInlineStyle))
         (mkState (this s) (afterAttributes xmlNode (globals s))).
Proof.
  unfold parseAttributes, mergedStyle, afterAttributes.
  destruct (nodeType xmlNode =? 1)%N.
  - destruct (parseTransformAttribute_run xmlNode) as [tr Htr]. exists tr.
    intros el defs onlyInlineStyle s. unfold bind.
    rewrite Htr, parseStyleAttribute_run. reflexivity.
  - exists None. intros el defs onlyInlineStyle [p g]. reflexivity.
Qed.

Lemma attributesMap_NoDup : NoDup (map snd attributesMap).
Proof. apply (bool_decide_unpack _). vm_compute. exact I. Qed.

Section AttributeLoop.
Variable get : string -> option string.

Lemma loop_untouched (l : list (string * string)) (z : gmap string string) (p : string) :
  ~ In p (map snd l) -> fold_left (copyStep get) l z !! p = z !! p.
Proof.
  revert z. induction l as [|[a0 p0] l IH]; intros z H; simpl; [reflexivity|].
  simpl in H. rewrite IH by tauto. unfold copyStep. simpl.
  destruct (get a0); [|reflexivity]. apply lookup_insert_ne. tauto.
Qed.

Lemma loop_lookup (l : list (string * string)) (z : gmap string string) (a p : string) :
  NoDup (map snd l) -> In (a, p) l ->
  fold_left (copyStep get) l z !! p = match get a with
                                      | Some v => Some v
                                      | None => z !! p
                                      end.
Proof.
  revert z. induction l as [|[a0 p0] l IH]; intros z Hnd Hin; [destruct Hin|].
  simpl in Hnd. apply NoDup_cons in Hnd as [Hp0 Hnd]. simpl.
  destruct Hin as [Heq|Hin].
  - inversion Heq. subst a0 p0. rewrite loop_untouched.
    + unfold copyStep. simpl. destruct (get a); [apply lookup_insert_eq|reflexivity].
    + intros Hc. apply Hp0. apply list_elem_of_In. exact Hc.
  - rewrite IH by assumption. unfold copyStep. simpl.
    destruct (get a); [reflexivity|].
    destruct (get a0); [|reflexivity]. apply lookup_insert_ne.
    intros ->. apply Hp0. apply list_elem_of_In. apply in_map_iff. exists (a, p). auto.
Qed.
End AttributeLoop.

Lemma readAttributes_lookup (xmlNode : Node) (z : gmap string string) (a p : string) :
  In (a, p) attributesMap ->
  readAttributes xmlNode z !! p = match getAttribute xmlNode a with
                                  | Some v => Some v
                                  | None => z !! p
                                  end.
Proof.
  intros H. exact (loop_lookup (getAttribute xmlNode) attributesMap z a p attributesMap_NoDup H).
Qed.

Lemma extend_lookup (target source : gmap string string) (p : string) :
  extend target source !! p = match source !! p with
                              | Some v => Some v
                              | None => target !! p
                              end.
Proof.
  unfold extend. rewrite lookup_union.
  destruct (source !! p), (target !! p); reflexivity.
Qed.

Lemma mergedStyle_lookup (xmlNode : Node) (el : El) (onlyInlineStyle : bool) (a p : string) :
  nodeType xmlNode = 1%N -> In (a, p) attributesMap ->
  mergedStyle xmlNode el onlyInlineStyle !! p
  = precedence onlyInlineStyle (getAttribute xmlNode a) (inlineStyleOf xmlNode !! p)
      (default ∅ (__inheritedStyle el) !! p).
Proof.
  intros Ht Hin. unfold mergedStyle, precedence. rewrite Ht. simpl.
  destruct onlyInlineStyle.
  - apply extend_lookup.
  - rewrite (readAttributes_lookup _ _ a p Hin), extend_lookup. reflexivity.
Qed.

Lemma setFrom_lookup_ne (z : gmap string string) (key elKey : string)
    (f : string -> StyleValue) (st : gmap string StyleValue) (k : string) :
  k <> elKey -> setFrom z key elKey f st !! k = st !! k.
Proof.
  intros H. unfold setFrom. destruct (z !! key); [|reflexivity].
  apply lookup_insert_ne. congruence.
Qed.


Lemma setLineDash_lookup_ne (z : gmap string string) (st : gmap string StyleValue)
    (k : string) :
  k <> "lineDash" -> setLineDash z st !! k = st !! k.
Proof.
  intros H. unfold setLineDash. destruct (z !! "lineDash") as [v|]; [|reflexivity].
  destruct (nonEmpty v); [|reflexivity]. apply lookup_insert_ne. congruence.
Qed.

Lemma applyStyle_style (isTextEl : bool) (defs : option DefsMap) (el : El)
    (z : gmap string string) :
  style (applyStyle isTextEl defs el z)
  = setLineDash (normalizeText z)
      (setStrings (normalizeText z)
         (setNumbers isTextEl z (setPaints isTextEl defs z (style el)))).
Proof.
  unfold applyStyle.
  destruct (hasStroke isTextEl _); reflexivity.
Qed.



Lemma normalizeText_other (z : gmap string string) (p : string) :
  p <> "textBaseline" -> p <> "textAlign" -> normalizeText z !! p = z !! p.
Proof.
  intros H1 H2. unfold normalizeText.
  repeat match goal with
         | |- context [match ?m !! ?k with _ => _ end] => destruct (m !! k)
         | |- context [if ?b then _ else _] => destruct b
         | |- _ => rewrite lookup_insert_ne by congruence
         end; reflexivity.
Qed.

(** The loops of [each] over property names. *)

Lemma setStrings_untouched (z : gmap string string) (l : list string)
    (st : gmap string StyleValue) (k : string) :
  ~ In k l -> fold_left (fun st p => setFrom z p p SStr st) l st !! k = st !! k.
Proof.
  revert st. induction l as [|p l IH]; intros st H; simpl; [reflexivity|].
  simpl in H. rewrite IH by tauto. apply setFrom_lookup_ne. intros ->. tauto.
Qed.




(** [textBaseline] and [textAlign]. *)





Lemma setPaints_untouched (isTextEl : bool) (defs : option DefsMap) (z : gmap string string)
    (st : gmap string StyleValue) (k : string) :
  ~ In k ["fill"; "stroke"; "textFill"; "textStroke"] ->
  setPaints isTextEl defs z st !! k = st !! k.
Proof.
  intros H. unfold setPaints.
  rewrite !setFrom_lookup_ne; [reflexivity|..];
    intros ->; apply H; destruct isTextEl; vm_compute; tauto.
Qed.

(** What [setNumbers] leaves under the key of one of its six names. *)
Lemma setNumbers_lookup (isTextEl : bool) (z : gmap string string)
    (st : gmap string StyleValue) (p : string) :
  In p numberProps ->
  setNumbers isTextEl z st
  !! (if String.eqb p "lineWidth" && isTextEl then "textStrokeWidth" else p)
  = match z !! p with
    | Some v => Some (SNum (parseFloat v))
    | None => st !! (if String.eqb p "lineWidth" && isTextEl then "textStrokeWidth" else p)
    end.
Proof.
  intros Hin. unfold setNumbers. cbn [fold_left numberProps].
  simpl in Hin.
  repeat (destruct Hin as [<-|Hin]; [|]); try contradiction; destruct isTextEl;
    cbv beta iota zeta delta [String.eqb Ascii.eqb Bool.eqb andb];
    rewrite ?setFrom_lookup_ne by discriminate;
    (unfold setFrom at 1;
     match goal with
     | |- context [match z !! ?p with _ => _ end] => destruct (z !! p)
     end; [apply lookup_insert_eq|]);
    rewrite ?setFrom_lookup_ne by discriminate; reflexivity.
Qed.

(** The value under [fontSize] after [applyStyle]. *)
Lemma applyStyle_fontSize (isTextEl : bool) (defs : option DefsMap) (el : El)
    (z : gmap string string) :
  style (applyStyle isTextEl defs el z) !! "fontSize"
  = match z !! "fontSize" with
    | Some v => Some (SNum (parseFloat v))
    | None => style el !! "fontSize"
    end.
Proof.
  rewrite applyStyle_style. rewrite setLineDash_lookup_ne by discriminate.
  unfold setStrings. rewrite setStrings_untouched by (vm_compute; intuition discriminate).
  pose proof (setNumbers_lookup isTextEl z (setPaints isTextEl defs z (style el)) "fontSize")
    as H.
  change (String.eqb "fontSize" "lineWidth") with false in H. cbn [andb] in H.
  rewrite H by (vm_compute; tauto).
  destruct (z !! "fontSize"); [reflexivity|].
  apply setPaints_untouched. vm_compute. intuition discriminate.
Qed.


Lemma withTransform_style (tr : option (option Matrix)) (el : El) :
  style (withTransform tr el) = style el.
Proof. destruct tr as [[m|]|]; reflexivity. Qed.

(** The inherited record of a new node is a copy of the record of its
    parent: a key the node already has is kept, any other is taken over. *)
Lemma inheritStyle_lookup (parent child : El) (parentStyle : gmap string string)
    (k : string) :
  __inheritedStyle parent = Some parentStyle ->
  default ∅ (__inheritedStyle (inheritStyle (Some parent) child)) !! k
  = match default ∅ (__inheritedStyle child) !! k with
    | Some v => Some v
    | None => parentStyle !! k
    end.
Proof.
  intros H. unfold inheritStyle, defaults. rewrite H. simpl.
  rewrite lookup_union.
  destruct (default ∅ (__inheritedStyle child) !! k), (parentStyle !! k); reflexivity.
Qed.




(** The same on a text run with a stroke width and a font size: the line
    width goes to [textStrokeWidth], both as numbers. *)
Lemma attributes_are_assigned_as_numbers :
  exists el' s',
    parseAttributes
      (element "tspan" [("style", "font-size:12px"); ("stroke-width", "2"); ("font-size", "7")]
         [])
      (newEl TText NoShape) (Some ∅) false (mkState newSVGParser (mkGlobals [] 0))
    = Ok el' s'
    /\ style el' !! "textStrokeWidth" = Some (SNum 2)
    /\ style el' !! "fontSize" = Some (SNum 7)
    /\ style el' !! "lineWidth" = None.
Proof. eexists _, _. split; [vm_compute; reflexivity|]. repeat split. Qed.

(** *** The text cursor *)







Lemma styled_frame (isT : bool) (defs : option DefsMap) (tr : option (option Matrix))
    (parent : option El) (el : El) (z : gmap string string) :
  sameFrame tr el (applyStyle isT defs (withTransform tr (inheritStyle parent el)) z).
Proof.
  unfold sameFrame, applyStyle. destruct (hasStroke _ _ _); destruct tr as [[m0|]|];
    unfold inheritStyle; destruct parent as [p|]; try destruct (__inheritedStyle p);
    repeat split.
Qed.

Lemma _parseNode_eq (w : El -> number) (ty : N) (name : string) (attrs : gmap string string)
    (v : string) (cs : list Node) (parentGroup : option El) :
  _parseNode w (mkNode ty name attrs v cs) parentGroup
  = (let nodeName := toLowerCase name in
     (if String.eqb nodeName "defs" then setThis (with_isDefine true)
      else if String.eqb nodeName "text" then setThis (with_isText true)
      else ret tt) ;;
     p <- getThis ;;
     el <- (if _isDefine p then
              let parser := entryOf defineParsers nodeName in
              if isEntry parser then
                def <- callDefineParser parser (mkNode ty name attrs v cs) ;;
                requireElement (mkNode ty name attrs v cs) ;;
                match getAttribute (mkNode ty name attrs v cs) "id" with
                | Some id =>
                    if nonEmpty id
                    then setThis (fun p => with_defs (<[id := def]> (_defs p)) p)
                    else ret tt
                | None => ret tt
                end ;;
                ret None
              else ret None
            else
              let parser := entryOf nodeParsers nodeName in
              if isEntry parser then
                el <- callNodeParser parser (mkNode ty name attrs v cs) parentGroup ;;
                requireGroup parentGroup ;;
                ret (Some el)
              else ret None) ;;
     added <- visitChildren w el cs ;;
     (if String.eqb nodeName "defs" then setThis (with_isDefine false)
      else if String.eqb nodeName "text" then setThis (with_isText false)
      else ret tt) ;;
     ret (match el with
          | Some el => [pushChildren el added]
          | None => []
          end)).
Proof. reflexivity. Qed.

Lemma visitChildren_nil (w : El -> number) (el : option El) :
  visitChildren w el [] = ret [].
Proof. reflexivity. Qed.

Lemma visitChildren_cons (w : El -> number) (el : option El) (child : Node) (r : list Node) :
  visitChildren w el (child :: r)
  = (a1 <- (if (nodeType child =? 1)%N then _parseNode w child el else ret []) ;;
     p <- getThis ;;
     a2 <- (if (nodeType child =? 3)%N && _isText p then _parseText w child el else ret []) ;;
     rest <- visitChildren w el r ;;
     ret (a1 ++ a2 ++ rest)%list).
Proof. reflexivity. Qed.



Arguments applyStyle : simpl never.
Arguments mergedStyle : simpl never.
Arguments inheritStyle : simpl never.
Arguments afterAttributes : simpl never.
Arguments parseAttributes : simpl never.
Arguments pushChildren : simpl never.

(** Off an element, and on an element without a [transform] attribute,
    [parseAttributes] leaves the placement of the node alone. *)
Lemma parseAttributes_untransformed (xmlNode : Node) :
  nodeType xmlNode <> 1%N \/ getAttribute xmlNode "transform" = None ->
  forall (el : El) (defs : option DefsMap) (onlyInlineStyle : bool) (s : State),
    parseAttributes xmlNode el defs onlyInlineStyle s
    = Ok (applyStyle (isTextEl el) defs el (mergedStyle xmlNode el onlyInlineStyle))
         (mkState (this s) (afterAttributes xmlNode (globals s))).
Proof.
  intros H el defs onlyInlineStyle s.
  unfold parseAttributes, mergedStyle, afterAttributes.
  destruct (nodeType xmlNode =? 1)%N eqn:Ety.
  - destruct H as [H|H]; [apply N.eqb_eq in Ety; contradiction|].
    unfold parseTransformAttribute. rewrite H. unfold bind at 1. unfold bind at 1.
    cbn [ret]. unfold bind. rewrite parseStyleAttribute_run. reflexivity.
  - destruct s as [p g]. reflexivity.
Qed.

(** The transform that [parseAttributes] sets is none off an element and
    on an element without a [transform] attribute. *)
Lemma parseAttributes_run_placed (xmlNode : Node) :
  exists tr,
    (nodeType xmlNode <> 1%N \/ getAttribute xmlNode "transform" = None -> tr = None)
    /\ forall (el : El) (defs : option DefsMap) (onlyInlineStyle : bool) (s : State),
         parseAttributes xmlNode el defs onlyInlineStyle s
         = Ok (applyStyle (isTextEl el) defs (withTransform tr el)
                 (mergedStyle xmlNode el onlyInlineStyle))
              (mkState (this s) (afterAttributes xmlNode (globals s))).
Proof.
  destruct (parseAttributes_run xmlNode) as [tr Hrun].
  destruct (N.eq_dec (nodeType xmlNode) 1%N) as [Hty|Hty];
    [destruct (getAttribute xmlNode "transform") as [t|] eqn:Et|].
  - exists tr. split; [|exact Hrun]. intros [H|H]; [contradiction|discriminate].
  - exists None. split; [reflexivity|].
    exact (parseAttributes_untransformed xmlNode (or_intror Et)).
  - exists None. split; [reflexivity|].
    exact (parseAttributes_untransformed xmlNode (or_introl Hty)).
Qed.




Arguments parse_text : simpl never.
Arguments parse_tspan : simpl never.
Arguments _parseText : simpl never.
Arguments _parseNode : simpl never.
Arguments visitChildren : simpl never.

Lemma entryOf_own {A : Type} (table : string -> option A) (nodeName : string) (parser : A) :
  table nodeName = Some parser -> entryOf table nodeName = Own parser.
Proof. intros H. unfold entryOf. rewrite H. reflexivity. Qed.





(** Character data between the two [tspan]s, be it the white space of an
    indented document, is a run of its own and moves the cursor: the run of
    the second [tspan] starts two widths after the first. *)
Lemma character_data_between_tspans_moves_the_cursor :
  exists g s' t1 t t2,
    _parseNode sevenWide
      (element "text" [("x", "10")]
         [element "tspan" [] [text "A"]; text " "; element "tspan" [] [text "B"]])
      (Some (newEl TGroup NoShape)) (mkState newSVGParser (mkGlobals [] 0))
    = Ok [g] s'
    /\ textRuns g = [t1; t; t2]
    /\ startX t1 = Some (VNum 10) /\ startX t = Some (VNum 17) /\ startX t2 = Some (VNum 24).
Proof.
  eexists _, _, _, _, _. split; [vm_compute; reflexivity|].
  split; [vm_compute; reflexivity|]. repeat split; vm_compute; reflexivity.
Qed.

(** The [dx] of a [tspan] is added to the cursor as a string: after
    [<tspan dx="5">] the cursor, and with it the start of the run, is the
    concatenation of the number 10 and the string ["5"]. *)
Lemma tspan_dx_is_concatenated :
  exists g s' t1 t2,
    _parseNode sevenWide
      (element "text" [("x", "10")]
         [element "tspan" [("dx", "5")] [text "A"]; element "tspan" [] [text "B"]])
      (Some (newEl TGroup NoShape)) (mkState newSVGParser (mkGlobals [] 0))
    = Ok [g] s'
    /\ textRuns g = [t1; t2]
    /\ startX t1 = Some (VStr [PNum 10; PLit "5"])
    /\ startX t2 = Some (VStr [PNum 10; PLit "5"; PNum 7; PNum 0]).
Proof.
  eexists _, _, _, _. split; [vm_compute; reflexivity|].
  split; [vm_compute; reflexivity|]. split; vm_compute; reflexivity.
Qed.



(** *** Isolation of a call from the calls before it *)

Lemma respects_ret {A} (a : A) : respects (ret a).
Proof. intros s1 s2 H. simpl. auto. Qed.

Lemma respects_throw {A} : respects (@throw A TypeError).
Proof. intros s1 s2 H. simpl. auto. Qed.

(** The continuation has to behave on the values the first part can
    return only. *)
Lemma respects_bind_returned {A B} (m : M A) (k : A -> M B) :
  respects m -> (forall a, (exists s s', m s = Ok a s') -> respects (k a)) ->
  respects (bind m k).
Proof.
  intros Hm Hk s1 s2 H. unfold bind. specialize (Hm s1 s2 H).
  destruct (m s1) as [a1 t1|e1 t1] eqn:E1, (m s2) as [a2 t2|e2 t2]; simpl in Hm;
    try contradiction.
  - destruct Hm as [-> Ht]. apply Hk; [eauto|exact Ht].
  - exact Hm.
Qed.

Lemma respects_bind {A B} (m : M A) (k : A -> M B) :
  respects m -> (forall a, respects (k a)) -> respects (bind m k).
Proof. intros Hm Hk. apply respects_bind_returned; auto. Qed.

Lemma respects_getThis : respects getThis.
Proof. intros s1 s2 H. simpl. auto. Qed.

Lemma respects_setThis (f : SVGParser -> SVGParser) : respects (setThis f).
Proof. intros s1 s2 H. simpl. rewrite H. auto. Qed.

Lemma respects_warn (msg : string) : respects (warn msg).
Proof. intros s1 s2 H. simpl. auto. Qed.

Lemma respects_requireElement (n : Node) : respects (requireElement n).
Proof. unfold requireElement. destruct (nodeType n =? 1)%N; [apply respects_ret|apply respects_throw]. Qed.

Lemma respects_requireGroup (parentGroup : option El) : respects (requireGroup parentGroup).
Proof.
  unfold requireGroup. destruct parentGroup as [g|]; [|apply respects_throw].
  destruct (isGroup g); [apply respects_ret|apply respects_throw].
Qed.

(** The one reader of [lastIndex] runs right after it was reset. *)
Lemma respects_parseAttributes (xmlNode : Node) (el : El) (defs : option DefsMap)
    (onlyInlineStyle : bool) :
  respects (parseAttributes xmlNode el defs onlyInlineStyle).
Proof.
  destruct (parseAttributes_run xmlNode) as [tr H].
  intros s1 s2 Hs. rewrite !H. simpl. auto.
Qed.

Lemma respects_colorStopsFrom (stops : list Node) (acc : list (number * string)) :
  respects (colorStopsFrom stops acc).
Proof.
  revert acc. induction stops as [|stop r IH]; intros acc; simpl; [apply respects_ret|].
  destruct (nodeType stop =? 1)%N; [|apply IH].
  destruct (getAttribute stop "offset"); [apply IH|apply respects_throw].
Qed.

Create HintDb respects.
#[local] Hint Resolve respects_ret respects_throw respects_getThis respects_setThis
  respects_warn respects_requireElement respects_requireGroup respects_parseAttributes
  respects_colorStopsFrom : respects.

(** One step of a proof that a computation respects the parser: a bind
    is split, a test is decided either way. *)
Ltac respects_step :=
  first
    [ solve [auto with respects]
    | apply respects_bind; [|intros ?]
    | match goal with
      | |- respects (if ?b then _ else _) => destruct b
      | |- respects (match ?x with _ => _ end) => destruct x
      | |- respects (let _ := _ in _) => cbv zeta
      end ].

Ltac respects_tac := repeat respects_step.

Lemma respects_inheritAndParse (xmlNode : Node) (parentGroup : option El) (el : El) :
  respects (inheritAndParse xmlNode parentGroup el).
Proof. unfold inheritAndParse. respects_tac. Qed.

#[local] Hint Resolve respects_inheritAndParse : respects.

Lemma respects_defineParsers (nodeName : string) (parser : Node -> M LinearGradient) :
  defineParsers nodeName = Some parser -> forall xmlNode, respects (parser xmlNode).
Proof.
  unfold defineParsers. destruct (String.eqb nodeName "lineargradient"); [|discriminate].
  intros H xmlNode. inversion H. subst parser.
  unfold parse_lineargradient, _parseGradientColorStops. respects_tac.
Qed.

Lemma respects_nodeParsers (nodeName : string) (parser : Node -> option El -> M El) :
  nodeParsers nodeName = Some parser ->
  forall xmlNode parentGroup, respects (parser xmlNode parentGroup).
Proof.
  unfold nodeParsers.
  repeat match goal with
         | |- (if ?b then _ else _) = _ -> _ => destruct b
         end;
    try discriminate; intros H xmlNode parentGroup; inversion H; subst parser.
  - unfold parse_g. respects_tac.
  - unfold parse_rect. respects_tac.
  - unfold parse_circle. respects_tac.
  - unfold parse_line. respects_tac.
  - unfold parse_ellipse. respects_tac.
  - unfold parse_polygon. respects_tac.
  - unfold parse_polyline. respects_tac.
  - unfold parse_image. respects_tac.
  - unfold parse_text. respects_tac.
  - unfold parse_tspan. respects_tac.
  - unfold parse_path. respects_tac.
Qed.

Lemma respects_callDefineParser (nodeName : string) (xmlNode : Node) :
  respects (callDefineParser (entryOf defineParsers nodeName) xmlNode).
Proof.
  unfold entryOf. destruct (defineParsers nodeName) as [parser|] eqn:E.
  - pose proof (respects_defineParsers _ _ E xmlNode). cbn [callDefineParser]. respects_tac.
  - destruct (String.eqb nodeName "constructor"); [cbn; respects_tac|].
    destruct (String.eqb nodeName "__proto__"); cbn; respects_tac.
Qed.

Lemma respects_callNodeParser (nodeName : string) (xmlNode : Node) (parentGroup : option El) :
  respects (callNodeParser (entryOf nodeParsers nodeName) xmlNode parentGroup).
Proof.
  unfold entryOf. destruct (nodeParsers nodeName) as [parser|] eqn:E.
  - exact (respects_nodeParsers _ _ E xmlNode parentGroup).
  - destruct (String.eqb nodeName "constructor"); [cbn; respects_tac|].
    destruct (String.eqb nodeName "__proto__"); cbn; respects_tac.
Qed.

Lemma respects__parseText (w : El -> number) (xmlNode : Node) (parentGroup : option El) :
  respects (_parseText w xmlNode parentGroup).
Proof. unfold _parseText. respects_tac. Qed.

#[local] Hint Resolve respects__parseText respects_callDefineParser respects_callNodeParser
  : respects.

Lemma Node_children_ind (P : Node -> Prop) :
  (forall ty name attrs v cs, Forall P cs -> P (mkNode ty name attrs v cs)) ->
  forall n, P n.
Proof.
  intros H. fix IH 1. intros [ty name attrs v cs]. apply H.
  exact ((fix all (l : list Node) : Forall P l :=
            match l with
            | [] => @List.Forall_nil _ P
            | c :: r => @List.Forall_cons _ P c r (IH c) (all r)
            end) cs).
Qed.

Lemma respects_visitChildren (w : El -> number) (cs : list Node) :
  Forall (fun c => forall parentGroup, respects (_parseNode w c parentGroup)) cs ->
  forall el, respects (visitChildren w el cs).
Proof.
  induction 1 as [|c r Hc Hr IH]; intros el.
  - rewrite visitChildren_nil. respects_tac.
  - rewrite visitChildren_cons. respects_tac.
Qed.

Lemma respects__parseNode (w : El -> number) (xmlNode : Node) :
  forall parentGroup, respects (_parseNode w xmlNode parentGroup).
Proof.
  induction xmlNode as [ty name attrs v cs IH] using Node_children_ind.
  intros parentGroup. rewrite _parseNode_eq. cbv zeta.
  apply respects_bind; [respects_tac|intros _].
  apply respects_bind; [respects_tac|intros p].
  apply respects_bind.
  - destruct (_isDefine p).
    + destruct (isEntry (entryOf defineParsers (toLowerCase name))); respects_tac.
    + destruct (isEntry (entryOf nodeParsers (toLowerCase name))); respects_tac.
  - intros el. apply respects_bind; [apply respects_visitChildren; exact IH|intros added].
    respects_tac.
Qed.

#[local] Hint Resolve respects__parseNode : respects.

Lemma respects_parseChildren (w : El -> number) (cs : list Node) (root : El) :
  respects (parseChildren w cs root).
Proof. induction cs as [|c r IH]; simpl; respects_tac. Qed.

Lemma respects_firstSvg (chain : list Node) : respects (firstSvg chain).
Proof. induction chain as [|n r IH]; simpl; respects_tac. Qed.

#[local] Hint Resolve respects_parseChildren respects_firstSvg : respects.

Lemma respects_parse (parseFromString : string -> Node) (w : El -> number) (xml : Source)
    (opt : option SVGParserOption) :
  respects (parse parseFromString w xml opt).
Proof.
  unfold parse. cbv zeta. rewrite parseXML_chain.
  apply respects_bind_returned; [respects_tac|intros svg (s & s' & Hsvg)].
  apply firstSvg_some in Hsvg as (n & -> & _). respects_tac.
Qed.

(** [parse] throws nothing but a [TypeError]: its [Error('Illegal svg')]
    is out of reach. *)
Lemma parse_throws_TypeError_only (parseFromString : string -> Node) (w : El -> number)
    (xml : Source) (opt : option SVGParserOption) (s s' : State) (e : Exn) :
  parse parseFromString w xml opt s = Throw e s' -> e = TypeError.
Proof.
  intros H. pose proof (respects_parse parseFromString w xml opt s s eq_refl) as Ha.
  rewrite H in Ha. simpl in Ha. tauto.
Qed.

(** The outcome of a call does not depend on the globals it starts from. *)
Lemma parseSVG_ignores_globals (parseFromString : string -> Node) (w : El -> number)
    (xml : Source) (opt : option SVGParserOption) (g1 g2 : Globals) :
  fst (parseSVG parseFromString w xml opt g1) = fst (parseSVG parseFromString w xml opt g2).
Proof.
  unfold parseSVG.
  pose proof (respects_parse parseFromString w xml opt
                (mkState newSVGParser g1) (mkState newSVGParser g2) eq_refl) as H.
  destruct (parse parseFromString w xml opt (mkState newSVGParser g1)),
           (parse parseFromString w xml opt (mkState newSVGParser g2));
    simpl in *; try contradiction.
  - destruct H as [-> _]. reflexivity.
  - destruct H as [-> ->]. reflexivity.
Qed.

(** A parser that is used again is not isolated: with the defs registry a
    first document left behind, [url(#g1)] resolves in a second document
    that declares no gradient; on a new parser it is [undefined]. *)
Lemma reused_parser_keeps_defs :
  let first :=
    Parsed (document
              [element "svg" []
                 [element "defs" []
                    [element "linearGradient" [("id", "g1")]
                       [element "stop" [("offset", "0")] []]]]]) [] in
  let second :=
    Parsed (document [element "svg" [] [element "rect" [("fill", "url(#g1)")] []]]) [] in
  let fillOfRect (r : Res SVGParserResult) : option StyleValue :=
    match r with
    | Ok r _ => children (root r) !! 0%nat ≫= fun rect => style rect !! "fill"
    | Throw _ _ => None
    end in
  exists r1 s1,
    parse emptyDocument sevenWide first None (mkState newSVGParser (mkGlobals [] 0)) = Ok r1 s1
    /\ fillOfRect (parse emptyDocument sevenWide second None (mkState (this s1) (globals s1)))
       = Some (SPaint (PaintDef (mkLinearGradient 0 0 10 0 [(0, "#000000")]%float)))
    /\ fillOfRect (parse emptyDocument sevenWide second None
                     (mkState newSVGParser (globals s1)))
       = Some (SPaint PaintUndefined).
Proof.
  eexists _, _. split; [vm_compute; reflexivity|]. split; vm_compute; reflexivity.
Qed.

(** C10. Every call of [parseSVG] runs [parse] on a new parser, whose defs
    registry is empty, whose define and text flags are off and whose text
    cursor is unset; its outcome is the same whatever the globals left by
    earlier calls, so a call made after any other call, on any document and
    options, gives what it gives when made alone, and the same call made
    twice in a row gives equal outcomes. *)
Theorem C10_parseSVG_starts_fresh (parseFromString : string -> Node)
    (getBoundingRectWidth : El -> number) (xml : Source) (opt : option SVGParserOption) :
  (_defs newSVGParser = ∅ /\ _isDefine newSVGParser = false /\ _isText newSVGParser = false
   /\ _textX newSVGParser = VUndefined /\ _textY newSVGParser = VUndefined)
  /\ (forall g : Globals,
        parseSVG parseFromString getBoundingRectWidth xml opt g
        = match parse parseFromString getBoundingRectWidth xml opt (mkState newSVGParser g) with
          | Ok r s => (Returned r, globals s)
          | Throw e s => (Thrown e, globals s)
          end)
  /\ (forall g1 g2 : Globals,
        fst (parseSVG parseFromString getBoundingRectWidth xml opt g1)
        = fst (parseSVG parseFromString getBoundingRectWidth xml opt g2))
  /\ (forall (g : Globals) (xml0 : Source) (opt0 : option SVGParserOption),
        fst (parseSVG parseFromString getBoundingRectWidth xml opt
               (snd (parseSVG parseFromString getBoundingRectWidth xml0 opt0 g)))
        = fst (parseSVG parseFromString getBoundingRectWidth xml opt g))
  /\ (forall g : Globals,
        fst (parseSVG parseFromString getBoundingRectWidth xml opt
               (snd (parseSVG parseFromString getBoundingRectWidth xml opt g)))
        = fst (parseSVG parseFromString getBoundingRectWidth xml opt g)).
Proof.
  split; [repeat split|]. split; [reflexivity|].
  split; [apply parseSVG_ignores_globals|].
  split; intros; apply parseSVG_ignores_globals.
Qed.

(** ** Further properties of the code *)

(** *** The root element, the viewport and the viewBox *)

Lemma firstSvg_skips (before after : list Node) (svg : Node) (s : State) :
  forallb (fun n => negb (isSvgElement n)) before = true ->
  isSvgElement svg = true ->
  firstSvg (before ++ svg :: after) s = Ok (Some svg) s.
Proof.
  intros Hb Hs. induction before as [|n before IH]; simpl.
  - unfold isSvgElement in Hs. apply andb_true_iff in Hs as [-> ->]. reflexivity.
  - simpl in Hb. apply andb_true_iff in Hb as [Hn Hb].
    unfold isSvgElement in Hn. rewrite negb_andb in Hn. rewrite Hn. auto.
Qed.

(** X1. [parseXML] returns the first node of the sibling chain that is an
    element named [svg], in any letter case, and leaves the state as it was:
    the nodes before it, among them a doctype named [svg], are passed over. *)
Theorem parseXML_returns_first_svg_element (parseFromString : string -> Node) (xml : Source)
    (before after : list Node) (svg : Node) (s : State) :
  siblingChain parseFromString xml = (before ++ svg :: after)%list ->
  forallb (fun n => negb (isSvgElement n)) before = true ->
  isSvgElement svg = true ->
  parseXML parseFromString xml s = Ok (Some svg) s.
Proof.
  intros Hc Hb Hs. rewrite parseXML_chain, Hc. apply firstSvg_skips; assumption.
Qed.

Lemma parseXML_returns_first_svg_element_witness :
  parseXML emptyDocument
    (Parsed (document [doctype "svg"; comment "c"; element "SVG" [("id", "a")] [];
                       element "svg" [("id", "b")] []]) [])
    (mkState newSVGParser (mkGlobals [] 0))
  = Ok (Some (element "SVG" [("id", "a")] [])) (mkState newSVGParser (mkGlobals [] 0)).
Proof.
  exact (parseXML_returns_first_svg_element emptyDocument
           (Parsed (document [doctype "svg"; comment "c"; element "SVG" [("id", "a")] [];
                              element "svg" [("id", "b")] []]) [])
           [doctype "svg"; comment "c"] [element "svg" [("id", "b")] []]
           (element "SVG" [("id", "a")] []) (mkState newSVGParser (mkGlobals [] 0))
           eq_refl eq_refl eq_refl).
Defined.

Lemma pushChildren_frame (e : El) (cs : list El) :
  type (pushChildren e cs) = type e /\ scale (pushChildren e cs) = scale e
  /\ position (pushChildren e cs) = position e /\ clipPath (pushChildren e cs) = clipPath e
  /\ style (pushChildren e cs) = style e
  /\ children (pushChildren e cs) = (children e ++ cs)%list.
Proof.
  unfold pushChildren. revert e. induction cs as [|c cs IH]; intros e; simpl.
  - rewrite app_nil_r. repeat split.
  - destruct (IH (pushChild e c)) as (H1 & H2 & H3 & H4 & H5 & H6).
    rewrite H1, H2, H3, H4, H5, H6. simpl. rewrite <- app_assoc. repeat split.
Qed.

Lemma pushChildren_transform (e : El) (cs : list El) :
  transform (pushChildren e cs) = transform e.
Proof.
  unfold pushChildren. revert e. induction cs as [|c cs IH]; intros e; simpl; [reflexivity|].
  rewrite IH. reflexivity.
Qed.

Lemma applyStyle_clipPath (isT : bool) (defs : option DefsMap) (tr : option (option Matrix))
    (el : El) (z : gmap string string) :
  clipPath (applyStyle isT defs (withTransform tr el) z) = clipPath el.
Proof.
  unfold applyStyle. destruct (hasStroke _ _ _); destruct tr as [[m0|]|]; reflexivity.
Qed.

Lemma applyStyle_transform (isT : bool) (defs : option DefsMap) (tr : option (option Matrix))
    (el : El) (z : gmap string string) :
  transform (applyStyle isT defs (withTransform tr el) z)
  = match tr with
    | Some m => Some m
    | None => transform el
    end.
Proof.
  unfold applyStyle. destruct (hasStroke _ _ _); destruct tr as [[m0|]|]; reflexivity.
Qed.

Lemma applyStyle_frame (isT : bool) (defs : option DefsMap) (tr : option (option Matrix))
    (el : El) (z : gmap string string) :
  sameFrame tr el (applyStyle isT defs (withTransform tr el) z).
Proof.
  unfold sameFrame, applyStyle. destruct (hasStroke _ _ _); destruct tr as [[m0|]|];
    repeat split.
Qed.

(** What [parse] returns, when it returns. *)
Lemma parse_returned (parseFromString : string -> Node) (w : El -> number) (xml : Source)
    (opt : option SVGParserOption) (s s' : State) (r : SVGParserResult) :
  parse parseFromString w xml opt s = Ok r s' ->
  exists (svg : Node) (root0 : El) (added : list El) (s1 : State),
    parseXML parseFromString xml s = Ok (Some svg) s
    /\ this s1 = this s
    /\ parseChildren w (childNodes svg) root0 s1 = Ok added s'
    /\ type root0 = TGroup
    /\ scale root0 = placedBy (transform root0) Initial
    /\ (position root0 = placedBy (transform root0) Initial
        /\ (getAttribute svg "transform" = None -> transform root0 = None))
    /\ clipPath root0 = None /\ children root0 = []
    /\ isSvgElement svg = true
    /\ __inheritedStyle root0
       = Some (normalizeText (mergedStyle svg (newEl TGroup NoShape) true))
    /\ width r = viewportSize (getAttribute svg "width") (opt_width (default noOption opt))
    /\ height r = viewportSize (getAttribute svg "height") (opt_height (default noOption opt))
    /\ viewBoxRect r = parseViewBox (orElse (getAttribute svg "viewBox") "")
    /\ viewBoxTransform r
       = match viewBoxRect r, width r, height r with
         | Some b, Some w, Some h => Some (makeViewBoxTransform b w h)
         | _, _, _ => None
         end
    /\ root r
       = (let content := pushChildren root0 added in
          let root :=
            match viewBoxTransform r with
            | Some t =>
                if negb (ignoreViewBox (default noOption opt)) then
                  pushChild (newEl TGroup NoShape)
                    (setPosition (setScale content (ViewBoxTransform.scale t))
                       (VNum (ViewBoxTransform.position t).1,
                        VNum (ViewBoxTransform.position t).2))
                else content
            | None => content
            end in
          match width r, height r with
          | Some w, Some h =>
              if negb (ignoreRootClip (default noOption opt))
              then setClipPath root (viewportClip w h)
              else root
          | _, _ => root
          end).
Proof.
  unfold parse. cbv zeta. unfold bind at 1.
  destruct (parseXML parseFromString xml s) as [[svg|] s0|e s0] eqn:Exml; try discriminate.
  rewrite parseXML_chain in Exml. apply firstSvg_some in Exml as Hsvg.
  destruct Hsvg as (svg' & Heq & Helem & _ & ->). inversion Heq; subst svg'. clear Heq.
  destruct (parseAttributes_run_placed svg) as (tr & Htr & Hrun).
  unfold bind. rewrite Hrun.
  destruct (parseChildren w (childNodes svg) _ _) as [added s2|e s2] eqn:Ech; [|discriminate].
  intros H. inversion H. subst r s'. clear H.
  eexists svg, _, added, _.
  split; [reflexivity|]. split; [|split; [exact Ech|]]; [reflexivity|].
  pose proof (applyStyle_frame false None tr (newEl TGroup NoShape)
                (mergedStyle svg (newEl TGroup NoShape) true)) as (F1 & F2 & F3 & F5).
  pose proof (applyStyle_clipPath false None tr (newEl TGroup NoShape)
                (mergedStyle svg (newEl TGroup NoShape) true)) as F4.
  pose proof (applyStyle_transform false None tr (newEl TGroup NoShape)
                (mergedStyle svg (newEl TGroup NoShape) true)) as F6.
  cbn [isTextEl newEl type position scale transform] in *.
  assert (Hpl : forall A (p : Placed A),
             placedBy tr p = placedBy match tr with Some m => Some m | None => None end p)
    by (intros A p; destruct tr as [[m0|]|]; reflexivity).
  rewrite F6, <- !Hpl.
  split; [exact F1|]. split; [exact F3|]. split.
  { split; [exact F2|]. intros Hno. rewrite (Htr (or_intror Hno)). reflexivity. }
  repeat split; assumption.
Qed.

(** X2. When [parse] returns, the width and the height it reports are
    numbers or [null], never [NaN], and the viewBox transform is reported
    exactly when the viewBox rectangle, the width and the height all are; it
    is then [makeViewBoxTransform] of the three. *)
Theorem parse_reports_numbers_or_null (parseFromString : string -> Node) (w : El -> number)
    (xml : Source) (opt : option SVGParserOption) (s s' : State) (r : SVGParserResult) :
  parse parseFromString w xml opt s = Ok r s' ->
  (forall v, width r = Some v -> is_nan v = false)
  /\ (forall v, height r = Some v -> is_nan v = false)
  /\ (is_Some (viewBoxTransform r)
      <-> is_Some (viewBoxRect r) /\ is_Some (width r) /\ is_Some (height r))
  /\ (forall b v h, viewBoxRect r = Some b -> width r = Some v -> height r = Some h ->
                    viewBoxTransform r = Some (makeViewBoxTransform b v h)).
Proof.
  intros H. apply parse_returned in H
    as (svg & root0 & added & s1 & _ & _ & _ & _ & _ & _ & _ & _ & _ & _ & Hw & Hh & _ & Ht & _).
  assert (Hnan : forall a f v, viewportSize a f = Some v -> is_nan v = false).
  { intros a f v. unfold viewportSize.
    match goal with |- (if is_nan ?x then _ else _) = _ -> _ => destruct (is_nan x) eqn:E end;
      [discriminate|]. intros Hv. inversion Hv. subst v. exact E. }
  split; [intros v Hv; rewrite Hw in Hv; eapply Hnan; exact Hv|].
  split; [intros v Hv; rewrite Hh in Hv; eapply Hnan; exact Hv|].
  rewrite Ht. split.
  - destruct (viewBoxRect r), (width r), (height r); split;
      try (intros [x Hx]; discriminate Hx); try (intros (? & ? & [x Hx]); discriminate Hx);
      try (intros (? & [x Hx] & ?); discriminate Hx);
      try (intros ([x Hx] & ? & ?); discriminate Hx); eauto.
  - intros b v h -> -> ->. reflexivity.
Qed.

Lemma parse_reports_numbers_or_null_witness :
  exists r s',
    parse emptyDocument sevenWide
      (Parsed (element "svg" [("width", "100%"); ("height", "auto"); ("viewBox", "0 0 10 10")] [])
         [])
      (Some (mkOption None (Some 50%float) false false)) (mkState newSVGParser (mkGlobals [] 0))
    = Ok r s'
    /\ width r = Some 100%float /\ height r = None /\ viewBoxTransform r = None
    /\ (forall v, width r = Some v -> is_nan v = false)
    /\ (forall v, height r = Some v -> is_nan v = false)
    /\ (is_Some (viewBoxTransform r)
        <-> is_Some (viewBoxRect r) /\ is_Some (width r) /\ is_Some (height r))
    /\ (forall b v h, viewBoxRect r = Some b -> width r = Some v -> height r = Some h ->
                      viewBoxTransform r = Some (makeViewBoxTransform b v h)).
Proof.
  eexists _, _. split; [vm_compute; reflexivity|].
  split; [vm_compute; reflexivity|]. split; [vm_compute; reflexivity|].
  split; [vm_compute; reflexivity|].
  eapply (parse_reports_numbers_or_null emptyDocument sevenWide
            (Parsed (element "svg"
                       [("width", "100%"); ("height", "auto"); ("viewBox", "0 0 10 10")] []) [])
            (Some (mkOption None (Some 50%float) false false))
            (mkState newSVGParser (mkGlobals [] 0))).
  vm_compute. reflexivity.
Defined.

(** X3. When [parse] returns, the returned root carries a clip path exactly
    when the width and the height are both known and [ignoreRootClip] is off;
    the clip path is the rectangle from (0, 0) of that width and height. *)
Theorem parse_clips_the_root_to_the_viewport (parseFromString : string -> Node)
    (w : El -> number) (xml : Source) (opt : option SVGParserOption) (s s' : State)
    (r : SVGParserResult) :
  parse parseFromString w xml opt s = Ok r s' ->
  clipPath (root r)
  = match width r, height r with
    | Some v, Some h =>
        if ignoreRootClip (default noOption opt) then None else Some (viewportClip v h)
    | _, _ => None
    end.
Proof.
  intros H. apply parse_returned in H
    as (svg & root0 & added & s1 & _ & _ & _ & _ & _ & _ & Hc & _ & _ & _ & _ & _ & _ & _ & Hr).
  rewrite Hr. cbv zeta.
  destruct (pushChildren_frame root0 added) as (_ & _ & _ & Hcp & _).
  assert (Hroot : clipPath
                    match viewBoxTransform r with
                    | Some t =>
                        if negb (ignoreViewBox (default noOption opt)) then
                          pushChild (newEl TGroup NoShape)
                            (setPosition (setScale (pushChildren root0 added)
                                            (ViewBoxTransform.scale t))
                               (VNum (ViewBoxTransform.position t).1,
                                VNum (ViewBoxTransform.position t).2))
                        else pushChildren root0 added
                    | None => pushChildren root0 added
                    end = None).
  { destruct (viewBoxTransform r); [destruct (negb _)|]; simpl; congruence. }
  destruct (width r), (height r); try exact Hroot.
  destruct (ignoreRootClip (default noOption opt)); [exact Hroot|reflexivity].
Qed.

Lemma parse_clips_the_root_to_the_viewport_witness :
  exists r s',
    parse emptyDocument sevenWide
      (Parsed (element "svg" [("width", "200"); ("height", "100")] [element "rect" [] []]) [])
      None (mkState newSVGParser (mkGlobals [] 0))
    = Ok r s'
    /\ clipPath (root r) = Some (viewportClip 200 100).
Proof.
  eexists _, _. split; [vm_compute; reflexivity|].
  refine (eq_trans
            (parse_clips_the_root_to_the_viewport emptyDocument sevenWide
               (Parsed (element "svg" [("width", "200"); ("height", "100")]
                          [element "rect" [] []]) [])
               None (mkState newSVGParser (mkGlobals [] 0)) _ _ _) _);
    vm_compute; reflexivity.
Defined.

(** The frame of the root that [parse] returns: the clip path apart, it is
    the wrapper made for the viewBox or the content itself. *)
Lemma clipped_frame (b : bool) (e c : El) :
  type (if b then setClipPath e c else e) = type e
  /\ scale (if b then setClipPath e c else e) = scale e
  /\ position (if b then setClipPath e c else e) = position e
  /\ transform (if b then setClipPath e c else e) = transform e
  /\ children (if b then setClipPath e c else e) = children e.
Proof. destruct b; repeat split. Qed.

(** X4. When [parse] returns, the returned root is a group. When a viewBox
    transform was computed and [ignoreViewBox] is off, the root is a new
    group, with the scale and the position its constructor gave it and no
    transform, whose one child is the parsed content; that child carries the
    scale and the position of the viewBox transform and no clip path.
    Otherwise the root is the parsed content itself, which [parse] gives
    neither a scale nor a position: they are those [setLocalTransform]
    derived from the [transform] attribute of the [svg] element, and those of
    the constructor when the element has no such attribute. *)
Theorem parse_wraps_the_content_for_the_viewBox (parseFromString : string -> Node)
    (w : El -> number) (xml : Source) (opt : option SVGParserOption) (s s' : State)
    (r : SVGParserResult) :
  parse parseFromString w xml opt s = Ok r s' ->
  type (root r) = TGroup
  /\ (forall t, viewBoxTransform r = Some t -> ignoreViewBox (default noOption opt) = false ->
        scale (root r) = Initial /\ position (root r) = Initial /\ transform (root r) = None
        /\ exists content,
             children (root r) = [content] /\ type content = TGroup
             /\ scale content = Given (ViewBoxTransform.scale t)
             /\ position content
                = Given (VNum (ViewBoxTransform.position t).1,
                         VNum (ViewBoxTransform.position t).2)
             /\ clipPath content = None)
  /\ (viewBoxTransform r = None \/ ignoreViewBox (default noOption opt) = true ->
        scale (root r) = placedBy (transform (root r)) Initial
        /\ position (root r) = placedBy (transform (root r)) Initial
        /\ exists svg,
             parseXML parseFromString xml s = Ok (Some svg) s
             /\ (getAttribute svg "transform" = None ->
                 transform (root r) = None /\ scale (root r) = Initial
                 /\ position (root r) = Initial)).
Proof.
  intros H. apply parse_returned in H
    as (svg & root0 & added & s1 & Hxml & _ & _ & Hty & Hsc & (Hpos & Htr) & Hc & _ & _ & _
        & _ & _ & _ & _ & Hr).
  destruct (pushChildren_frame root0 added) as (Pty & Psc & Ppos & Pcp & _).
  pose proof (pushChildren_transform root0 added) as Ptr.
  rewrite Hty in Pty. rewrite Hc in Pcp. rewrite Hsc, <- Ptr in Psc. rewrite Hpos, <- Ptr in Ppos.
  assert (Hno : getAttribute svg "transform" = None ->
                transform (pushChildren root0 added) = None).
  { intros Ha. rewrite Ptr. exact (Htr Ha). }
  clear Hty Hsc Hpos Htr Hc Ptr.
  remember (pushChildren root0 added) as content eqn:Econtent. clear Econtent.
  cbv zeta in Hr.
  assert (Hroot : exists inner,
             type (root r) = type inner /\ scale (root r) = scale inner
             /\ position (root r) = position inner /\ transform (root r) = transform inner
             /\ children (root r) = children inner
             /\ inner = match viewBoxTransform r with
                        | Some t =>
                            if negb (ignoreViewBox (default noOption opt)) then
                              pushChild (newEl TGroup NoShape)
                                (setPosition (setScale content (ViewBoxTransform.scale t))
                                   (VNum (ViewBoxTransform.position t).1,
                                    VNum (ViewBoxTransform.position t).2))
                            else content
                        | None => content
                        end).
  { eexists. rewrite Hr.
    destruct (width r) as [v|], (height r) as [h|];
      try (match goal with
           | |- context [if ?b then setClipPath ?e ?c else ?e] =>
               destruct (clipped_frame b e c) as (C1 & C2 & C3 & C4 & C5);
               rewrite C1, C2, C3, C4, C5
           end);
      repeat split. }
  destruct Hroot as (inner & -> & -> & -> & -> & -> & ->).
  destruct (viewBoxTransform r) as [t|].
  - destruct (ignoreViewBox (default noOption opt)); cbn [negb].
    + split; [exact Pty|]. split; [intros t0 _ Hd; discriminate Hd|].
      intros _. split; [exact Psc|]. split; [exact Ppos|].
      exists svg. split; [exact Hxml|]. intros Ha.
      rewrite Psc, Ppos, (Hno Ha). repeat split.
    + split; [reflexivity|]. split.
      * intros t0 Ht0 _. inversion Ht0. subst t0.
        repeat (split; [reflexivity|]).
        eexists. split; [reflexivity|]. cbn. repeat split; assumption.
      * intros [Hd|Hd]; discriminate Hd.
  - split; [exact Pty|]. split; [intros t0 Hd; discriminate Hd|].
    intros _. split; [exact Psc|]. split; [exact Ppos|].
    exists svg. split; [exact Hxml|]. intros Ha.
    rewrite Psc, Ppos, (Hno Ha). repeat split.
Qed.

Lemma parse_wraps_the_content_for_the_viewBox_witness :
  exists r s',
    parse emptyDocument sevenWide
      (Parsed (element "svg"
                 [("width", "200"); ("height", "200"); ("viewBox", "0 0 100 50");
                  ("transform", "translate(57)")]
                 [element "rect" [] []]) [])
      None (mkState newSVGParser (mkGlobals [] 0))
    = Ok r s'
    /\ viewBoxTransform r = Some (ViewBoxTransform.mk (2, 2) (0, 50))%float
    /\ type (root r) = TGroup
    /\ (forall t, viewBoxTransform r = Some t -> ignoreViewBox (default noOption None) = false ->
          scale (root r) = Initial /\ position (root r) = Initial /\ transform (root r) = None
          /\ exists content,
               children (root r) = [content] /\ type content = TGroup
               /\ scale content = Given (ViewBoxTransform.scale t)
               /\ position content
                  = Given (VNum (ViewBoxTransform.position t).1,
                           VNum (ViewBoxTransform.position t).2)
               /\ clipPath content = None)
    /\ (viewBoxTransform r = None \/ ignoreViewBox (default noOption None) = true ->
          scale (root r) = placedBy (transform (root r)) Initial
          /\ position (root r) = placedBy (transform (root r)) Initial
          /\ exists svg,
               parseXML emptyDocument
                 (Parsed (element "svg"
                            [("width", "200"); ("height", "200"); ("viewBox", "0 0 100 50");
                             ("transform", "translate(57)")]
                            [element "rect" [] []]) [])
                 (mkState newSVGParser (mkGlobals [] 0))
               = Ok (Some svg) (mkState newSVGParser (mkGlobals [] 0))
               /\ (getAttribute svg "transform" = None ->
                   transform (root r) = None /\ scale (root r) = Initial
                   /\ position (root r) = Initial)).
Proof.
  eexists _, _. split; [vm_compute; reflexivity|]. split; [vm_compute; reflexivity|].
  eapply (parse_wraps_the_content_for_the_viewBox emptyDocument sevenWide
            (Parsed (element "svg"
                       [("width", "200"); ("height", "200"); ("viewBox", "0 0 100 50");
                        ("transform", "translate(57)")]
                       [element "rect" [] []]) [])
            None (mkState newSVGParser (mkGlobals [] 0))).
  vm_compute. reflexivity.
Defined.

(** Without a viewBox the root that carries [transform="translate(57)"] is
    placed by that transform, which [setLocalTransform] was given as the
    translation by (5, 7): the argument is read character by character. *)
Lemma root_is_placed_by_its_transform :
  exists r s',
    parse emptyDocument sevenWide
      (Parsed (element "svg" [("transform", "translate(57)")] []) [])
      None (mkState newSVGParser (mkGlobals [] 0))
    = Ok r s'
    /\ position (root r) = FromMatrix (MTranslate MCreate 5 7)
    /\ scale (root r) = FromMatrix (MTranslate MCreate 5 7).
Proof. eexists _, _. repeat split. Qed.

(** *** What a computation leaves untouched *)

Lemma throws_TypeError_only {A} (m : M A) (s s' : State) (e : Exn) :
  respects m -> m s = Throw e s' -> e = TypeError.
Proof.
  intros Hm H. specialize (Hm s s eq_refl). rewrite H in Hm. simpl in Hm. tauto.
Qed.

Lemma keeps_ret {B A} (proj : State -> B) (a : A) : keeps proj (ret a).
Proof. intros s. reflexivity. Qed.

Lemma keeps_throw {B A} (proj : State -> B) (e : Exn) : keeps proj (@throw A e).
Proof. intros s. reflexivity. Qed.

Lemma keeps_bind {B A C} (proj : State -> B) (m : M A) (k : A -> M C) :
  keeps proj m -> (forall a, keeps proj (k a)) -> keeps proj (bind m k).
Proof.
  intros Hm Hk s. unfold bind. specialize (Hm s).
  destruct (m s) as [a s1|e s1]; simpl in *; [|exact Hm].
  rewrite Hk. exact Hm.
Qed.

Lemma keeps_getThis {B} (proj : State -> B) : keeps proj getThis.
Proof. intros s. reflexivity. Qed.

Lemma keeps_requireElement {B} (proj : State -> B) (n : Node) : keeps proj (requireElement n).
Proof. intros s. unfold requireElement. destruct (nodeType n =? 1)%N; reflexivity. Qed.

Lemma keeps_requireGroup {B} (proj : State -> B) (g : option El) : keeps proj (requireGroup g).
Proof.
  intros s. unfold requireGroup. destruct g as [g|]; [destruct (isGroup g)|]; reflexivity.
Qed.

Lemma keeps_returned {B A} (proj : State -> B) (m : M A) (s s' : State) (a : A) :
  keeps proj m -> m s = Ok a s' -> proj s' = proj s.
Proof. intros Hm H. specialize (Hm s). rewrite H in Hm. exact Hm. Qed.

Lemma afterAttributes_console (xmlNode : Node) (g : Globals) :
  console (afterAttributes xmlNode g) = console g.
Proof.
  unfold afterAttributes, afterStyleScan. destruct (nodeType xmlNode =? 1)%N; [|reflexivity].
  destruct (getAttribute xmlNode "style") as [st|]; [destruct (nonEmpty st)|]; reflexivity.
Qed.

Lemma keeps_mode_parseAttributes (xmlNode : Node) (el : El) (defs : option DefsMap)
    (onlyInlineStyle : bool) :
  keeps modeOf (parseAttributes xmlNode el defs onlyInlineStyle).
Proof.
  destruct (parseAttributes_run xmlNode) as [tr H]. intros s. rewrite H.
  unfold modeOf. simpl. rewrite afterAttributes_console. reflexivity.
Qed.

Lemma keeps_mode_colorStopsFrom (stops : list Node) (acc : list (number * string)) :
  keeps modeOf (colorStopsFrom stops acc).
Proof.
  revert acc. induction stops as [|stop r IH]; intros acc; simpl; [apply keeps_ret|].
  destruct (nodeType stop =? 1)%N; [|apply IH].
  destruct (getAttribute stop "offset"); [apply IH|apply keeps_throw].
Qed.

Create HintDb keeps.
#[local] Hint Resolve keeps_ret keeps_throw keeps_getThis keeps_requireElement
  keeps_requireGroup keeps_mode_parseAttributes keeps_mode_colorStopsFrom : keeps.

(** One step of a proof that a computation keeps a component: a bind is
    split, a test is decided either way, a write to another field is
    computed. *)
Ltac keeps_step :=
  first
    [ solve [auto with keeps]
    | apply keeps_bind; [|intros ?]
    | match goal with
      | |- keeps _ (if ?b then _ else _) => destruct b
      | |- keeps _ (match ?x with _ => _ end) => destruct x
      | |- keeps _ (let _ := _ in _) => cbv zeta
      end
    | solve [intros ?; reflexivity] ].

Ltac keeps_tac := repeat keeps_step.

Lemma keeps_mode_inheritAndParse (xmlNode : Node) (parentGroup : option El) (el : El) :
  keeps modeOf (inheritAndParse xmlNode parentGroup el).
Proof. unfold inheritAndParse. keeps_tac. Qed.

#[local] Hint Resolve keeps_mode_inheritAndParse : keeps.

Lemma keeps_mode_nodeParsers (nodeName : string) (parser : Node -> option El -> M El) :
  nodeParsers nodeName = Some parser ->
  forall xmlNode parentGroup, keeps modeOf (parser xmlNode parentGroup).
Proof.
  unfold nodeParsers.
  repeat match goal with
         | |- (if ?b then _ else _) = _ -> _ => destruct b
         end;
    try discriminate; intros H xmlNode parentGroup; inversion H; subst parser.
  - unfold parse_g. keeps_tac.
  - unfold parse_rect. keeps_tac.
  - unfold parse_circle. keeps_tac.
  - unfold parse_line. keeps_tac.
  - unfold parse_ellipse. keeps_tac.
  - unfold parse_polygon. keeps_tac.
  - unfold parse_polyline. keeps_tac.
  - unfold parse_image. keeps_tac.
  - unfold parse_text. keeps_tac.
  - unfold parse_tspan. keeps_tac.
  - unfold parse_path. keeps_tac.
Qed.

Lemma keeps_mode__parseText (w : El -> number) (xmlNode : Node) (parentGroup : option El) :
  keeps modeOf (_parseText w xmlNode parentGroup).
Proof. unfold _parseText. keeps_tac. Qed.

Lemma keeps_mode_defineParsers (nodeName : string) (parser : Node -> M LinearGradient) :
  defineParsers nodeName = Some parser -> forall xmlNode, keeps modeOf (parser xmlNode).
Proof.
  unfold defineParsers. destruct (String.eqb nodeName "lineargradient"); [|discriminate].
  intros H xmlNode. inversion H. subst parser.
  unfold parse_lineargradient, _parseGradientColorStops. keeps_tac.
Qed.

Lemma keeps_mode_callDefineParser (nodeName : string) (xmlNode : Node) :
  keeps modeOf (callDefineParser (entryOf defineParsers nodeName) xmlNode).
Proof.
  unfold entryOf. destruct (defineParsers nodeName) as [parser|] eqn:E.
  - pose proof (keeps_mode_defineParsers _ _ E). simpl. keeps_tac.
  - repeat destruct (String.eqb _ _); simpl; keeps_tac.
Qed.

Lemma keeps_mode_callNodeParser (nodeName : string) (xmlNode : Node) (parentGroup : option El) :
  keeps modeOf (callNodeParser (entryOf nodeParsers nodeName) xmlNode parentGroup).
Proof.
  unfold entryOf. destruct (nodeParsers nodeName) as [parser|] eqn:E.
  - pose proof (keeps_mode_nodeParsers _ _ E). simpl. keeps_tac.
  - repeat destruct (String.eqb _ _); simpl; keeps_tac.
Qed.

Lemma modeOf_console (s s' : State) : modeOf s' = modeOf s -> consoleOf s' = consoleOf s.
Proof. unfold modeOf, consoleOf. intros H. inversion H. reflexivity. Qed.

Lemma modeOf_define (s s' : State) : modeOf s' = modeOf s -> defineOf s' = defineOf s.
Proof. unfold modeOf, defineOf. intros H. inversion H. reflexivity. Qed.

Lemma keeps_weaken {B C A} (proj : State -> B) (proj' : State -> C) (m : M A) :
  (forall s s', proj s' = proj s -> proj' s' = proj' s) -> keeps proj m -> keeps proj' m.
Proof. intros Hw Hm s. apply Hw. apply Hm. Qed.

(** *** The console *)

Lemma keeps_console_parseAttributes (xmlNode : Node) (el : El) (defs : option DefsMap)
    (onlyInlineStyle : bool) :
  keeps consoleOf (parseAttributes xmlNode el defs onlyInlineStyle).
Proof. eapply keeps_weaken; [apply modeOf_console|apply keeps_mode_parseAttributes]. Qed.

Lemma keeps_console__parseText (w : El -> number) (xmlNode : Node) (parentGroup : option El) :
  keeps consoleOf (_parseText w xmlNode parentGroup).
Proof. eapply keeps_weaken; [apply modeOf_console|apply keeps_mode__parseText]. Qed.

Lemma keeps_console_nodeParsers (nodeName : string) (parser : Node -> option El -> M El) :
  nodeParsers nodeName = Some parser ->
  forall xmlNode parentGroup, keeps consoleOf (parser xmlNode parentGroup).
Proof.
  intros H xmlNode parentGroup.
  eapply keeps_weaken; [apply modeOf_console|eapply keeps_mode_nodeParsers; exact H].
Qed.

Lemma keeps_console_defineParsers (nodeName : string) (parser : Node -> M LinearGradient) :
  defineParsers nodeName = Some parser -> forall xmlNode, keeps consoleOf (parser xmlNode).
Proof.
  intros H xmlNode.
  eapply keeps_weaken; [apply modeOf_console|eapply keeps_mode_defineParsers; exact H].
Qed.

Lemma keeps_console_callDefineParser (nodeName : string) (xmlNode : Node) :
  keeps consoleOf (callDefineParser (entryOf defineParsers nodeName) xmlNode).
Proof. eapply keeps_weaken; [apply modeOf_console|apply keeps_mode_callDefineParser]. Qed.

Lemma keeps_console_callNodeParser (nodeName : string) (xmlNode : Node)
    (parentGroup : option El) :
  keeps consoleOf (callNodeParser (entryOf nodeParsers nodeName) xmlNode parentGroup).
Proof. eapply keeps_weaken; [apply modeOf_console|apply keeps_mode_callNodeParser]. Qed.

#[local] Hint Resolve keeps_console_parseAttributes keeps_console__parseText
  keeps_console_callDefineParser keeps_console_callNodeParser : keeps.

Lemma keeps_console_visitChildren (w : El -> number) (cs : list Node) :
  Forall (fun c => forall parentGroup, keeps consoleOf (_parseNode w c parentGroup)) cs ->
  forall el, keeps consoleOf (visitChildren w el cs).
Proof.
  induction 1 as [|c r Hc Hr IH]; intros el.
  - rewrite visitChildren_nil. keeps_tac.
  - rewrite visitChildren_cons. keeps_tac.
Qed.

Lemma keeps_console__parseNode (w : El -> number) (xmlNode : Node) :
  forall parentGroup, keeps consoleOf (_parseNode w xmlNode parentGroup).
Proof.
  induction xmlNode as [ty name attrs v cs IH] using Node_children_ind.
  intros parentGroup. rewrite _parseNode_eq. cbv zeta.
  apply keeps_bind; [keeps_tac|intros _].
  apply keeps_bind; [keeps_tac|intros p].
  apply keeps_bind.
  - destruct (_isDefine p); destruct (isEntry _); keeps_tac.
  - intros el. apply keeps_bind; [apply keeps_console_visitChildren; exact IH|intros added].
    keeps_tac.
Qed.

#[local] Hint Resolve keeps_console__parseNode : keeps.

Lemma keeps_console_parseChildren (w : El -> number) (cs : list Node) (root : El) :
  keeps consoleOf (parseChildren w cs root).
Proof. induction cs as [|c r IH]; simpl; keeps_tac. Qed.

Lemma keeps_firstSvg {B} (proj : State -> B) (chain : list Node) : keeps proj (firstSvg chain).
Proof. induction chain as [|n r IH]; simpl; keeps_tac. Qed.

#[local] Hint Resolve keeps_console_parseChildren keeps_firstSvg : keeps.

Lemma keeps_console_parse (parseFromString : string -> Node) (w : El -> number) (xml : Source)
    (opt : option SVGParserOption) :
  keeps consoleOf (parse parseFromString w xml opt).
Proof. unfold parse. cbv zeta. rewrite parseXML_chain. keeps_tac. Qed.

(** X5. No call of [parseSVG] writes to the console, whether it returns or
    throws: the one [console.warn] of the file is out of reach. *)
Theorem parseSVG_never_writes_to_the_console (parseFromString : string -> Node)
    (getBoundingRectWidth : El -> number) (xml : Source) (opt : option SVGParserOption)
    (g : Globals) :
  console (snd (parseSVG parseFromString getBoundingRectWidth xml opt g)) = console g.
Proof.
  unfold parseSVG.
  pose proof (keeps_console_parse parseFromString getBoundingRectWidth xml opt
                (mkState newSVGParser g)) as H.
  destruct (parse parseFromString getBoundingRectWidth xml opt (mkState newSVGParser g));
    exact H.
Qed.

(** *** The define flag *)

Lemma visitChildren_leaves_define_off (w : El -> number) (cs : list Node) :
  Forall (fun c => forall pg s r s',
            defineOf s = false -> _parseNode w c pg s = Ok r s' -> defineOf s' = false) cs ->
  forall el s r s',
    defineOf s = false -> visitChildren w el cs s = Ok r s' -> defineOf s' = false.
Proof.
  induction 1 as [|c cs Hc Hcs IH]; intros el s r s' Hs H.
  - rewrite visitChildren_nil in H. inversion H. subst. exact Hs.
  - rewrite visitChildren_cons in H.
    apply bind_returned in H as (a1 & s1 & H1 & H).
    apply bind_returned in H as (p & s2 & Hp & H). inversion Hp. subst p s2. clear Hp.
    apply bind_returned in H as (a2 & s3 & H2 & H).
    apply bind_returned in H as (rest & s4 & H4 & H). inversion H. subst. clear H.
    assert (Hs1 : defineOf s1 = false).
    { destruct (nodeType c =? 1)%N; [eapply Hc; eassumption|].
      inversion H1. subst. exact Hs. }
    assert (Hs3 : defineOf s3 = false).
    { destruct ((nodeType c =? 3)%N && _isText (this s1)).
      - rewrite <- Hs1. apply modeOf_define.
        eapply keeps_returned; [apply keeps_mode__parseText|exact H2].
      - inversion H2. subst. exact Hs1. }
    eapply IH; eassumption.
Qed.

(** [_parseNode] returns with the define flag off when it was entered with
    the flag off: the flag is raised on entering [defs] and lowered on
    leaving it. *)
Lemma _parseNode_leaves_define_off (w : El -> number) (xmlNode : Node) :
  forall pg s r s',
    defineOf s = false -> _parseNode w xmlNode pg s = Ok r s' -> defineOf s' = false.
Proof.
  induction xmlNode as [ty name attrs v cs IH] using Node_children_ind.
  intros pg s r s' Hs H. rewrite _parseNode_eq in H. cbv zeta in H.
  apply bind_returned in H as (u & s1 & Hpre & H).
  apply bind_returned in H as (p & s2 & Hp & H). inversion Hp. subst p s2. clear Hp.
  apply bind_returned in H as (el & s3 & Hel & H).
  apply bind_returned in H as (added & s4 & Hvis & H).
  apply bind_returned in H as (u' & s5 & Hpost & H). inversion H. subst. clear H.
  destruct (String.eqb (toLowerCase name) "defs") eqn:Edefs.
  - inversion Hpost. reflexivity.
  - assert (Hs1 : defineOf s1 = false).
    { destruct (String.eqb (toLowerCase name) "text"); inversion Hpre; subst; exact Hs. }
    assert (Hs5 : defineOf s' = defineOf s4).
    { destruct (String.eqb (toLowerCase name) "text"); inversion Hpost; subst; reflexivity. }
    rewrite Hs5. clear Hs5 Hpost.
    unfold defineOf in Hs1. rewrite Hs1 in Hel.
    assert (Hs3 : defineOf s3 = false).
    { destruct (isEntry (entryOf nodeParsers (toLowerCase name))).
      - apply bind_returned in Hel as (el0 & s2 & Hb & Hel).
        apply bind_returned in Hel as (g & s2' & Hg & Hel). inversion Hel. subst. clear Hel.
        rewrite (modeOf_define _ _ (keeps_returned modeOf _ _ _ _ (keeps_requireGroup _ _) Hg)).
        rewrite (modeOf_define _ _ (keeps_returned modeOf _ _ _ _
                                      (keeps_mode_callNodeParser _ _ _) Hb)).
        exact Hs1.
      - inversion Hel. subst. exact Hs1. }
    eapply visitChildren_leaves_define_off; eassumption.
Qed.

(** *** What the children of the root add *)

Lemma inheritAndParse_returned (xmlNode : Node) (parentGroup : option El) (el el' : El)
    (s s' : State) :
  inheritAndParse xmlNode parentGroup el s = Ok el' s' -> exists tr, sameFrame tr el el'.
Proof.
  destruct (parseAttributes_run xmlNode) as [tr Hrun].
  unfold inheritAndParse. intros H.
  apply bind_returned in H as (p & s1 & Hp & H). rewrite Hrun in H. inversion H.
  exists tr. apply styled_frame.
Qed.

(** Every builder returns a node of its class, without children. *)
Lemma nodeParsers_builtType (nodeName : string) (parser : Node -> option El -> M El)
    (xmlNode : Node) (parentGroup : option El) (s s' : State) (el : El) :
  nodeParsers nodeName = Some parser -> parser xmlNode parentGroup s = Ok el s' ->
  builtType nodeName = Some (type el) /\ children el = [].
Proof.
  unfold nodeParsers, builtType.
  repeat match goal with
         | |- (if ?b then _ else _) = _ -> _ => destruct b
         end;
    try discriminate; intros H Hrun; inversion H; subst parser; clear H;
    [ unfold parse_g in Hrun | unfold parse_rect in Hrun | unfold parse_circle in Hrun
    | unfold parse_line in Hrun | unfold parse_ellipse in Hrun | unfold parse_polygon in Hrun
    | unfold parse_polyline in Hrun | unfold parse_image in Hrun | unfold parse_text in Hrun
    | unfold parse_tspan in Hrun | unfold parse_path in Hrun ];
    binds Hrun;
    try match goal with
        | H : inheritAndParse _ _ _ _ = Ok _ _ |- _ =>
            apply inheritAndParse_returned in H as (tr0 & Hty & _ & _ & Hch)
        end;
    try (inversion Hrun; subst; clear Hrun);
    try match goal with
        | H : inheritAndParse _ _ _ _ = Ok _ _ |- _ =>
            apply inheritAndParse_returned in H as (tr0 & Hty & _ & _ & Hch)
        end;
    simpl in *; try rewrite Hty; try rewrite Hch; split; reflexivity.
Qed.

Lemma nodeParsers_none (nodeName : string) :
  nodeParsers nodeName = None -> builtType nodeName = None.
Proof.
  unfold nodeParsers, builtType.
  repeat match goal with
         | |- (if ?b then _ else _) = _ -> _ => destruct b
         end; try discriminate; reflexivity.
Qed.

Lemma defs_has_no_builder (nodeName : string) :
  String.eqb nodeName "defs" = true -> nodeParsers nodeName = None.
Proof. intros H. apply String.eqb_eq in H. subst. reflexivity. Qed.

Lemma requireGroup_returned (pg : option El) (s s' : State) (g : El) :
  requireGroup pg s = Ok g s' -> canHoldChildren pg = true /\ s' = s.
Proof.
  unfold requireGroup, canHoldChildren. destruct pg as [e|]; [|discriminate].
  destruct (isGroup e); [|discriminate]. intros H. inversion H. split; reflexivity.
Qed.

(** What is added to the scene for a node, outside [defs]: the node of its
    builder, the DOM node itself under the inherited name [constructor], and
    nothing under a name without an entry. *)
Lemma drawn_returned (nodeName : string) (xmlNode : Node) (pg : option El) (s s' : State)
    (el : option El) :
  (if isEntry (entryOf nodeParsers nodeName) then
     el <- callNodeParser (entryOf nodeParsers nodeName) xmlNode pg ;;
     requireGroup pg ;;
     ret (Some el)
   else ret None) s = Ok el s' ->
  modeOf s' = modeOf s
  /\ match el with
     | Some e => addedType nodeName = Some (type e) /\ children e = []
                 /\ canHoldChildren pg = true
     | None => hasNoEntry nodeName = true
     end.
Proof.
  unfold entryOf, addedType, hasNoEntry. destruct (nodeParsers nodeName) as [parser|] eqn:E.
  - cbn [isEntry callNodeParser]. intros H.
    apply bind_returned in H as (el0 & s2 & Hb & H).
    apply bind_returned in H as (g & s3 & Hg & H). inversion H. subst. clear H.
    destruct (nodeParsers_builtType _ _ _ _ _ _ _ E Hb) as [-> Hch].
    destruct (requireGroup_returned _ _ _ _ Hg) as [Hhold ->].
    split; [exact (keeps_returned modeOf _ _ _ _ (keeps_mode_nodeParsers _ _ E _ _) Hb)|].
    repeat split; assumption.
  - rewrite (nodeParsers_none _ E).
    destruct (String.eqb nodeName "constructor");
      [|destruct (String.eqb nodeName "__proto__")]; cbn [isEntry callNodeParser]; intros H.
    + apply bind_returned in H as (el0 & s2 & Hb & H).
      apply bind_returned in H as (g & s3 & Hg & H). inversion H. subst. clear H.
      inversion Hb. subst. destruct (requireGroup_returned _ _ _ _ Hg) as [Hhold ->].
      repeat split. exact Hhold.
    + discriminate H.
    + inversion H. split; reflexivity.
Qed.

Lemma respects_drawn (nodeName : string) (xmlNode : Node) (pg : option El) :
  respects (if isEntry (entryOf nodeParsers nodeName) then
              el <- callNodeParser (entryOf nodeParsers nodeName) xmlNode pg ;;
              requireGroup pg ;;
              ret (Some el)
            else ret None).
Proof. destruct (isEntry _); respects_tac. Qed.

(** In define mode nothing is added to the scene. *)
Lemma defined_returned (nodeName : string) (xmlNode : Node) (s s' : State) (el : option El) :
  (if isEntry (entryOf defineParsers nodeName) then
     def <- callDefineParser (entryOf defineParsers nodeName) xmlNode ;;
     requireElement xmlNode ;;
     match getAttribute xmlNode "id" with
     | Some id =>
         if nonEmpty id
         then setThis (fun p => with_defs (<[id := def]> (_defs p)) p)
         else ret tt
     | None => ret tt
     end ;;
     ret None
   else ret None) s = Ok el s' ->
  el = None.
Proof.
  destruct (isEntry _); intros H; [|inversion H; reflexivity].
  binds H. inversion H. reflexivity.
Qed.

Lemma hasNoEntry_adds_nothing (nodeName : string) :
  hasNoEntry nodeName = true -> addedType nodeName = None.
Proof.
  unfold hasNoEntry, addedType. destruct (builtType nodeName); [discriminate|].
  destruct (String.eqb nodeName "constructor"); [discriminate|reflexivity].
Qed.

(** What a node adds to its parent, outside [defs]. *)
Lemma _parseNode_adds (w : El -> number) (ty : N) (name : string)
    (attrs : gmap string string) (v : string) (cs : list Node) (pg : option El)
    (s s' : State) (r : list El) :
  defineOf s = false -> _parseNode w (mkNode ty name attrs v cs) pg s = Ok r s' ->
  map type r = match addedType (toLowerCase name) with
               | Some T => [T]
               | None => []
               end.
Proof.
  intros Hs H. rewrite _parseNode_eq in H. cbv zeta in H.
  apply bind_returned in H as (u & s1 & Hpre & H).
  apply bind_returned in H as (p & s2 & Hp & H). inversion Hp. subst p s2. clear Hp.
  apply bind_returned in H as (el & s3 & Hel & H).
  apply bind_returned in H as (added & s4 & Hvis & H).
  apply bind_returned in H as (u' & s5 & Hpost & H). inversion H. subst. clear H Hpost Hvis.
  destruct (String.eqb (toLowerCase name) "defs") eqn:Edefs.
  - inversion Hpre. subst. cbn [this _isDefine with_isDefine] in Hel.
    rewrite (defined_returned (toLowerCase name) (mkNode ty name attrs v cs) _ _ _ Hel).
    apply String.eqb_eq in Edefs. rewrite Edefs. reflexivity.
  - assert (Hs1 : defineOf s1 = false).
    { destruct (String.eqb (toLowerCase name) "text"); inversion Hpre; subst; exact Hs. }
    unfold defineOf in Hs1. rewrite Hs1 in Hel.
    destruct (drawn_returned (toLowerCase name) (mkNode ty name attrs v cs) _ _ _ _ Hel)
      as [_ Hd].
    destruct el as [e|].
    + destruct Hd as (-> & _). simpl.
      destruct (pushChildren_frame e added) as (-> & _). reflexivity.
    + rewrite (hasNoEntry_adds_nothing _ Hd). reflexivity.
Qed.

Lemma parseChildren_types (w : El -> number) (cs : list Node) (root : El) (s s' : State)
    (added : list El) :
  defineOf s = false -> parseChildren w cs root s = Ok added s' ->
  map type added = addedTypes cs.
Proof.
  revert s added. induction cs as [|c cs IH]; intros s added Hs H; simpl in H.
  - inversion H. reflexivity.
  - apply bind_returned in H as (a & s1 & Ha & H).
    apply bind_returned in H as (rest & s2 & Hrest & H). inversion H. subst. clear H.
    rewrite map_app. unfold addedTypes. simpl.
    rewrite (IH s1 rest (_parseNode_leaves_define_off w c _ _ _ _ Hs Ha) Hrest).
    destruct c as [ty name attrs v ccs].
    rewrite (_parseNode_adds w ty name attrs v ccs _ _ _ _ Hs Ha). simpl.
    destruct (addedType (toLowerCase name)); reflexivity.
Qed.

(** X6. When [parseSVG] returns, the children of the content group are, in
    document order, one node for each child of the [svg] element whose
    lower-cased name has an entry in [nodeParsers]: a node of the class of
    the builder of that name, or the DOM node itself for a child named
    [constructor], an entry that [nodeParsers] inherits from
    [Object.prototype]; the other children (text, comments, [defs], nodes
    without an entry) add nothing. *)
Theorem parseSVG_keeps_document_order (parseFromString : string -> Node)
    (getBoundingRectWidth : El -> number) (xml : Source) (opt : option SVGParserOption)
    (g g' : Globals) (r : SVGParserResult) :
  parseSVG parseFromString getBoundingRectWidth xml opt g = (Returned r, g') ->
  exists (svg : Node) (content : El),
    parseXML parseFromString xml (mkState newSVGParser g)
    = Ok (Some svg) (mkState newSVGParser g)
    /\ contentOf opt r = Some content
    /\ map type (children content) = addedTypes (childNodes svg).
Proof.
  unfold parseSVG.
  destruct (parse parseFromString getBoundingRectWidth xml opt (mkState newSVGParser g))
    as [r0 s0|e s0] eqn:E; intros H; inversion H; subst; clear H.
  apply parse_returned in E
    as (svg & root0 & added & s1 & Hxml & Hthis & Hch & _ & _ & _ & _ & Hc0 & _ & _ & _ & _ & _ & _ & Hr).
  assert (Hadded : map type added = addedTypes (childNodes svg)).
  { eapply parseChildren_types; [|exact Hch]. unfold defineOf. rewrite Hthis. reflexivity. }
  destruct (pushChildren_frame root0 added) as (_ & _ & _ & _ & _ & Hpc).
  rewrite Hc0 in Hpc. simpl in Hpc.
  exists svg. unfold contentOf. rewrite Hr. cbv zeta.
  destruct (viewBoxTransform r) as [t|]; [destruct (ignoreViewBox (default noOption opt))|];
    cbn [negb]; destruct (width r), (height r);
    try destruct (negb (ignoreRootClip (default noOption opt)));
    (eexists; split; [exact Hxml|split; [reflexivity|]]);
    cbn [children setClipPath pushChild setPosition setScale newEl app head];
    rewrite Hpc; exact Hadded.
Qed.

Lemma parseSVG_keeps_document_order_witness :
  exists (svg : Node) (content : El) (r : SVGParserResult) (g' : Globals),
    parseSVG emptyDocument sevenWide
      (Parsed (element "svg" [("width", "20"); ("height", "10"); ("viewBox", "0 0 2 1")]
                 [text " "; element "rect" [] []; comment "c"; element "title" [] [text "t"];
                  element "constructor" [] [];
                  element "defs" [] [element "circle" [] []]; element "G" [] [];
                  element "polyline" [("points", "0,0 1,1")] []]) [])
      None (mkGlobals [] 0)
    = (Returned r, g')
    /\ contentOf None r = Some content
    /\ addedTypes (childNodes svg) = [TRect; TDomNode; TGroup; TPolyline]
    /\ map type (children content) = addedTypes (childNodes svg).
Proof.
  destruct (parseSVG_keeps_document_order emptyDocument sevenWide
              (Parsed (element "svg" [("width", "20"); ("height", "10"); ("viewBox", "0 0 2 1")]
                         [text " "; element "rect" [] []; comment "c";
                          element "title" [] [text "t"]; element "constructor" [] [];
                          element "defs" [] [element "circle" [] []]; element "G" [] [];
                          element "polyline" [("points", "0,0 1,1")] []]) [])
              None (mkGlobals [] 0) _ _ eq_refl) as (svg & content & Hxml & Hc & Hm).
  exists svg, content. eexists _, _. split; [reflexivity|]. split; [exact Hc|].
  split; [|exact Hm].
  vm_compute in Hxml. inversion Hxml. vm_compute. reflexivity.
Defined.

(** *** Definitions are not drawn *)

(** X7. A node visited in define mode, and a [defs] element itself, adds
    nothing to the scene when [_parseNode] returns; leaving a [defs] element
    turns define mode off. *)
Theorem defs_content_is_never_drawn (w : El -> number) (ty : N) (name : string)
    (attrs : gmap string string) (v : string) (cs : list Node) (pg : option El)
    (s s' : State) (r : list El) :
  toLowerCase name = "defs" \/ defineOf s = true ->
  _parseNode w (mkNode ty name attrs v cs) pg s = Ok r s' ->
  r = [] /\ (toLowerCase name = "defs" -> defineOf s' = false).
Proof.
  intros Hmode H. rewrite _parseNode_eq in H. cbv zeta in H.
  apply bind_returned in H as (u & s1 & Hpre & H).
  apply bind_returned in H as (p & s2 & Hp & H). inversion Hp. subst p s2. clear Hp.
  apply bind_returned in H as (el & s3 & Hel & H).
  apply bind_returned in H as (added & s4 & Hvis & H).
  apply bind_returned in H as (u' & s5 & Hpost & H). inversion H. subst. clear H Hvis.
  assert (Hs1 : _isDefine (this s1) = true).
  { destruct Hmode as [Hn|Hd].
    - rewrite Hn in Hpre. inversion Hpre. reflexivity.
    - destruct (String.eqb (toLowerCase name) "defs");
        [|destruct (String.eqb (toLowerCase name) "text")];
        inversion Hpre; subst; try reflexivity; exact Hd. }
  rewrite Hs1 in Hel.
  assert (Hnone : el = None)
    by exact (defined_returned (toLowerCase name) (mkNode ty name attrs v cs) _ _ _ Hel).
  subst el. split; [reflexivity|].
  intros Hn. rewrite Hn in Hpost. inversion Hpost. reflexivity.
Qed.

Lemma defs_content_is_never_drawn_witness :
  exists s',
    _parseNode sevenWide
      (element "defs" []
         [element "linearGradient" [("id", "g1")] [element "stop" [("offset", "0")] []];
          element "rect" [("width", "5")] []; element "g" [] [element "circle" [] []]])
      (Some (newEl TGroup NoShape)) (mkState newSVGParser (mkGlobals [] 0))
    = Ok [] s'
    /\ defineOf s' = false.
Proof.
  eexists.
  assert (H : _parseNode sevenWide
                (element "defs" []
                   [element "linearGradient" [("id", "g1")]
                      [element "stop" [("offset", "0")] []];
                    element "rect" [("width", "5")] []; element "g" [] [element "circle" [] []]])
                (Some (newEl TGroup NoShape)) (mkState newSVGParser (mkGlobals [] 0))
              = Ok [] _) by (vm_compute; reflexivity).
  split; [exact H|].
  exact (proj2 (defs_content_is_never_drawn sevenWide 1 "defs" (list_to_map []) ""
                  [element "linearGradient" [("id", "g1")]
                     [element "stop" [("offset", "0")] []];
                   element "rect" [("width", "5")] []; element "g" [] [element "circle" [] []]]
                  (Some (newEl TGroup NoShape)) (mkState newSVGParser (mkGlobals [] 0)) _ []
                  (or_introl eq_refl) H) eq_refl).
Defined.

(** *** Children need a group above them *)

Lemma requireGroup_throws (el : option El) (s : State) :
  canHoldChildren el = false -> requireGroup el s = Throw TypeError s.
Proof.
  unfold canHoldChildren, requireGroup. destruct el as [e|]; [|reflexivity].
  intros ->. reflexivity.
Qed.

Lemma builder_is_not_defs (nodeName : string) :
  builtType nodeName <> None -> String.eqb nodeName "defs" = false.
Proof.
  intros H. destruct (String.eqb nodeName "defs") eqn:E; [|reflexivity].
  apply String.eqb_eq in E. subst. exfalso. apply H. reflexivity.
Qed.

(** A node that has a builder cannot be added under a parent that is no
    group. *)
Lemma _parseNode_needs_a_group (w : El -> number) (child : Node) (el : option El)
    (s : State) :
  defineOf s = false -> builtType (toLowerCase (nodeName child)) <> None ->
  canHoldChildren el = false ->
  exists s', _parseNode w child el s = Throw TypeError s'.
Proof.
  destruct child as [ty name attrs v cs]. cbn [nodeName]. intros Hs Hb Hel.
  rewrite _parseNode_eq. cbv zeta. rewrite (builder_is_not_defs _ Hb).
  destruct (nodeParsers (toLowerCase name)) as [parser|] eqn:E;
    [|exfalso; apply Hb; apply nodeParsers_none; exact E].
  rewrite (entryOf_own _ _ _ E). cbn [isEntry callNodeParser].
  assert (Hpre : exists s1,
             (if String.eqb (toLowerCase name) "text" then setThis (with_isText true)
              else ret tt) s = Ok tt s1 /\ _isDefine (this s1) = false).
  { destruct (String.eqb (toLowerCase name) "text"); eexists; (split; [reflexivity|exact Hs]). }
  destruct Hpre as (s1 & Hpre & Hs1).
  rewrite (bind_continues _ _ _ _ _ Hpre).
  rewrite (bind_continues _ _ _ _ _ (eq_refl : getThis s1 = Ok (this s1) s1)).
  rewrite Hs1.
  destruct (parser (mkNode ty name attrs v cs) el s1) as [el0 s2|e s2] eqn:Ep.
  - exists s2. apply bind_throws. rewrite (bind_continues _ _ _ _ _ Ep).
    apply bind_throws. apply requireGroup_throws. exact Hel.
  - exists s2. apply bind_throws. apply bind_throws.
    rewrite (throws_TypeError_only _ _ _ _ (respects_nodeParsers _ _ E _ _) Ep) in Ep.
    exact Ep.
Qed.

Lemma visitChildren_needs_a_group (w : El -> number) (el : option El) (cs : list Node)
    (child : Node) :
  In child cs -> nodeType child = 1%N ->
  builtType (toLowerCase (nodeName child)) <> None -> canHoldChildren el = false ->
  forall s, defineOf s = false -> exists s', visitChildren w el cs s = Throw TypeError s'.
Proof.
  intros Hin Hty Hb Hel. induction cs as [|c cs IH]; [destruct Hin|].
  intros s Hs. rewrite visitChildren_cons.
  assert (Hfirst : (exists s', (if (nodeType c =? 1)%N then _parseNode w c el else ret []) s
                               = Throw TypeError s')
                   \/ (In child cs
                       /\ exists a1 s1, (if (nodeType c =? 1)%N then _parseNode w c el
                                         else ret []) s = Ok a1 s1
                                        /\ defineOf s1 = false)).
  { destruct Hin as [->|Hin].
    - left. rewrite Hty. cbn. apply _parseNode_needs_a_group; assumption.
    - destruct (nodeType c =? 1)%N.
      + destruct (_parseNode w c el s) as [a1 s1|e s1] eqn:E1.
        * right. split; [exact Hin|]. exists a1, s1. split; [reflexivity|].
          eapply _parseNode_leaves_define_off; eassumption.
        * left. exists s1.
          rewrite (throws_TypeError_only _ _ _ _ (respects__parseNode w c el) E1).
          reflexivity.
      + right. split; [exact Hin|]. exists [], s. split; [reflexivity|exact Hs]. }
  destruct Hfirst as [[s' H1]|(Hin' & a1 & s1 & H1 & Hs1)].
  - exists s'. apply bind_throws. exact H1.
  - rewrite (bind_continues _ _ _ _ _ H1).
    rewrite (bind_continues _ _ _ _ _ (eq_refl : getThis s1 = Ok (this s1) s1)).
    destruct ((if (nodeType c =? 3)%N && _isText (this s1) then _parseText w c el
               else ret []) s1) as [a2 s2|e s2] eqn:E2.
    + rewrite (bind_continues _ _ _ _ _ E2).
      assert (Hs2 : defineOf s2 = false).
      { destruct ((nodeType c =? 3)%N && _isText (this s1)).
        - rewrite <- Hs1. apply modeOf_define.
          eapply keeps_returned; [apply keeps_mode__parseText|exact E2].
        - inversion E2. subst. exact Hs1. }
      destruct (IH Hin' s2 Hs2) as [s' Hrest]. exists s'. apply bind_throws. exact Hrest.
    + exists s2. apply bind_throws.
      destruct ((nodeType c =? 3)%N && _isText (this s1)); [|discriminate E2].
      rewrite (throws_TypeError_only _ _ _ _ (respects__parseText w c el) E2) in E2.
      exact E2.
Qed.

(** X8. Outside [defs], an element that is no group in the scene (it has no
    builder, or its builder makes a shape) and that has a child element with
    a builder makes [_parseNode] throw a [TypeError]: the child cannot be
    added. *)
Theorem drawable_child_needs_a_group_parent (w : El -> number) (ty : N) (name : string)
    (attrs : gmap string string) (v : string) (cs : list Node) (pg : option El)
    (child : Node) (s : State) :
  defineOf s = false ->
  toLowerCase name <> "defs" ->
  builtType (toLowerCase name) <> Some TGroup ->
  In child cs -> nodeType child = 1%N ->
  builtType (toLowerCase (nodeName child)) <> None ->
  exists s', _parseNode w (mkNode ty name attrs v cs) pg s = Throw TypeError s'.
Proof.
  intros Hs Hdefs Hgroup Hin Hty Hb.
  rewrite _parseNode_eq. cbv zeta.
  assert (Ed : String.eqb (toLowerCase name) "defs" = false).
  { destruct (String.eqb (toLowerCase name) "defs") eqn:E; [|reflexivity].
    apply String.eqb_eq in E. contradiction. }
  rewrite Ed.
  assert (Hpre : exists s1,
             (if String.eqb (toLowerCase name) "text" then setThis (with_isText true)
              else ret tt) s = Ok tt s1 /\ defineOf s1 = false).
  { destruct (String.eqb (toLowerCase name) "text"); eexists; (split; [reflexivity|exact Hs]). }
  destruct Hpre as (s1 & Hpre & Hs1).
  rewrite (bind_continues _ _ _ _ _ Hpre).
  rewrite (bind_continues _ _ _ _ _ (eq_refl : getThis s1 = Ok (this s1) s1)).
  unfold defineOf in Hs1. rewrite Hs1.
  destruct ((if isEntry (entryOf nodeParsers (toLowerCase name)) then
               el <- callNodeParser (entryOf nodeParsers (toLowerCase name))
                       (mkNode ty name attrs v cs) pg ;;
               requireGroup pg ;;
               ret (Some el)
             else ret None) s1) as [el s2|e s2] eqn:Hel.
  - rewrite (bind_continues _ _ _ _ _ Hel).
    destruct (drawn_returned (toLowerCase name) (mkNode ty name attrs v cs) _ _ _ _ Hel)
      as [Hm Hd].
    assert (Hhold : canHoldChildren el = false).
    { destruct el as [e|]; [|reflexivity]. destruct Hd as (Hadd & _).
      cbn. unfold isGroup. destruct (type e) eqn:Et; try reflexivity.
      exfalso. apply Hgroup. unfold addedType in Hadd.
      destruct (builtType (toLowerCase name)); [exact Hadd|].
      destruct (String.eqb (toLowerCase name) "constructor"); discriminate Hadd. }
    assert (Hs2 : defineOf s2 = false).
    { rewrite (modeOf_define _ _ Hm). exact Hs1. }
    destruct (visitChildren_needs_a_group w el cs child Hin Hty Hb Hhold s2 Hs2) as [s' Hv].
    exists s'. apply bind_throws. exact Hv.
  - exists s2. apply bind_throws.
    rewrite (throws_TypeError_only _ _ _ _
               (respects_drawn (toLowerCase name) (mkNode ty name attrs v cs) pg) Hel) in Hel.
    exact Hel.
Qed.

Lemma drawable_child_needs_a_group_parent_witness :
  (exists s', _parseNode sevenWide (element "a" [] [text " "; element "rect" [] []])
                (Some (newEl TGroup NoShape)) (mkState newSVGParser (mkGlobals [] 0))
              = Throw TypeError s')
  /\ (exists s', _parseNode sevenWide (element "rect" [] [element "title" [] [];
                                                          element "circle" [] []])
                   (Some (newEl TGroup NoShape)) (mkState newSVGParser (mkGlobals [] 0))
                 = Throw TypeError s').
Proof.
  split.
  - apply (drawable_child_needs_a_group_parent sevenWide 1 "a" (list_to_map []) ""
             [text " "; element "rect" [] []] (Some (newEl TGroup NoShape))
             (element "rect" [] []) (mkState newSVGParser (mkGlobals [] 0)) eq_refl).
    + discriminate.
    + discriminate.
    + right. left. reflexivity.
    + reflexivity.
    + discriminate.
  - apply (drawable_child_needs_a_group_parent sevenWide 1 "rect" (list_to_map []) ""
             [element "title" [] []; element "circle" [] []] (Some (newEl TGroup NoShape))
             (element "circle" [] []) (mkState newSVGParser (mkGlobals [] 0)) eq_refl).
    + discriminate.
    + discriminate.
    + right. left. reflexivity.
    + reflexivity.
    + discriminate.
Defined.

(** *** The builders *)

(** The two lines every builder starts with always return. *)
Lemma inheritAndParse_run (xmlNode : Node) :
  exists tr, forall (parentGroup : option El) (el : El) (s : State),
    inheritAndParse xmlNode parentGroup el s
    = Ok (applyStyle (isTextEl (inheritStyle parentGroup el)) (Some (_defs (this s)))
            (withTransform tr (inheritStyle parentGroup el))
            (mergedStyle xmlNode (inheritStyle parentGroup el) false))
         (mkState (this s) (afterAttributes xmlNode (globals s))).
Proof.
  destruct (parseAttributes_run xmlNode) as [tr Hrun]. exists tr.
  intros parentGroup el s. unfold inheritAndParse, bind, getThis. apply Hrun.
Qed.

Lemma requireElement_element (xmlNode : Node) (s : State) :
  nodeType xmlNode = 1%N -> requireElement xmlNode s = Ok tt s.
Proof. intros H. unfold requireElement. rewrite H. reflexivity. Qed.



(** Every builder returns on an element, whatever the parent is. *)
Lemma nodeParsers_return (nodeName : string) (parser : Node -> option El -> M El)
    (xmlNode : Node) (parentGroup : option El) (s : State) :
  nodeParsers nodeName = Some parser -> nodeType xmlNode = 1%N ->
  exists el s',
    parser xmlNode parentGroup s = Ok el s'
    /\ (nodeName <> "text" -> nodeName <> "tspan" -> this s' = this s).
Proof.
  intros Hp Hty. destruct (inheritAndParse_run xmlNode) as [tr Hrun].
  revert Hp. unfold nodeParsers.
  repeat match goal with
         | |- (if ?b then _ else _) = _ -> _ => destruct b eqn:?
         end;
    try discriminate; intros H; inversion H; subst parser; clear H.
  - unfold parse_g. rewrite Hrun. eexists _, _. split; [reflexivity|]. reflexivity.
  - unfold parse_rect. rewrite (bind_continues _ _ _ _ _ (Hrun _ _ _)).
    rewrite (bind_continues _ _ _ _ _ (requireElement_element _ _ Hty)).
    eexists _, _. split; reflexivity.
  - unfold parse_circle. rewrite (bind_continues _ _ _ _ _ (Hrun _ _ _)).
    rewrite (bind_continues _ _ _ _ _ (requireElement_element _ _ Hty)).
    eexists _, _. split; reflexivity.
  - unfold parse_line. rewrite (bind_continues _ _ _ _ _ (Hrun _ _ _)).
    rewrite (bind_continues _ _ _ _ _ (requireElement_element _ _ Hty)).
    eexists _, _. split; reflexivity.
  - unfold parse_ellipse. rewrite (bind_continues _ _ _ _ _ (Hrun _ _ _)).
    rewrite (bind_continues _ _ _ _ _ (requireElement_element _ _ Hty)).
    eexists _, _. split; reflexivity.
  - unfold parse_polygon.
    rewrite (bind_continues _ _ _ _ _ (requireElement_element _ _ Hty)).
    rewrite Hrun. eexists _, _. split; reflexivity.
  - unfold parse_polyline. rewrite (bind_continues _ _ _ _ _ (Hrun _ _ _)).
    rewrite (bind_continues _ _ _ _ _ (requireElement_element _ _ Hty)).
    eexists _, _. split; reflexivity.
  - unfold parse_image. rewrite (bind_continues _ _ _ _ _ (Hrun _ _ _)).
    rewrite (bind_continues _ _ _ _ _ (requireElement_element _ _ Hty)).
    eexists _, _. split; reflexivity.
  - unfold parse_text.
    rewrite (bind_continues _ _ _ _ _ (requireElement_element _ _ Hty)). cbv zeta.
    rewrite (bind_continues _ _ _ _ _ (setThis_run _ _)).
    rewrite (bind_continues _ _ _ _ _ (setThis_run _ _)).
    rewrite Hrun. eexists _, _. split; [reflexivity|].
    intros Hn. exfalso. apply Hn. apply String.eqb_eq. assumption.
  - unfold parse_tspan.
    rewrite (bind_continues _ _ _ _ _ (requireElement_element _ _ Hty)).
    assert (Hx : exists sx,
               match getAttribute xmlNode "x" with
               | Some x => setThis (with_textX (VNum (parseFloat x)))
               | None => ret tt
               end s = Ok tt sx).
    { destruct (getAttribute xmlNode "x"); eexists; reflexivity. }
    destruct Hx as [sx Hx]. rewrite (bind_continues _ _ _ _ _ Hx).
    assert (Hy : exists sy,
               match getAttribute xmlNode "y" with
               | Some y => setThis (with_textY (VNum (parseFloat y)))
               | None => ret tt
               end sx = Ok tt sy).
    { destruct (getAttribute xmlNode "y"); eexists; reflexivity. }
    destruct Hy as [sy Hy]. rewrite (bind_continues _ _ _ _ _ Hy). cbv zeta.
    rewrite (bind_continues _ _ _ _ _ (Hrun _ _ _)).
    rewrite (bind_continues _ _ _ _ _ (setThis_run _ _)).
    rewrite (bind_continues _ _ _ _ _ (setThis_run _ _)).
    eexists _, _. split; [reflexivity|].
    intros _ Hn. exfalso. apply Hn. apply String.eqb_eq. assumption.
  - unfold parse_path.
    rewrite (bind_continues _ _ _ _ _ (requireElement_element _ _ Hty)). cbv zeta.
    rewrite Hrun. eexists _, _. split; reflexivity.
Qed.





Lemma mergedStyle_inherited (xmlNode : Node) (el el' : El) (onlyInlineStyle : bool) :
  __inheritedStyle el = __inheritedStyle el' ->
  mergedStyle xmlNode el onlyInlineStyle = mergedStyle xmlNode el' onlyInlineStyle.
Proof. intros H. unfold mergedStyle. rewrite H. reflexivity. Qed.

Lemma inheritStyle_inherited (parent : option El) (child child' : El) :
  __inheritedStyle child = __inheritedStyle child' ->
  __inheritedStyle (inheritStyle parent child) = __inheritedStyle (inheritStyle parent child').
Proof.
  intros H. unfold inheritStyle. destruct parent as [p|]; [|exact H].
  destruct (__inheritedStyle p); [|exact H]. cbn. rewrite H. reflexivity.
Qed.

Lemma inheritStyle_style (parent : option El) (child : El) :
  style (inheritStyle parent child) = style child
  /\ type (inheritStyle parent child) = type child
  /\ scale (inheritStyle parent child) = scale child
  /\ transform (inheritStyle parent child) = transform child.
Proof.
  unfold inheritStyle. destruct parent as [p|]; [|repeat split].
  destruct (__inheritedStyle p); repeat split.
Qed.

(** X12. [_parseText] adds one [Text]. The font size of the run is the
    merged [fontSize] parsed as a number. One that is below 9, and neither
    zero nor [NaN], is replaced by 9, and the scale of the run is multiplied
    on both axes by that font size divided by 9: the scale is the one
    [setLocalTransform] derived from the transform of the run, which it has
    when the node is an element with a [transform] attribute only, and
    [1, 1] otherwise. Any other font size is kept and the scale is not
    touched. No run keeps a font size below 9 other than zero. *)
Theorem small_text_is_drawn_at_size_nine (w : El -> number) (xmlNode : Node)
    (parentGroup : option El) (s s' : State) (added : list El) :
  _parseText w xmlNode parentGroup s = Ok added s' ->
  exists t,
    added = [t] /\ type t = TText
    /\ (nodeType xmlNode <> 1%N \/ getAttribute xmlNode "transform" = None ->
        transform t = None)
    /\ (forall f, style t !! "fontSize" = Some (SNum f) -> (f <? 9)%float = true ->
                  truthy f = false)
    /\ match runFontSize xmlNode parentGroup with
       | Some f =>
           if truthy f && (f <? 9)%float then
             style t !! "fontSize" = Some (SNum 9)
             /\ scale t = stretch (placedBy (transform t) Initial) (f / 9)
           else style t !! "fontSize" = Some (SNum f)
                /\ scale t = placedBy (transform t) Initial
       | None => style t !! "fontSize" = None /\ scale t = placedBy (transform t) Initial
       end.
Proof.
  destruct (parseAttributes_run_placed xmlNode) as (tr & Htr & Hrun).
  unfold _parseText. intros H.
  apply bind_returned in H as (u & s1 & _ & H).
  apply bind_returned in H as (p & s2 & Hp & H). inversion Hp. subst p s2. clear Hp.
  rewrite (bind_continues _ _ _ _ _ (Hrun _ _ _ _)) in H.
  match type of H with
  | context [applyStyle ?t ?defs (withTransform tr (inheritStyle ?pg ?e)) ?z] =>
      pose proof (styled_frame t defs tr pg e z) as (Hty & _ & Hsc & _);
      pose proof (applyStyle_fontSize t defs (withTransform tr (inheritStyle pg e)) z) as Hfs;
      pose proof (applyStyle_transform t defs tr (inheritStyle pg e) z) as Htrf;
      rewrite (proj2 (proj2 (proj2 (inheritStyle_style pg e)))) in Htrf;
      remember (applyStyle t defs (withTransform tr (inheritStyle pg e)) z) as styled eqn:Es;
      clear Es;
      rewrite (mergedStyle_inherited xmlNode (inheritStyle pg e)
                 (inheritStyle pg (newEl TText NoShape)) false
                 (inheritStyle_inherited pg e (newEl TText NoShape) eq_refl)) in Hfs;
      rewrite withTransform_style in Hfs;
      rewrite (proj1 (inheritStyle_style pg e)) in Hfs
  end.
  cbn in Hty, Hsc.
  cbn [transform setPosition setStyle newEl] in Htrf.
  assert (Htrans : transform styled = tr) by (rewrite Htrf; destruct tr; reflexivity).
  clear Htrf. subst tr.
  cbn [style setPosition setStyle newEl] in Hfs.
  rewrite !lookup_insert_ne in Hfs by discriminate. rewrite lookup_empty in Hfs.
  apply bind_returned in H as (u2 & s3 & _ & H).
  apply bind_returned in H as (g & s4 & _ & H). inversion H. subst. clear H.
  eexists. split; [reflexivity|].
  unfold runFontSize.
  destruct (mergedStyle xmlNode (inheritStyle parentGroup (newEl TText NoShape)) false
            !! "fontSize") as [v|]; cbn [option_map]; rewrite Hfs.
  - destruct (truthy (parseFloat v)) eqn:Et; destruct (parseFloat v <? 9)%float eqn:Elt;
      cbn [andb]; (split; [exact Hty|]); (split; [exact Htr|]).
    + split.
      * intros f Hf. cbn [style stretchScale setStyle] in Hf. rewrite lookup_insert_eq in Hf.
        inversion Hf. subst f. vm_compute. discriminate.
      * split; [cbn [style stretchScale setStyle]; apply lookup_insert_eq|].
        cbn [scale transform stretchScale setStyle]. rewrite Hsc. reflexivity.
    + split; [|split; [exact Hfs|exact Hsc]].
      intros f Hf Hlt. rewrite Hfs in Hf. inversion Hf. subst f. congruence.
    + split; [|split; [exact Hfs|exact Hsc]].
      intros f Hf Hlt. rewrite Hfs in Hf. inversion Hf. subst f. exact Et.
    + split; [|split; [exact Hfs|exact Hsc]].
      intros f Hf Hlt. rewrite Hfs in Hf. inversion Hf. subst f. exact Et.
  - split; [exact Hty|]. split; [exact Htr|].
    split; [intros f Hf; rewrite Hfs in Hf; discriminate Hf|]. split; [exact Hfs|exact Hsc].
Qed.

Lemma small_text_is_drawn_at_size_nine_witness :
  exists added s',
    _parseText sevenWide (text "tiny")
      (Some (setInherited (newEl TGroup NoShape) (Some {["fontSize" := "6"]})))
      (mkState (mkParser ∅ false true (VNum 0) (VNum 0)) (mkGlobals [] 0))
    = Ok added s'
    /\ runFontSize (text "tiny")
         (Some (setInherited (newEl TGroup NoShape) (Some {["fontSize" := "6"]})))
       = Some 6%float
    /\ exists t,
         added = [t] /\ type t = TText
         /\ (nodeType (text "tiny") <> 1%N \/ getAttribute (text "tiny") "transform" = None ->
             transform t = None)
         /\ (forall f, style t !! "fontSize" = Some (SNum f) -> (f <? 9)%float = true ->
                       truthy f = false)
         /\ match runFontSize (text "tiny")
                    (Some (setInherited (newEl TGroup NoShape) (Some {["fontSize" := "6"]})))
            with
            | Some f =>
                if truthy f && (f <? 9)%float then
                  style t !! "fontSize" = Some (SNum 9)
                  /\ scale t = stretch (placedBy (transform t) Initial) (f / 9)
                else style t !! "fontSize" = Some (SNum f)
                     /\ scale t = placedBy (transform t) Initial
            | None => style t !! "fontSize" = None
                      /\ scale t = placedBy (transform t) Initial
            end.
Proof.
  eexists _, _. split; [vm_compute; reflexivity|]. split; [vm_compute; reflexivity|].
  eapply (small_text_is_drawn_at_size_nine sevenWide (text "tiny")
            (Some (setInherited (newEl TGroup NoShape) (Some {["fontSize" := "6"]})))
            (mkState (mkParser ∅ false true (VNum 0) (VNum 0)) (mkGlobals [] 0))).
  vm_compute. reflexivity.
Defined.

(** On that run the scale is 6/9 of [1, 1] on both axes. *)
Lemma tiny_run_is_scaled_by_two_thirds :
  exists t s',
    _parseText sevenWide (text "tiny")
      (Some (setInherited (newEl TGroup NoShape) (Some {["fontSize" := "6"]})))
      (mkState (mkParser ∅ false true (VNum 0) (VNum 0)) (mkGlobals [] 0))
    = Ok [t] s'
    /\ style t !! "fontSize" = Some (SNum 9)
    /\ scale t = Given (1 * (6 / 9), 1 * (6 / 9))%float.
Proof. eexists _, _. split; [vm_compute; reflexivity|]. split; reflexivity. Qed.

(** *** The defs registry *)

Lemma visitChildren_stops (w : El -> number) (el : option El) (cs : list Node) (s : State) :
  Forall isStopOrNoElement cs -> _isDefine (this s) = true -> _isText (this s) = false ->
  visitChildren w el cs s = Ok [] s.
Proof.
  intros Hcs Hd Ht. induction Hcs as [|c cs Hc Hcs IH].
  - reflexivity.
  - rewrite visitChildren_cons.
    assert (H1 : (if (nodeType c =? 1)%N then _parseNode w c el else ret []) s = Ok [] s).
    { destruct (nodeType c =? 1)%N eqn:Ety; [|reflexivity].
      destruct Hc as [Hc|(Hn & Hch & _)]; [apply N.eqb_eq in Ety; contradiction|].
      destruct c as [ty name attrs v ccs]. cbn [nodeName childNodes] in *. subst ccs.
      rewrite _parseNode_eq. cbv zeta. rewrite Hn.
      change (String.eqb "stop" "defs") with false.
      change (String.eqb "stop" "text") with false. cbv iota.
      rewrite (bind_continues _ _ _ _ _ (eq_refl : ret tt s = Ok tt s)).
      rewrite (bind_continues _ _ _ _ _ (eq_refl : getThis s = Ok (this s) s)).
      rewrite Hd. reflexivity. }
    rewrite (bind_continues _ _ _ _ _ H1).
    rewrite (bind_continues _ _ _ _ _ (eq_refl : getThis s = Ok (this s) s)).
    rewrite Ht, andb_false_r.
    rewrite (bind_continues _ _ _ _ _ (eq_refl : ret [] s = Ok [] s)).
    rewrite (bind_continues _ _ _ _ _ IH). reflexivity.
Qed.



(** *** Documents of groups and shapes *)

Lemma builtType_none (nodeName : string) :
  builtType nodeName = None -> nodeParsers nodeName = None.
Proof.
  unfold nodeParsers, builtType.
  repeat match goal with
         | |- (if ?b then _ else _) = _ -> _ => destruct b
         end; try discriminate; reflexivity.
Qed.

Lemma hasNoEntry_entryOf (nodeName : string) :
  hasNoEntry nodeName = true ->
  builtType nodeName = None /\ entryOf nodeParsers nodeName = NoEntry.
Proof.
  unfold hasNoEntry, entryOf. destruct (builtType nodeName) eqn:E; [discriminate|].
  rewrite (builtType_none _ E).
  destruct (String.eqb nodeName "constructor"); [discriminate|].
  destruct (String.eqb nodeName "__proto__"); [discriminate|]. split; reflexivity.
Qed.

Lemma isShapeName_builder (nodeName : string) :
  isShapeName nodeName = true ->
  String.eqb nodeName "defs" = false /\ String.eqb nodeName "text" = false
  /\ nodeName <> "text" /\ nodeName <> "tspan"
  /\ builtType nodeName <> Some TGroup
  /\ exists parser, nodeParsers nodeName = Some parser.
Proof.
  unfold isShapeName, shapeNames. cbn [existsb]. intros H.
  repeat (apply orb_true_iff in H as [H|H]); try discriminate H;
    apply String.eqb_eq in H; subst nodeName;
    (split; [reflexivity|split; [reflexivity|split; [discriminate|split; [discriminate|]]]]);
    (split; [discriminate|eexists; reflexivity]).
Qed.

(** Children that are no elements add nothing outside a [text]. *)
Lemma visitChildren_no_elements (w : El -> number) (el : option El) (cs : list Node)
    (s : State) :
  forallb (fun c => negb (nodeType c =? 1)%N) cs = true -> _isText (this s) = false ->
  visitChildren w el cs s = Ok [] s.
Proof.
  intros Hcs Ht. induction cs as [|c cs IH]; [reflexivity|].
  cbn [forallb] in Hcs. apply andb_true_iff in Hcs as [Hc Hcs]. apply negb_true_iff in Hc.
  rewrite visitChildren_cons, Hc.
  rewrite (bind_continues _ _ _ _ _ (eq_refl : ret [] s = Ok [] s)).
  rewrite (bind_continues _ _ _ _ _ (eq_refl : getThis s = Ok (this s) s)).
  rewrite Ht, andb_false_r.
  rewrite (bind_continues _ _ _ _ _ (eq_refl : ret [] s = Ok [] s)).
  rewrite (bind_continues _ _ _ _ _ (IH Hcs)). reflexivity.
Qed.

Lemma visitChildren_groupsAndShapes (w : El -> number) (el : El) (cs : list Node) :
  Forall (fun c => groupsAndShapes c = true ->
                   forall pg s, isGroup pg = true -> modesOff s ->
                                exists added g', _parseNode w c (Some pg) s
                                                 = Ok added (mkState (this s) g')) cs ->
  forallb groupsAndShapes cs = true -> isGroup el = true ->
  forall s, modesOff s ->
            exists added g', visitChildren w (Some el) cs s = Ok added (mkState (this s) g').
Proof.
  intros IH Hcs Hel. induction IH as [|c cs Hc _ IHcs]; intros s Hs.
  - exists [], (globals s). destruct s. reflexivity.
  - cbn [forallb] in Hcs. apply andb_true_iff in Hcs as [Hpc Hcs].
    rewrite visitChildren_cons.
    assert (H1 : exists a1 g1, (if (nodeType c =? 1)%N then _parseNode w c (Some el)
                                else ret []) s = Ok a1 (mkState (this s) g1)).
    { destruct (nodeType c =? 1)%N; [apply Hc; assumption|].
      exists [], (globals s). destruct s. reflexivity. }
    destruct H1 as (a1 & g1 & H1). rewrite (bind_continues _ _ _ _ _ H1).
    rewrite (bind_continues _ _ _ _ _
               (eq_refl : getThis (mkState (this s) g1) = Ok (this s) (mkState (this s) g1))).
    destruct Hs as [Hd Ht]. rewrite Ht, andb_false_r.
    rewrite (bind_continues _ _ _ _ _
               (eq_refl : ret [] (mkState (this s) g1) = Ok [] (mkState (this s) g1))).
    destruct (IHcs Hcs (mkState (this s) g1) (conj Hd Ht)) as (rest & g2 & Hrest).
    rewrite (bind_continues _ _ _ _ _ Hrest). eexists _, _. reflexivity.
Qed.

Lemma groupsAndShapes_g (ty : N) (name : string) (attrs : gmap string string) (v : string)
    (cs : list Node) :
  (ty =? 1)%N = true -> String.eqb (toLowerCase name) "g" = true ->
  groupsAndShapes (mkNode ty name attrs v cs) = forallb groupsAndShapes cs.
Proof.
  intros Hty Hg. cbn [groupsAndShapes]. cbv zeta. rewrite Hty, Hg.
  induction cs as [|c cs IH]; [reflexivity|]. cbn [forallb]. rewrite IH. reflexivity.
Qed.

(** A tree of groups and shapes is parsed without an exception, and leaves
    the parser as it was. *)
Lemma _parseNode_groupsAndShapes (w : El -> number) (xmlNode : Node) :
  groupsAndShapes xmlNode = true ->
  forall pg s, isGroup pg = true -> modesOff s ->
               exists added g', _parseNode w xmlNode (Some pg) s
                                = Ok added (mkState (this s) g').
Proof.
  induction xmlNode as [ty name attrs v cs IH] using Node_children_ind.
  intros Hplain pg s Hpg [Hd Ht].
  rewrite _parseNode_eq. cbv zeta.
  destruct (ty =? 1)%N eqn:Ety.
  - apply N.eqb_eq in Ety as Hty. subst ty.
    destruct (String.eqb (toLowerCase name) "g") eqn:Eg.
    + rewrite (groupsAndShapes_g 1 name attrs v cs eq_refl Eg) in Hplain.
      apply String.eqb_eq in Eg. rewrite Eg.
      change (String.eqb "g" "defs") with false. change (String.eqb "g" "text") with false.
      cbv iota.
      proceed (eq_refl : ret tt s = Ok tt s).
      proceed (eq_refl : getThis s = Ok (this s) s).
      rewrite Hd. change (entryOf nodeParsers "g") with (Own parse_g).
      cbn [isEntry callNodeParser].
      destruct (nodeParsers_return "g" parse_g (mkNode 1 name attrs v cs) (Some pg) s
                  eq_refl eq_refl) as (el & s1 & Hrun & Hthis).
      destruct (nodeParsers_builtType "g" parse_g _ _ _ _ _ eq_refl Hrun) as [Hbt _].
      proceed Hrun.
      assert (Hg1 : requireGroup (Some pg) s1 = Ok pg s1).
      { unfold requireGroup. rewrite Hpg. reflexivity. }
      proceed Hg1.
      proceed (eq_refl : ret (Some el) s1 = Ok (Some el) s1).
      assert (Hel : isGroup el = true).
      { assert (Hty : type el = TGroup) by (cbn in Hbt; congruence).
        unfold isGroup. rewrite Hty. reflexivity. }
      assert (Hs1 : modesOff s1).
      { unfold modesOff. rewrite (Hthis ltac:(discriminate) ltac:(discriminate)). auto. }
      destruct (visitChildren_groupsAndShapes w el cs IH Hplain Hel s1 Hs1)
        as (added & g2 & Hvis).
      proceed Hvis.
      rewrite (Hthis ltac:(discriminate) ltac:(discriminate)).
      eexists _, _. reflexivity.
    + cbn [groupsAndShapes] in Hplain. cbv zeta in Hplain. cbn [N.eqb Pos.eqb] in Hplain.
      rewrite Eg in Hplain. apply andb_true_iff in Hplain as [Hshape Hcs].
      destruct (isShapeName_builder _ Hshape) as (Edefs & Etext & Hn1 & Hn2 & Hng & parser & Ep).
      rewrite Edefs, Etext.
      proceed (eq_refl : ret tt s = Ok tt s).
      proceed (eq_refl : getThis s = Ok (this s) s).
      rewrite Hd, (entryOf_own _ _ _ Ep). cbn [isEntry callNodeParser].
      destruct (nodeParsers_return (toLowerCase name) parser (mkNode 1 name attrs v cs)
                  (Some pg) s Ep eq_refl) as (el & s1 & Hrun & Hthis).
      proceed Hrun.
      assert (Hg1 : requireGroup (Some pg) s1 = Ok pg s1).
      { unfold requireGroup. rewrite Hpg. reflexivity. }
      proceed Hg1.
      proceed (eq_refl : ret (Some el) s1 = Ok (Some el) s1).
      assert (Ht1 : _isText (this s1) = false) by (rewrite (Hthis Hn1 Hn2); exact Ht).
      proceed (visitChildren_no_elements w (Some el) cs s1 Hcs Ht1).
      proceed (eq_refl : ret tt s1 = Ok tt s1).
      exists [pushChildren el []], (globals s1). rewrite <- (Hthis Hn1 Hn2).
      destruct s1. reflexivity.
  - cbn [groupsAndShapes] in Hplain. cbv zeta in Hplain. rewrite Ety in Hplain.
    destruct cs as [|c cs]; [|discriminate].
    apply andb_true_iff in Hplain as [Hno Hdefs]. apply negb_true_iff in Hdefs.
    destruct (hasNoEntry_entryOf _ Hno) as [Ebt Eentry].
    rewrite Hdefs.
    assert (Etext : String.eqb (toLowerCase name) "text" = false).
    { destruct (String.eqb (toLowerCase name) "text") eqn:E; [|reflexivity].
      apply String.eqb_eq in E. rewrite E in Ebt. discriminate Ebt. }
    rewrite Etext.
    proceed (eq_refl : ret tt s = Ok tt s).
    proceed (eq_refl : getThis s = Ok (this s) s).
    rewrite Hd, Eentry.
    exists [], (globals s). destruct s. reflexivity.
Qed.

Lemma parseChildren_groupsAndShapes (w : El -> number) (cs : list Node) (root : El) :
  forallb groupsAndShapes cs = true -> isGroup root = true ->
  forall s, modesOff s ->
            exists added g', parseChildren w cs root s = Ok added (mkState (this s) g').
Proof.
  intros Hcs Hroot. induction cs as [|c cs IH]; intros s Hs.
  - exists [], (globals s). destruct s. reflexivity.
  - cbn [forallb] in Hcs. apply andb_true_iff in Hcs as [Hc Hcs]. cbn [parseChildren].
    destruct (_parseNode_groupsAndShapes w c Hc root s Hroot Hs) as (a & g1 & Ha).
    proceed Ha.
    destruct (IH Hcs (mkState (this s) g1) Hs) as (rest & g2 & Hrest).
    proceed Hrest. eexists _, _. reflexivity.
Qed.

(** X14. A document is parsed by [parseSVG] without an exception, whatever
    the attributes are, when the children of its [svg] element are trees of
    groups and shapes: a [g] element over such trees; a [rect], [circle],
    [line], [ellipse], [polygon], [polyline] or [image] element without
    element children; or a node that is no element, has no children and
    whose lower-cased name is not [defs] and has no entry in [nodeParsers],
    the inherited entries [constructor] and [__proto__] included, as the
    text and comment nodes of a document are. *)
Theorem groups_and_shapes_always_parse (parseFromString : string -> Node)
    (getBoundingRectWidth : El -> number) (xml : Source) (opt : option SVGParserOption)
    (g : Globals) (before after : list Node) (svg : Node) :
  siblingChain parseFromString xml = (before ++ svg :: after)%list ->
  forallb (fun n => negb (isSvgElement n)) before = true ->
  isSvgElement svg = true ->
  forallb groupsAndShapes (childNodes svg) = true ->
  exists r g', parseSVG parseFromString getBoundingRectWidth xml opt g = (Returned r, g').
Proof.
  intros Hchain Hbefore Hsvg Hcs. unfold parseSVG.
  assert (H : exists r s', parse parseFromString getBoundingRectWidth xml opt
                             (mkState newSVGParser g) = Ok r s').
  { unfold parse. cbv zeta. rewrite parseXML_chain, Hchain.
    proceed (firstSvg_skips before after svg (mkState newSVGParser g) Hbefore Hsvg).
    destruct (parseAttributes_run svg) as [tr Hrun].
    proceed (Hrun (newEl TGroup NoShape) None true (mkState newSVGParser g)).
    pose proof (applyStyle_frame false None tr (newEl TGroup NoShape)
                  (mergedStyle svg (newEl TGroup NoShape) true)) as (Hty & _).
    cbn [isTextEl newEl type] in *.
    match goal with
    | |- context [bind (parseChildren _ _ ?root) _ ?s1] =>
        assert (Hroot : isGroup root = true) by (unfold isGroup; rewrite Hty; reflexivity);
        destruct (parseChildren_groupsAndShapes getBoundingRectWidth (childNodes svg) root
                    Hcs Hroot s1 (conj eq_refl eq_refl)) as (added & g1 & Hadded)
    end.
    proceed Hadded. eexists _, _. reflexivity. }
  destruct H as (r & s' & H). rewrite H. eauto.
Qed.

Lemma groups_and_shapes_always_parse_witness :
  exists r g',
    parseSVG emptyDocument sevenWide
      (Parsed (document
                 [doctype "svg"; comment "drawing";
                  element "svg" [("width", "10")]
                    [text " ";
                     element "g" [("fill", "red")]
                       [text " "; element "rect" [("width", "4")] [text " "];
                        element "G" [] [element "circle" [("r", "1")] []]];
                     comment "c"; element "polyline" [("points", "0,0 1,1")] []]]) [])
      None (mkGlobals [] 0)
    = (Returned r, g').
Proof.
  apply (groups_and_shapes_always_parse emptyDocument sevenWide
           (Parsed (document
                      [doctype "svg"; comment "drawing";
                       element "svg" [("width", "10")]
                         [text " ";
                          element "g" [("fill", "red")]
                            [text " "; element "rect" [("width", "4")] [text " "];
                             element "G" [] [element "circle" [("r", "1")] []]];
                          comment "c"; element "polyline" [("points", "0,0 1,1")] []]]) [])
           None (mkGlobals [] 0) [doctype "svg"; comment "drawing"] []
           (element "svg" [("width", "10")]
              [text " ";
               element "g" [("fill", "red")]
                 [text " "; element "rect" [("width", "4")] [text " "];
                  element "G" [] [element "circle" [("r", "1")] []]];
               comment "c"; element "polyline" [("points", "0,0 1,1")] []]));
    reflexivity.
Defined.

(** *** The style tail of parseAttributes *)




(** *** Names outside the list *)





(** *** Repeated declarations *)

Lemma styleListOf_app (d1 d2 : list (string * string)) :
  styleListOf (d1 ++ d2)
  = fold_left (fun (m : gmap string string) kv => <[kv.1 := kv.2]> m) d2 (styleListOf d1).
Proof. unfold styleListOf. apply fold_left_app. Qed.

Lemma declarations_untouched (d : list (string * string)) (m : gmap string string)
    (a : string) :
  ~ In a (map fst d) ->
  fold_left (fun (m : gmap string string) kv => <[kv.1 := kv.2]> m) d m !! a = m !! a.
Proof.
  revert m. induction d as [|[k v] d IH]; intros m H; simpl; [reflexivity|].
  simpl in H. rewrite IH by tauto. apply lookup_insert_ne. tauto.
Qed.

Lemma knownStyles_lookup (styleList : gmap string string) (a p : string) :
  In (a, p) attributesMap -> knownStyles styleList !! p = styleList !! a.
Proof.
  intros H.
  pose proof (loop_lookup (fun a => styleList !! a) attributesMap ∅ a p
                attributesMap_NoDup H) as Hl.
  change (knownStyles styleList !! p
          = match styleList !! a with
            | Some v => Some v
            | None => (∅ : gmap string string) !! p
            end) in Hl.
  rewrite Hl. destruct (styleList !! a); [reflexivity|apply lookup_empty].
Qed.

(** X18. When the [style] attribute declares a listed property more than
    once, [parseStyleAttribute] returns the value of the last
    declaration. *)
Theorem last_inline_declaration_wins (xmlNode : Node) (style : string)
    (before after : list (string * string)) (svgAttrName zrName value : string) (s : State) :
  getAttribute xmlNode "style" = Some style -> style <> "" ->
  styleMatches 0 style = (before ++ (svgAttrName, value) :: after)%list ->
  ~ In svgAttrName (map fst after) ->
  In (svgAttrName, zrName) attributesMap ->
  exists (result : gmap string string) (s' : State),
    parseStyleAttribute xmlNode s = Ok result s' /\ result !! zrName = Some value.
Proof.
  intros Hst Hne Hm Hafter Hin.
  eexists _, _. split; [apply parseStyleAttribute_run|].
  unfold inlineStyleOf. rewrite Hst. destruct style as [|c style]; [contradiction|].
  cbn [nonEmpty]. rewrite Hm.
  rewrite (knownStyles_lookup _ svgAttrName zrName Hin).
  rewrite styleListOf_app. cbn [fold_left fst snd].
  rewrite (declarations_untouched after _ svgAttrName Hafter), lookup_insert_eq. reflexivity.
Qed.

Lemma last_inline_declaration_wins_witness :
  exists (result : gmap string string) (s' : State),
    parseStyleAttribute (element "rect" [("style", "fill:red; stroke:blue; fill:green")] [])
      (mkState newSVGParser (mkGlobals [] 0))
    = Ok result s'
    /\ result !! "fill" = Some "green".
Proof.
  apply (last_inline_declaration_wins
           (element "rect" [("style", "fill:red; stroke:blue; fill:green")] [])
           "fill:red; stroke:blue; fill:green" [("fill", "red"); ("stroke", "blue")] []
           "fill" "fill" "green" (mkState newSVGParser (mkGlobals [] 0))).
  - vm_compute. reflexivity.
  - discriminate.
  - vm_compute. reflexivity.
  - intros [].
  - left. reflexivity.
Defined.

(** *** Coordinate lists *)

Lemma splitFrom_nonempty (cur : string) (inDelim : bool) (s : string) :
  splitFrom cur inDelim s <> [].
Proof.
  revert cur inDelim. induction s as [|c r IH]; intros cur inDelim; simpl; [discriminate|].
  destruct (isDelimiter c); [destruct inDelim|]; try apply IH. discriminate.
Qed.

Lemma trimStart_onlyDelimiters (s : string) :
  onlyDelimiters s = true -> onlyDelimiters (trimStart s) = true.
Proof.
  induction s as [|c r IH]; simpl; [reflexivity|].
  intros H. apply andb_true_iff in H as [Hc Hr].
  destruct (isSpace c); [auto|]. simpl. rewrite Hc, Hr. reflexivity.
Qed.

Lemma trimEnd_onlyDelimiters (s : string) :
  onlyDelimiters s = true -> onlyDelimiters (trimEnd s) = true.
Proof.
  induction s as [|c r IH]; simpl; [reflexivity|].
  intros H. apply andb_true_iff in H as [Hc Hr]. specialize (IH Hr).
  destruct (trimEnd r) as [|c' r'].
  - destruct (isSpace c); [reflexivity|]. simpl. rewrite Hc. reflexivity.
  - cbn [onlyDelimiters]. rewrite Hc. exact IH.
Qed.

Lemma splitFrom_onlyDelimiters (s : string) :
  onlyDelimiters s = true -> splitFrom "" true s = [""].
Proof.
  induction s as [|c r IH]; simpl; [reflexivity|].
  intros H. apply andb_true_iff in H as [Hc Hr]. rewrite Hc. auto.
Qed.

(** X19. [parsePoints] never returns the empty list: a string of white space
    and commas only gives the one point (NaN, NaN). A [polygon] or [polyline]
    has no points exactly when its [points] attribute is absent or empty. *)
Theorem parsePoints_is_never_empty (pointsString : string) (xmlNode : Node) :
  parsePoints pointsString <> []
  /\ (onlyDelimiters pointsString = true -> parsePoints pointsString = [(nan, nan)])
  /\ (pointsAttr xmlNode = [] <-> orElse (getAttribute xmlNode "points") "" = "").
Proof.
  assert (Hne : forall s, parsePoints s <> []).
  { intros s. unfold parsePoints, splitDelimiters.
    pose proof (splitFrom_nonempty "" false (trim s)) as H.
    destruct (splitFrom "" false (trim s)) as [|a [|b l]]; [contradiction| |]; discriminate. }
  split; [apply Hne|]. split.
  - intros H. unfold parsePoints, splitDelimiters, trim.
    pose proof (trimEnd_onlyDelimiters _ (trimStart_onlyDelimiters _ H)) as Ht.
    destruct (trimEnd (trimStart pointsString)) as [|c r]; [reflexivity|].
    cbn [onlyDelimiters] in Ht. apply andb_true_iff in Ht as [Hc Hr].
    cbn [splitFrom]. rewrite Hc, (splitFrom_onlyDelimiters r Hr). reflexivity.
  - unfold pointsAttr, orElse. destruct (getAttribute xmlNode "points") as [p|]; [|tauto].
    destruct p as [|c p]; [tauto|]. cbn [nonEmpty]. split; [|discriminate].
    intros H. exfalso. exact (Hne _ H).
Qed.

(** *** The characters a transform function reads *)

(** X20. A case of the [switch] of [parseTransformAttribute] depends on the
    first characters of the argument string only: two for [translate] and
    [scale], one for [rotate], six for [matrix], none otherwise. *)
Theorem transform_functions_read_single_characters (type value value' : string)
    (m : Matrix) (s : State) :
  (forall k, (k < charactersRead type)%nat -> String.get k value = String.get k value') ->
  transformStep type value m s = transformStep type value' m s.
Proof.
  unfold transformStep, charactersRead, charAt. intros H.
  destruct (String.eqb type "translate").
  { rewrite (H 0%nat), (H 1%nat) by lia. reflexivity. }
  destruct (String.eqb type "scale").
  { rewrite (H 0%nat), (H 1%nat) by lia. reflexivity. }
  destruct (String.eqb type "rotate").
  { rewrite (H 0%nat) by lia. reflexivity. }
  destruct (String.eqb type "skew"); [reflexivity|].
  destruct (String.eqb type "matrix"); [|reflexivity].
  rewrite (H 0%nat), (H 1%nat), (H 2%nat), (H 3%nat), (H 4%nat), (H 5%nat) by lia.
  reflexivity.
Qed.

Lemma transform_functions_read_single_characters_witness :
  transformStep "translate" "10 20" MCreate (mkState newSVGParser (mkGlobals [] 0))
  = transformStep "translate" "10" MCreate (mkState newSVGParser (mkGlobals [] 0)).
Proof.
  apply (transform_functions_read_single_characters "translate" "10 20" "10" MCreate
           (mkState newSVGParser (mkGlobals [] 0))).
  intros k Hk. cbn in Hk. destruct k as [|[|k]]; [reflexivity|reflexivity|lia].
Defined.

(** *** The stroke mark *)



(** *** Exceptions *)

(** X22. A call of [parseSVG] returns or throws a [TypeError]; it throws
    nothing else. *)
Theorem parseSVG_throws_nothing_but_TypeError (parseFromString : string -> Node)
    (getBoundingRectWidth : El -> number) (xml : Source) (opt : option SVGParserOption)
    (g : Globals) :
  (exists r, fst (parseSVG parseFromString getBoundingRectWidth xml opt g) = Returned r)
  \/ fst (parseSVG parseFromString getBoundingRectWidth xml opt g) = Thrown TypeError.
Proof.
  unfold parseSVG.
  destruct (parse parseFromString getBoundingRectWidth xml opt (mkState newSVGParser g))
    as [r s'|e s'] eqn:E; [left; eauto|right].
  rewrite (throws_TypeError_only _ _ _ _
             (respects_parse parseFromString getBoundingRectWidth xml opt) E).
  reflexivity.
Qed.

(** *** Character data outside a text element *)



(** *** Edges of the registry, the viewBox and the root style *)

(** X24. In define mode a [linearGradient] element whose [id] is absent or
    empty is parsed and dropped: nothing is registered and the state is as
    before. *)
Theorem gradient_without_id_is_not_registered (w : El -> number) (name : string)
    (attrs : gmap string string) (v : string) (cs : list Node) (pg : option El)
    (s : State) :
  let xmlNode := mkNode 1 name attrs v cs in
  defineOf s = true -> _isText (this s) = false ->
  toLowerCase name = "lineargradient" ->
  orElse (getAttribute xmlNode "id") "" = "" ->
  Forall isStopOrNoElement cs ->
  _parseNode w xmlNode pg s = Ok [] s.
Proof.
  intros xmlNode Hd Ht Hn Hid Hcs. unfold xmlNode.
  rewrite _parseNode_eq. cbv zeta. rewrite Hn.
  change (String.eqb "lineargradient" "defs") with false.
  change (String.eqb "lineargradient" "text") with false. cbv iota.
  proceed (eq_refl : ret tt s = Ok tt s).
  proceed (eq_refl : getThis s = Ok (this s) s).
  unfold defineOf in Hd. rewrite Hd.
  change (entryOf defineParsers "lineargradient") with (Own parse_lineargradient).
  cbn [isEntry callDefineParser]. fold xmlNode.
  assert (Hgrad : parse_lineargradient xmlNode s = Ok (gradientOf xmlNode) s).
  { unfold parse_lineargradient.
    rewrite (bind_continues _ _ _ _ _ (requireElement_element xmlNode s eq_refl)). cbv zeta.
    unfold _parseGradientColorStops.
    assert (Hoff : forall stop, In stop (childNodes xmlNode) -> nodeType stop = 1%N ->
                                exists offsetStr, getAttribute stop "offset" = Some offsetStr).
    { intros stop Hin Hty. cbn [childNodes xmlNode] in Hin.
      rewrite Forall_forall in Hcs. apply list_elem_of_In in Hin.
      destruct (Hcs stop Hin) as [Hc|(_ & _ & [o Ho])]; [contradiction|]. eauto. }
    rewrite (bind_continues _ _ _ _ _
               (colorStopsFrom_with_offsets (childNodes xmlNode) [] s Hoff)).
    reflexivity. }
  proceed Hgrad.
  proceed (eq_refl : ret (DefGradient (gradientOf xmlNode)) s = Ok _ s).
  proceed (requireElement_element xmlNode s eq_refl).
  assert (Hreg : match getAttribute xmlNode "id" with
                 | Some id =>
                     if nonEmpty id
                     then setThis (fun p => with_defs (<[id := DefGradient (gradientOf xmlNode)]>
                                                         (_defs p)) p)
                     else ret tt
                 | None => ret tt
                 end s = Ok tt s).
  { unfold orElse in Hid. destruct (getAttribute xmlNode "id") as [[|c id]|];
      try reflexivity. discriminate Hid. }
  proceed Hreg.
  proceed (eq_refl : ret (@None El) s = Ok None s).
  proceed (visitChildren_stops w None cs s Hcs Hd Ht).
  reflexivity.
Qed.

Lemma gradient_without_id_is_not_registered_witness :
  let s := mkState (mkParser ∅ true false VUndefined VUndefined) (mkGlobals [] 0) in
  _parseNode sevenWide
    (mkNode 1 "linearGradient" (list_to_map [("id", "")]) ""
       [element "stop" [("offset", "0")] []]) None s
  = Ok [] s.
Proof.
  apply (gradient_without_id_is_not_registered sevenWide "linearGradient"
           (list_to_map [("id", "")]) "" [element "stop" [("offset", "0")] []] None
           (mkState (mkParser ∅ true false VUndefined VUndefined) (mkGlobals [] 0))).
  - reflexivity.
  - reflexivity.
  - reflexivity.
  - vm_compute. reflexivity.
  - constructor; [right; split; [reflexivity|split; [reflexivity|eexists; reflexivity]]|].
    constructor.
Defined.

(** X25. When [parse] returns, the viewBox rectangle is absent exactly when
    the [viewBox] attribute is absent or empty or has fewer than four tokens,
    and then no viewBox transform is computed; otherwise its width and height
    are the third and the fourth token, later tokens being ignored. *)
Theorem short_viewBox_is_ignored (parseFromString : string -> Node) (w : El -> number)
    (xml : Source) (opt : option SVGParserOption) (s s' : State) (r : SVGParserResult) :
  parse parseFromString w xml opt s = Ok r s' ->
  exists svg,
    parseXML parseFromString xml s = Ok (Some svg) s
    /\ (viewBoxRect r = None
        <-> orElse (getAttribute svg "viewBox") "" = ""
            \/ (length (viewBoxTokens svg) < 4)%nat)
    /\ (viewBoxRect r = None -> viewBoxTransform r = None)
    /\ (forall b, viewBoxRect r = Some b ->
                  Some (RectLike.width b) = option_map parseFloat (viewBoxTokens svg !! 2%nat)
                  /\ Some (RectLike.height b)
                     = option_map parseFloat (viewBoxTokens svg !! 3%nat)).
Proof.
  intros H. apply parse_returned in H
    as (svg & root0 & added & s1 & Hxml & _ & _ & _ & _ & _ & _ & _ & _ & _ & _ & _ & Hv & Ht & _).
  exists svg. split; [exact Hxml|]. rewrite Ht, Hv. clear Ht Hv.
  unfold parseViewBox, viewBoxTokens.
  destruct (orElse (getAttribute svg "viewBox") "") as [|c vb] eqn:E.
  - cbn [nonEmpty]. split; [split; auto|]. split; [reflexivity|]. discriminate.
  - cbn [nonEmpty].
    destruct (splitDelimiters (trim (String c vb))) as [|a [|b [|c0 [|d l]]]];
      cbn [length];
      try (split; [split; [intros _; right; lia|reflexivity]
                  |split; [reflexivity|discriminate]]).
    split; [split; [discriminate|intros [Hd|Hd]; [discriminate Hd|lia]]|].
    split; [discriminate|].
    intros b0 Hb. inversion Hb. subst b0. split; reflexivity.
Qed.

Lemma short_viewBox_is_ignored_witness :
  exists r s' svg,
    parse emptyDocument sevenWide
      (Parsed (element "svg" [("width", "10"); ("height", "10"); ("viewBox", "0 0 10")] []) [])
      None (mkState newSVGParser (mkGlobals [] 0))
    = Ok r s'
    /\ viewBoxRect r = None
    /\ parseXML emptyDocument
         (Parsed (element "svg" [("width", "10"); ("height", "10"); ("viewBox", "0 0 10")] [])
            [])
         (mkState newSVGParser (mkGlobals [] 0))
       = Ok (Some svg) (mkState newSVGParser (mkGlobals [] 0))
    /\ (viewBoxRect r = None
        <-> orElse (getAttribute svg "viewBox") "" = ""
            \/ (length (viewBoxTokens svg) < 4)%nat)
    /\ (viewBoxRect r = None -> viewBoxTransform r = None)
    /\ (forall b, viewBoxRect r = Some b ->
                  Some (RectLike.width b) = option_map parseFloat (viewBoxTokens svg !! 2%nat)
                  /\ Some (RectLike.height b)
                     = option_map parseFloat (viewBoxTokens svg !! 3%nat)).
Proof.
  assert (H : exists r s',
             parse emptyDocument sevenWide
               (Parsed (element "svg"
                          [("width", "10"); ("height", "10"); ("viewBox", "0 0 10")] []) [])
               None (mkState newSVGParser (mkGlobals [] 0))
             = Ok r s' /\ viewBoxRect r = None).
  { eexists _, _. split; vm_compute; reflexivity. }
  destruct H as (r & s' & H & Hnone).
  destruct (short_viewBox_is_ignored emptyDocument sevenWide
              (Parsed (element "svg"
                         [("width", "10"); ("height", "10"); ("viewBox", "0 0 10")] []) [])
              None (mkState newSVGParser (mkGlobals [] 0)) s' r H) as (svg & Hsvg & Hrest).
  exists r, s', svg. split; [exact H|]. split; [exact Hnone|]. split; [exact Hsvg|exact Hrest].
Defined.

(** *** What the root hands down *)

Lemma frame_inherited (b : bool) (e c : El) (sc : number * number) (p : value * value) :
  __inheritedStyle (if b then setClipPath e c else e) = __inheritedStyle e
  /\ __inheritedStyle (setPosition (setScale e sc) p) = __inheritedStyle e.
Proof. destruct b; split; reflexivity. Qed.

Lemma pushChildren_inherited (e : El) (cs : list El) :
  __inheritedStyle (pushChildren e cs) = __inheritedStyle e.
Proof.
  unfold pushChildren. revert e. induction cs as [|c cs IH]; intros e; simpl; [reflexivity|].
  rewrite IH. reflexivity.
Qed.

(** X26. The root group hands down the inline [style] declarations of the
    [svg] element only: for every listed property but [textBaseline] and
    [textAlign], the inherited style of the content group holds what the
    [style] attribute declares, whatever the presentation attributes of the
    [svg] element are. *)
Theorem root_hands_down_its_style_attribute_only (parseFromString : string -> Node)
    (getBoundingRectWidth : El -> number) (xml : Source) (opt : option SVGParserOption)
    (g g' : Globals) (r : SVGParserResult) :
  parseSVG parseFromString getBoundingRectWidth xml opt g = (Returned r, g') ->
  exists (svg : Node) (content : El),
    parseXML parseFromString xml (mkState newSVGParser g)
    = Ok (Some svg) (mkState newSVGParser g)
    /\ contentOf opt r = Some content
    /\ forall svgAttrName zrName,
         In (svgAttrName, zrName) attributesMap ->
         zrName <> "textBaseline" -> zrName <> "textAlign" ->
         inheritedOf content !! zrName = inlineStyleOf svg !! zrName.
Proof.
  unfold parseSVG.
  destruct (parse parseFromString getBoundingRectWidth xml opt (mkState newSVGParser g))
    as [r0 s0|e s0] eqn:E; intros H; inversion H; subst; clear H.
  apply parse_returned in E
    as (svg & root0 & added & s1 & Hxml & _ & _ & _ & _ & _ & _ & _ & Hsvg & Hinh
        & _ & _ & _ & _ & Hr).
  assert (Hlook : forall svgAttrName zrName,
             In (svgAttrName, zrName) attributesMap ->
             zrName <> "textBaseline" -> zrName <> "textAlign" ->
             default ∅ (__inheritedStyle (pushChildren root0 added)) !! zrName
             = inlineStyleOf svg !! zrName).
  { intros a p Hin H1 H2. rewrite pushChildren_inherited, Hinh. cbn [default].
    change (normalizeText (mergedStyle svg (newEl TGroup NoShape) true) !! p
            = inlineStyleOf svg !! p).
    rewrite (normalizeText_other _ p H1 H2).
    unfold isSvgElement in Hsvg. apply andb_true_iff in Hsvg as [_ Hty].
    apply N.eqb_eq in Hty.
    rewrite (mergedStyle_lookup svg (newEl TGroup NoShape) true a p Hty Hin).
    unfold precedence. destruct (inlineStyleOf svg !! p); [reflexivity|].
    apply lookup_empty. }
  exists svg. unfold contentOf, inheritedOf. rewrite Hr. cbv zeta.
  destruct (viewBoxTransform r) as [t|]; [destruct (ignoreViewBox (default noOption opt))|];
    cbn [negb]; destruct (width r), (height r);
    try destruct (negb (ignoreRootClip (default noOption opt)));
    (eexists; split; [exact Hxml|split; [reflexivity|]]);
    exact Hlook.
Qed.

Lemma root_hands_down_its_style_attribute_only_witness :
  exists (svg : Node) (content : El) (r : SVGParserResult) (g' : Globals),
    parseSVG emptyDocument sevenWide
      (Parsed (element "svg" [("fill", "red"); ("style", "stroke:blue")]
                 [element "rect" [] []]) [])
      None (mkGlobals [] 0)
    = (Returned r, g')
    /\ contentOf None r = Some content
    /\ getAttribute svg "fill" = Some "red"
    /\ inheritedOf content !! "fill" = None
    /\ inheritedOf content !! "stroke" = Some "blue".
Proof.
  destruct (root_hands_down_its_style_attribute_only emptyDocument sevenWide
              (Parsed (element "svg" [("fill", "red"); ("style", "stroke:blue")]
                         [element "rect" [] []]) [])
              None (mkGlobals [] 0) _ _ eq_refl) as (svg & content & Hxml & Hc & Hl).
  exists svg, content. eexists _, _. split; [reflexivity|]. split; [exact Hc|].
  vm_compute in Hxml. inversion Hxml. subst svg. split; [vm_compute; reflexivity|]. split.
  - rewrite (Hl "fill" "fill"); [vm_compute; reflexivity|left; reflexivity|discriminate
                                |discriminate].
  - rewrite (Hl "stroke" "stroke");
      [vm_compute; reflexivity|right; left; reflexivity|discriminate|discriminate].
Defined.

(** *** A tspan with an x of its own *)



